(** * Tell-Tale Bot: a shallow embedding of the risk pipeline

    The development follows the TypeScript sources module by module:

    - [JsString], [TextEncoder]: the string primitives the code relies on
      (UTF-16 code units, [slice], [includes], UTF-8 encoding);
    - [TtlCache], [UserRateLimiter]: src/utils/rateLimit.ts;
    - [RpcFallback]: src/services/rpcFallback.ts;
    - [ScamDb], [KnownContracts]: src/services/scamDb.ts and
      src/data/knownContracts.ts;
    - [RiskScorer]: src/services/riskScorer.ts, with IEEE-754 binary64
      arithmetic carried by Rocq's primitive floats;
    - [ReportGenerator]: [formatForCast] and [truncateToByteLimit] of
      src/services/reportGenerator.ts;
    - [Index]: [runAnalysis] of src/index.ts;
    - [RateLimiter], [DataFetcher], [RpcCalls]: the call limiter of
      src/utils/rateLimit.ts, the aggregator of src/services/dataFetcher.ts
      and the RPC reads it falls back on;
    - [ScamDbRemote], [ContractLabels], [ScamSeeds], [AddressShape]: the rest
      of the registry, the label table, the shipped seed list and the
      address pattern;
    - [ReportData]: [calculateConfidence], [computeTopInteractions] and
      [validateAiOutput] of src/services/reportGenerator.ts;
    - [Farcaster], [Webhook]: the signature check of
      src/services/farcaster.ts and the webhook handler of src/index.ts.

    Wall-clock reads ([Date.now()]) are explicit [now] arguments, module-level
    mutable variables are explicit state arguments and results.  An [async]
    function that shares such variables with other calls in flight is
    followed from one [await] to the next, the calls taking turns. *)

From Stdlib Require Import ZArith List Floats String Ascii Lia Bool DecimalString Sorted.
From stdpp Require Import gmap list.
Import ListNotations.

Set Warnings "-inexact-float".
Open Scope Z_scope.

(* ================================================================== *)
(** * JavaScript strings *)
(* ================================================================== *)

(** A JavaScript string is a sequence of UTF-16 code units; a code unit is
    kept as a [Z] in [0, 65535].  Literals of the sources are written
    [js "..."] for their ASCII parts, non-ASCII characters are given by their
    code units. *)
Module JsString.

Definition js (s : string) : list Z :=
  List.map (fun a => Z.of_N (N_of_ascii a)) (list_ascii_of_string s).

(** [String.prototype.toLowerCase], restricted to the ASCII letters: every
    string the pipeline lowercases for comparison is an address, a selector
    or an English description. *)
Definition toLowerCaseUnit (c : Z) : Z :=
  if (65 <=? c) && (c <=? 90) then c + 32 else c.

Definition toLowerCase (s : list Z) : list Z := List.map toLowerCaseUnit s.

(** [a === b] on strings. *)
Definition strictEq (a b : list Z) : bool := bool_decide (a = b).

(** [s.startsWith(prefix)] *)
Fixpoint startsWith (s prefix : list Z) {struct prefix} : bool :=
  match prefix, s with
  | [], _ => true
  | p :: ps, c :: cs => (c =? p) && startsWith cs ps
  | _ :: _, [] => false
  end.

(** [s.includes(needle)] *)
Fixpoint includes (s needle : list Z) {struct s} : bool :=
  startsWith s needle ||
  match s with
  | [] => false
  | _ :: rest => includes rest needle
  end.

(** [s.lastIndexOf(c)] for a one-unit search string; [-1] when absent. *)
Fixpoint lastIndexOfFrom (s : list Z) (c : Z) (i acc : Z) : Z :=
  match s with
  | [] => acc
  | x :: rest => lastIndexOfFrom rest c (i + 1) (if x =? c then i else acc)
  end.

Definition lastIndexOf (s : list Z) (c : Z) : Z := lastIndexOfFrom s c 0 (-1).

(** [s.slice(start, end)], on strings and on arrays alike: negative indices
    count from the end, everything is clamped to [0, length]. *)
Definition slice {A : Type} (s : list A) (start end_ : Z) : list A :=
  let len := Z.of_nat (length s) in
  let from := if start <? 0 then Z.max (len + start) 0 else Z.min start len in
  let to := if end_ <? 0 then Z.max (len + end_) 0 else Z.min end_ len in
  take (Z.to_nat (to - from)) (drop (Z.to_nat from) s).

(** [s.slice(start)] *)
Definition sliceFrom {A : Type} (s : list A) (start : Z) : list A :=
  slice s start (Z.of_nat (length s)).

(** [parts.join(sep)] *)
Fixpoint join (sep : list Z) (parts : list (list Z)) : list Z :=
  match parts with
  | [] => []
  | [p] => p
  | p :: rest => p ++ sep ++ join sep rest
  end.

(** Template interpolation of an integer-valued number: its decimal digits,
    with a leading minus sign when negative. *)
Definition numberToString (n : Z) : list Z :=
  js (NilZero.string_of_int (Z.to_int n)).

End JsString.

(* ================================================================== *)
(** * TextEncoder *)
(* ================================================================== *)

(** [new TextEncoder().encode(s)]: the UTF-8 bytes of a UTF-16 string.  A
    high surrogate followed by a low surrogate is one supplementary code
    point (four bytes); a surrogate on its own is replaced by U+FFFD (three
    bytes). *)
Module TextEncoder.

Definition isHighSurrogate (c : Z) : bool := (55296 <=? c) && (c <=? 56319).
Definition isLowSurrogate (c : Z) : bool := (56320 <=? c) && (c <=? 57343).

Definition utf8_1 (cp : Z) : list Z := [cp].
Definition utf8_2 (cp : Z) : list Z :=
  [Z.lor 192 (Z.shiftr cp 6); Z.lor 128 (Z.land cp 63)].
Definition utf8_3 (cp : Z) : list Z :=
  [Z.lor 224 (Z.shiftr cp 12);
   Z.lor 128 (Z.land (Z.shiftr cp 6) 63);
   Z.lor 128 (Z.land cp 63)].
Definition utf8_4 (cp : Z) : list Z :=
  [Z.lor 240 (Z.shiftr cp 18);
   Z.lor 128 (Z.land (Z.shiftr cp 12) 63);
   Z.lor 128 (Z.land (Z.shiftr cp 6) 63);
   Z.lor 128 (Z.land cp 63)].

Definition replacement : list Z := utf8_3 65533.

Definition pairCodePoint (hi lo : Z) : Z :=
  65536 + Z.shiftl (hi - 55296) 10 + (lo - 56320).

Fixpoint encode (s : list Z) : list Z :=
  match s with
  | [] => []
  | c :: rest =>
      if c <? 128 then utf8_1 c ++ encode rest
      else if c <? 2048 then utf8_2 c ++ encode rest
      else if isHighSurrogate c then
        match rest with
        | d :: rest' =>
            if isLowSurrogate d
            then utf8_4 (pairCodePoint c d) ++ encode rest'
            else replacement ++ encode rest
        | [] => replacement
        end
      else if isLowSurrogate c then replacement ++ encode rest
      else utf8_3 c ++ encode rest
  end.

(** [encode(s).length] *)
Definition byteLength (s : list Z) : Z := Z.of_nat (length (encode s)).

(** The string opens with a low surrogate, which would pair up with a high
    surrogate put in front of it. *)
Definition startsLow (s : list Z) : bool :=
  match s with
  | [] => false
  | d :: _ => isLowSurrogate d
  end.

End TextEncoder.

(* ================================================================== *)
(** * src/utils/rateLimit.ts *)
(* ================================================================== *)

(** [class TtlCache<T>]: the private [Map] is the state, threaded through
    [get] (which evicts) and [set]. *)
Module TtlCache.

Record CacheEntry (T : Type) := { value : T; expiresAt : Z }.
Arguments value {T} _.
Arguments expiresAt {T} _.

Section Cache.
Context {T : Type}.
Variable ttlMs : Z.

Definition get (now : Z) (key : list Z) (cache : gmap (list Z) (CacheEntry T))
  : option T * gmap (list Z) (CacheEntry T) :=
  match cache !! key with
  | None => (None, cache)
  | Some entry =>
      if now >? expiresAt entry
      then (None, delete key cache)
      else (Some (value entry), cache)
  end.

Definition set (now : Z) (key : list Z) (v : T)
    (cache : gmap (list Z) (CacheEntry T)) : gmap (list Z) (CacheEntry T) :=
  <[ key := {| value := v; expiresAt := now + ttlMs |} ]> cache.

Definition has (now : Z) (key : list Z) (cache : gmap (list Z) (CacheEntry T))
  : bool * gmap (list Z) (CacheEntry T) :=
  let r := get now key cache in
  (match fst r with Some _ => true | None => false end, snd r).

Definition clear (cache : gmap (list Z) (CacheEntry T))
  : gmap (list Z) (CacheEntry T) := ∅.

End Cache.
End TtlCache.

(** [class UserRateLimiter]: [queries] maps a FID to the timestamps of its
    recorded calls. *)
Module UserRateLimiter.

Section Limiter.
Variables maxQueries windowMs : Z.

Definition checkAndRecord (now : Z) (fid : Z) (queries : gmap Z (list Z))
  : bool * gmap Z (list Z) :=
  let userTimestamps :=
    List.filter (fun t => now - t <? windowMs) (default [] (queries !! fid)) in
  if Z.of_nat (length userTimestamps) >=? maxQueries
  then (false, queries)
  else (true, <[ fid := userTimestamps ++ [now] ]> queries).

(** A caller issuing one [checkAndRecord] per entry of [times], in order. *)
Fixpoint checkAll (times : list Z) (fid : Z) (queries : gmap Z (list Z))
  : list bool * gmap Z (list Z) :=
  match times with
  | [] => ([], queries)
  | now :: rest =>
      let r := checkAndRecord now fid queries in
      let rs := checkAll rest fid (snd r) in
      (fst r :: fst rs, snd rs)
  end.

End Limiter.

(** Every call of the list comes less than [windowMs] after each call
    before it: the calls share one window. *)
Fixpoint withinWindow (windowMs : Z) (times : list Z) : Prop :=
  match times with
  | [] => True
  | t :: rest => Forall (fun t' => t' - t < windowMs) rest /\ withinWindow windowMs rest
  end.

(** The timestamps recorded for [fid]. *)
Definition recorded (fid : Z) (queries : gmap Z (list Z)) : list Z :=
  default [] (queries !! fid).

End UserRateLimiter.

(* ================================================================== *)
(** * src/services/rpcFallback.ts *)
(* ================================================================== *)

Module RpcFallback.

Record RpcProviderConfig := { name : list Z; url : list Z; priority : Z }.

(** The client [createBaseClient(url)] builds is known by its transport URL. *)
Record BasePublicClient := { transportUrl : list Z }.

Definition createBaseClient (u : list Z) : BasePublicClient :=
  {| transportUrl := u |}.

(** The two module-level variables. *)
Record State := { activeClient : option BasePublicClient; activeProviderIndex : nat }.

(** The two [Error]s the module throws. *)
Inductive Thrown := NoProvidersAvailable | AllProvidersFailed.

Section Fallback.
Variable rpcProviders : list RpcProviderConfig.

Definition getClient (st : State) : (Thrown + BasePublicClient) * State :=
  match activeClient st with
  | Some c => (inr c, st)
  | None =>
      match rpcProviders !! activeProviderIndex st with
      | None => (inl NoProvidersAvailable, st)
      | Some provider =>
          let c := createBaseClient (url provider) in
          (inr c, {| activeClient := Some c;
                     activeProviderIndex := activeProviderIndex st |})
      end
  end.

(** With an empty provider list JavaScript's [%] yields [NaN], which indexes
    no provider; [Nat.modulo n 0] is [n], which indexes no provider of the
    empty list either. *)
Definition rotateProvider (st : State) : State :=
  {| activeClient := None;
     activeProviderIndex :=
       Nat.modulo (activeProviderIndex st + 1) (length rpcProviders) |}.

(** The index reached [k] rotations after [i]. *)
Definition rotated (i k : nat) : nat :=
  Nat.modulo (i + k) (length rpcProviders).

(** The client built from the provider at index [i]. *)
Definition clientAt (i : nat) : BasePublicClient :=
  createBaseClient (default [] (url <$> rpcProviders !! i)).

(** [withFallback(fn)] is an [async] function.  It runs until
    [await fn(client)] suspends it, other code runs while it is suspended,
    and the two module-level variables are shared with every other call of
    [withFallback] in flight.  A call is therefore followed from one
    suspension to the next, and the calls in flight are kept together with
    the shared variables.  [fn] is an asynchronous method of the client: it
    fails by rejecting the promise it returns. *)
Context {T : Type}.

(** Where a call stands: suspended at [await fn(client)] in turn [attempt]
    of the loop, or finished, with its value or its [Error]. *)
Inductive Progress :=
| Awaiting (attempt : nat) (client : BasePublicClient)
| Finished (result : Thrown + T).

(** The loop from the head of turn [attempt], with [turns] turns left, up to
    its next [await]: [getClient()], then [fn(client)] is started and
    awaited.  A throw of [getClient] is caught by the same [catch] as a
    rejection. *)
Fixpoint resume (turns attempt : nat) (st : State) : Progress * State :=
  match turns with
  | O => (Finished (inl AllProvidersFailed), st)
  | S turns' =>
      match getClient st with
      | (inr client, st1) => (Awaiting attempt client, st1)
      | (inl _, st1) => resume turns' (S attempt) (rotateProvider st1)
      end
  end.

(** [withFallback(fn)] from the call to its first [await], with
    [maxAttempts = config.rpcProviders.length] turns ahead. *)
Definition withFallback (st : State) : Progress * State :=
  resume (length rpcProviders) 0 st.

(** The promise awaited in turn [attempt] settles: [Some v] resolves it and
    the call returns [v]; [None] rejects it, and the [catch] block rotates
    before the loop goes on, all before anything else can run. *)
Definition settle (attempt : nat) (outcome : option T) (st : State)
  : Progress * State :=
  match outcome with
  | Some v => (Finished (inr v), st)
  | None =>
      resume (length rpcProviders - S attempt) (S attempt) (rotateProvider st)
  end.

(** A call in flight, with the attempts it has made so far and how each
    ended.  The list is bookkeeping for the statements below, not a variable
    of the program. *)
Record Call := {
  progress : Progress;
  log : list (BasePublicClient * option T)
}.

(** The module-level variables and every call made so far, in order of
    entry. *)
Record System := {
  shared : State;
  calls : list Call
}.

(** What happens next: a new call of [withFallback] starts, or the promise
    a call awaits settles. *)
Inductive Event :=
| Enter
| Settle (call : nat) (outcome : option T).

Definition step (sys : System) (e : Event) : System :=
  match e with
  | Enter =>
      let r := withFallback (shared sys) in
      {| shared := snd r;
         calls := calls sys ++ [ {| progress := fst r; log := [] |} ] |}
  | Settle id outcome =>
      match calls sys !! id with
      | Some {| progress := Awaiting attempt client; log := l |} =>
          let r := settle attempt outcome (shared sys) in
          {| shared := snd r;
             calls := <[ id := {| progress := fst r;
                                  log := l ++ [(client, outcome)] |} ]> (calls sys) |}
      | _ => sys
      end
  end.

Definition run (sys : System) (events : list Event) : System :=
  foldl step sys events.

(** An event that leaves the call [id] undisturbed: it is not the rejection
    of an attempt of another call. *)
Definition undisturbed (id : nat) (e : Event) : Prop :=
  match e with
  | Enter => True
  | Settle j outcome => j = id \/ outcome <> None
  end.

(** An event that is not a rejection. *)
Definition unrejected (e : Event) : Prop :=
  match e with
  | Enter => True
  | Settle _ outcome => outcome <> None
  end.

(** [count] rejected attempts, in rotation order from the index [i]. *)
Definition failedPass (i count : nat) : list (BasePublicClient * option T) :=
  List.map (fun k => (clientAt (rotated i k), @None T)) (seq 0 count).

Definition rejected (entry : BasePublicClient * option T) : Prop :=
  snd entry = None.

(** What holds of every call, however the calls overlap. *)
Definition wellFormed (call : Call) : Prop :=
  match progress call with
  | Awaiting attempt _ =>
      attempt = length (log call)
      /\ (attempt < length rpcProviders)%nat
      /\ Forall rejected (log call)
  | Finished (inr v) =>
      (length (log call) <= length rpcProviders)%nat
      /\ exists fails client,
           log call = fails ++ [(client, Some v)] /\ Forall rejected fails
  | Finished (inl e) =>
      e = AllProvidersFailed
      /\ length (log call) = length rpcProviders
      /\ Forall rejected (log call)
  end.

(** What holds of a call that entered at the index [i] and has not been
    disturbed since: its attempts follow the rotation, and while it waits
    the shared variables are where it left them. *)
Definition onTrack (i : nat) (st : State) (call : Call) : Prop :=
  List.map fst (log call)
  = List.map (fun k => clientAt (rotated i k)) (seq 0 (length (log call)))
  /\ match progress call with
     | Awaiting attempt client =>
         client = clientAt (rotated i attempt)
         /\ activeProviderIndex st = rotated i attempt
         /\ activeClient st = Some client
     | Finished _ => True
     end.

End Fallback.

(** The invariant the module maintains: the active index is in range (when
    there is any provider) and a cached client was built from the provider
    at that index.  The initial state, index 0 and no client, satisfies it. *)
Definition consistent (rpcProviders : list RpcProviderConfig) (st : State) : Prop :=
  (rpcProviders = [] \/ (activeProviderIndex st < length rpcProviders)%nat) /\
  forall c, activeClient st = Some c ->
    exists p, rpcProviders !! activeProviderIndex st = Some p /\
              c = createBaseClient (url p).

Arguments Progress : clear implicits.
Arguments Call : clear implicits.
Arguments System : clear implicits.
Arguments Event : clear implicits.

(** The module's invariant together with what holds of every call. *)
Definition sound {T : Type} (rpcProviders : list RpcProviderConfig)
    (sys : System T) : Prop :=
  consistent rpcProviders (shared sys)
  /\ Forall (wellFormed rpcProviders) (calls sys).

(** A call served on its first attempt by the provider at index [i], or
    still waiting for that attempt. *)
Definition servedFirst {T : Type} (rpcProviders : list RpcProviderConfig)
    (i : nat) (call : Call T) : Prop :=
  (progress call = Awaiting 0 (clientAt rpcProviders i) /\ log call = [])
  \/ exists v, progress call = Finished (inr v)
               /\ log call = [(clientAt rpcProviders i, Some v)].

(** The call [id] entered at the index [i] and is on track. *)
Definition tracked {T : Type} (rpcProviders : list RpcProviderConfig)
    (i id : nat) (sys : System T) : Prop :=
  exists call, calls sys !! id = Some call
               /\ onTrack rpcProviders i (shared sys) call.

End RpcFallback.

(* ================================================================== *)
(** * src/types/index.ts *)
(* ================================================================== *)

Inductive RiskLevel := LOW | MEDIUM | HIGH.

Module RiskSignal.
(** [description] and [evidence] are display text chosen by the same branch
    as [score]; nothing below reads them and they are left out. *)
Record t := { name : list Z; weight : float; score : Z }.
End RiskSignal.

Module TopInteraction.
Record t := { address : list Z; label : option (list Z); txCount : Z }.
End TopInteraction.

Module WalletReport.
Record t := {
  address : list Z;
  riskLevel : RiskLevel;
  riskScore : Z;
  confidence : Z;
  signals : list RiskSignal.t;
  summary : list Z;
  keyFindings : list (list Z);
  topInteractions : list TopInteraction.t;
  recommendations : list (list Z);
  disclaimer : list Z;
  analyzedAt : list Z;
  responseTimeMs : Z
}.
End WalletReport.

Module ScamFlag.
Record t := {
  source : list Z;
  category : list Z;
  description : list Z;
  reportedAt : option (list Z)
}.
End ScamFlag.

(** The explorer delivers [timeStamp] and [value] as decimal strings, which
    the scorer reads with [parseInt] and [BigInt]; the records hold the
    integers those strings denote. *)
Module BasescanTransaction.
Record t := {
  blockNumber : Z;
  timeStamp : Z;
  hash : list Z;
  from : list Z;
  to : list Z;
  value : Z;
  gas : Z;
  gasUsed : Z;
  isError : list Z;
  functionName : list Z;
  contractAddress : list Z;
  input : list Z
}.
End BasescanTransaction.

Module BasescanTokenTransfer.
Record t := {
  blockNumber : Z;
  timeStamp : Z;
  hash : list Z;
  from : list Z;
  to : list Z;
  value : Z;
  tokenName : list Z;
  tokenSymbol : list Z;
  tokenDecimal : Z;
  contractAddress : list Z
}.
End BasescanTokenTransfer.

Module WalletData.
Record t := {
  address : list Z;
  balance : Z;
  transactionCount : Z;
  transactions : list BasescanTransaction.t;
  tokenTransfers : list BasescanTokenTransfer.t;
  internalTransactions : list BasescanTransaction.t;
  accountAge : option float;
  firstTxTimestamp : option Z;
  isContract : bool;
  scamFlags : list ScamFlag.t
}.
End WalletData.

(* ================================================================== *)
(** * src/data/knownContracts.ts *)
(* ================================================================== *)

Module KnownContracts.
Import JsString.

Record KnownContract := { address : list Z; label : list Z; category : list Z }.

Definition kc (a l c : string) : KnownContract :=
  {| address := js a; label := js l; category := js c |}.

Definition knownContracts : list KnownContract := [
  kc "0x3fc91a3afd70395cd496c647d5a6cc9d4b2b7fad" "Uniswap UniversalRouter" "dex";
  kc "0x2626664c2603336e57b271c5c0b26f421741e481" "Uniswap V3 SwapRouter02" "dex";
  kc "0x198ef79f1f515f02dfe9e3115ed9fc07183f02fc" "Uniswap V2 Router" "dex";
  kc "0x6cdda07560f6c01c3f9ee090e98368b06c1405cb" "Aerodrome Router" "dex";
  kc "0xcf77a3ba9a5ca399b7c97c74d54e5b1beb874e43" "Aerodrome V2 Router" "dex";
  kc "0x833589fcd6edb6e08f4c7c32d4f71b54bda02913" "USDC (Base)" "token";
  kc "0x50c5725949a6f0c72e6c4a641f24049a917db0cb" "DAI (Base)" "token";
  kc "0xd9aaec86b65d86f6a7b5b1b0c42ffa531710b6ca" "USDbC (Base)" "token";
  kc "0x4200000000000000000000000000000000000006" "WETH (Base)" "token";
  kc "0x4200000000000000000000000000000000000010" "Base L2StandardBridge" "bridge";
  kc "0x4200000000000000000000000000000000000007" "Base L2CrossDomainMessenger" "bridge";
  kc "0x49048044d57e1c92a77f79988d21fa8faf74e97e" "Base Portal (L1)" "bridge";
  kc "0xa238dd80c259a72e81d7e4664a9801593f98d1c5" "Aave V3 Pool (Base)" "lending";
  kc "0x46e6b214b524310239732d51387075e0e70970bf" "Moonwell USDC Market" "lending";
  kc "0x4200000000000000000000000000000000000015" "Base L1Block" "infra";
  kc "0x420000000000000000000000000000000000000f" "Base GasPriceOracle" "infra"
].

Definition whitelistedAddresses : gset (list Z) :=
  list_to_set (List.map (fun c => toLowerCase (address c)) knownContracts).

Definition isWhitelisted (a : list Z) : bool :=
  bool_decide (toLowerCase a ∈ whitelistedAddresses).

End KnownContracts.

(* ================================================================== *)
(** * src/services/scamDb.ts *)
(* ================================================================== *)

Module ScamDb.
Import JsString.

Record ScamSeedEntry := { address : list Z; category : list Z; description : list Z }.

(** A value of the module-level [localScamDb] map. *)
Record LocalMatch := { matchCategory : list Z; matchDescription : list Z }.

Definition seedLocalDb (entries : list ScamSeedEntry)
    (localScamDb : gmap (list Z) LocalMatch) : gmap (list Z) LocalMatch :=
  foldl (fun db entry =>
           <[ toLowerCase (address entry) :=
                {| matchCategory := category entry;
                   matchDescription := description entry |} ]> db)
        localScamDb entries.

Definition localFlag (m : LocalMatch) : ScamFlag.t :=
  {| ScamFlag.source := js "local";
     ScamFlag.category := matchCategory m;
     ScamFlag.description := matchDescription m;
     ScamFlag.reportedAt := None |}.

(** One turn of the [for (const addr of addresses)] loop. *)
Definition batchStep (localScamDb : gmap (list Z) LocalMatch)
    (results : gmap (list Z) ScamFlag.t) (addr : list Z)
  : gmap (list Z) ScamFlag.t :=
  if KnownContracts.isWhitelisted addr then results
  else match localScamDb !! toLowerCase addr with
       | Some m => <[ addr := localFlag m ]> results
       | None => results
       end.

Definition batchCheckLocal (localScamDb : gmap (list Z) LocalMatch)
    (addresses : list (list Z)) : gmap (list Z) ScamFlag.t :=
  foldl (batchStep localScamDb) ∅ addresses.

End ScamDb.

(* ================================================================== *)
(** * JavaScript numbers *)
(* ================================================================== *)

(** A JavaScript number is an IEEE-754 binary64 value: Rocq's primitive
    [float], whose [+], [*], [/] and [<?] are the hardware operations the
    engine runs. *)
Module JsNumber.

(** An integer read as a number.  Exact below [2^53], which covers every
    integer the pipeline converts (scores, array lengths, indices). *)
Definition ofZ (z : Z) : float :=
  match z with
  | Z0 => 0%float
  | Zpos _ => PrimFloat.of_uint63 (Uint63.of_Z z)
  | Zneg p => (- PrimFloat.of_uint63 (Uint63.of_Z (Zpos p)))%float
  end.

(** [Math.round]: the nearest integer, ties towards +infinity, computed on
    the exact value [m * 2^e] of the float.  [Math.round] leaves NaN and the
    infinities as they are; the scorer never produces them (see
    [weightedTotal_finite] below) and the model answers [0] there. *)
Definition Math_round (x : float) : Z :=
  match Prim2SF x with
  | S754_finite s m e =>
      let v := if s then Zneg m else Zpos m in
      if 0 <=? e then v * 2 ^ e
      else (2 * v + 2 ^ (- e)) / 2 ^ (- e + 1)
  | _ => 0
  end.

Definition isFinite (x : float) : bool :=
  match Prim2SF x with
  | S754_finite _ _ _ | S754_zero _ => true
  | _ => false
  end.

(** [Math.min] and [Math.max] on two numbers (NaN is contagious). *)
Definition Math_min (a b : float) : float :=
  if PrimFloat.is_nan a || PrimFloat.is_nan b then PrimFloat.nan
  else if (b <? a)%float then b else a.

Definition Math_max (a b : float) : float :=
  if PrimFloat.is_nan a || PrimFloat.is_nan b then PrimFloat.nan
  else if (a <? b)%float then b else a.

End JsNumber.

(* ================================================================== *)
(** * src/services/riskScorer.ts *)
(* ================================================================== *)

Module RiskScorer.
Import JsString JsNumber.

Definition signal (name : string) (weight : float) (score : Z) : RiskSignal.t :=
  {| RiskSignal.name := js name; RiskSignal.weight := weight; RiskSignal.score := score |}.

Definition scoreAccountAge (data : WalletData.t) : RiskSignal.t :=
  let weight := 0.1%float in
  let score :=
    match WalletData.accountAge data with
    | None => 70
    | Some accountAge =>
        let days := (accountAge / 86400)%float in
        if (days <? 7)%float then 90
        else if (days <? 30)%float then 60
        else if (days <? 180)%float then 30
        else 10
    end in
  signal "Account Age" weight score.

Definition scoreTransactionVolume (data : WalletData.t) : RiskSignal.t :=
  let weight := 0.15%float in
  let txCount := WalletData.transactionCount data in
  let score :=
    if txCount =? 0 then 50
    else if txCount <? 5 then 60
    else if txCount <? 20 then 30
    else if txCount >? 500 then 40
    else 10 in
  signal "Transaction Volume" weight score.

Definition scoreScamInteractions (data : WalletData.t) : RiskSignal.t :=
  let weight := 0.25%float in
  let flagCount := Z.of_nat (length (WalletData.scamFlags data)) in
  if flagCount =? 0 then signal "Scam Database" weight 0
  else signal "Scam Database" weight (Z.min 100 (flagCount * 40)).

(** [parseFloat(formatEther(BigInt(value))) > 1].  [formatEther] prints
    [value / 10^18] exactly and [parseFloat] rounds it to the nearest double
    (ties to even); the double above [1] is [1 + 2^-52], so the result
    exceeds [1] exactly when [value / 10^18 > 1 + 2^-53]. *)
Definition valueEthAboveOne (value : Z) : bool :=
  10 ^ 18 * (2 ^ 53 + 1) <? value * 2 ^ 53.

(** [.sort((a, b) => a - b)] *)
Fixpoint insertAscending (x : Z) (l : list Z) : list Z :=
  match l with
  | [] => [x]
  | y :: rest => if x <=? y then x :: l else y :: insertAscending x rest
  end.

Definition sortAscending (l : list Z) : list Z :=
  fold_right insertAscending [] l.

(** The [for (let i = 1; ...)] scan over neighbouring timestamps. *)
Fixpoint clusterAfter (previous : Z) (rest : list Z) : bool :=
  match rest with
  | [] => false
  | current :: rest' =>
      if current - previous <? 3600 then true else clusterAfter current rest'
  end.

Definition hasCluster (largeTimestamps : list Z) : bool :=
  match largeTimestamps with
  | [] => false
  | first :: rest => clusterAfter first rest
  end.

Definition largeOutgoing (data : WalletData.t) : list BasescanTransaction.t :=
  let outgoing :=
    List.filter
      (fun tx => strictEq (toLowerCase (BasescanTransaction.from tx))
                          (toLowerCase (WalletData.address data)))
      (WalletData.transactions data) in
  List.filter (fun tx => valueEthAboveOne (BasescanTransaction.value tx)) outgoing.

Definition scoreLargeTransfers (data : WalletData.t) : RiskSignal.t :=
  let weight := 0.15%float in
  let txs := WalletData.transactions data in
  if Z.of_nat (length txs) =? 0 then signal "Large Transfers" weight 20
  else
    let large := largeOutgoing data in
    let largeTimestamps :=
      sortAscending (List.map BasescanTransaction.timeStamp large) in
    let score :=
      if hasCluster largeTimestamps then 80
      else if Z.of_nat (length large) >? 5 then 50
      else if Z.of_nat (length large) >? 0 then 20
      else 5 in
    signal "Large Transfers" weight score.

(** The [approve(address,uint256)] selector and the 64 hex digits of the
    largest [uint256]. *)
Definition approveSelector : list Z := js "0x095ea7b3".
Definition maxUint256Hex : list Z := List.repeat 102 64.

Definition scoreContractApprovals (data : WalletData.t) : RiskSignal.t :=
  let weight := 0.15%float in
  let approveTxs :=
    List.filter
      (fun tx =>
         includes (toLowerCase (BasescanTransaction.functionName tx)) (js "approve")
         || startsWith (BasescanTransaction.input tx) approveSelector)
      (WalletData.transactions data) in
  let unlimitedApprovals :=
    List.filter
      (fun tx =>
         startsWith (BasescanTransaction.input tx) approveSelector
         && includes (BasescanTransaction.input tx) maxUint256Hex)
      (WalletData.transactions data) in
  let score :=
    if Z.of_nat (length unlimitedApprovals) >? 5 then 70
    else if Z.of_nat (length approveTxs) >? 10 then 50
    else if Z.of_nat (length approveTxs) >? 0 then 15
    else 5 in
  signal "Contract Approvals" weight score.

Definition scoreFundingSource (data : WalletData.t) : RiskSignal.t :=
  let weight := 0.1%float in
  let incoming :=
    List.filter
      (fun tx => strictEq (toLowerCase (BasescanTransaction.to tx))
                          (toLowerCase (WalletData.address data)))
      (WalletData.transactions data) in
  if Z.of_nat (length incoming) =? 0 then signal "Funding Source" weight 40
  else
    let flaggedFunders :=
      List.filter
        (fun tx =>
           existsb
             (fun f => includes (toLowerCase (ScamFlag.description f))
                                (toLowerCase (BasescanTransaction.from tx)))
             (WalletData.scamFlags data))
        incoming in
    if Z.of_nat (length flaggedFunders) >? 0 then signal "Funding Source" weight 90
    else signal "Funding Source" weight 10.

Definition scoreTokenDiversity (data : WalletData.t) : RiskSignal.t :=
  let weight := 0.1%float in
  let uniqueTokens : gset (list Z) :=
    list_to_set
      (List.map (fun t => toLowerCase (BasescanTokenTransfer.contractAddress t))
                (WalletData.tokenTransfers data)) in
  let tokenCount := Z.of_nat (size uniqueTokens) in
  let score :=
    if tokenCount >? 50 then 60
    else if tokenCount >? 20 then 30
    else if tokenCount >? 0 then 10
    else 15 in
  signal "Token Diversity" weight score.

Record Result := { score : Z; level : RiskLevel; signals : list RiskSignal.t }.

Definition collectSignals (data : WalletData.t) : list RiskSignal.t :=
  [ scoreAccountAge data; scoreTransactionVolume data; scoreScamInteractions data;
    scoreLargeTransfers data; scoreContractApprovals data;
    scoreFundingSource data; scoreTokenDiversity data ].

Definition scamBoost (flagCount : Z) : Z :=
  if flagCount >=? 3 then 20
  else if flagCount >=? 2 then 15
  else if flagCount >=? 1 then 10
  else 0.

(** [signals.reduce((sum, s) => sum + s.score * s.weight, 0) + scamBoost] *)
Definition weightedTotal (signals : list RiskSignal.t) (boost : Z) : float :=
  (fold_left
     (fun sum s => sum + ofZ (RiskSignal.score s) * RiskSignal.weight s)
     signals 0
   + ofZ boost)%float.

Definition classify (clampedScore : Z) : RiskLevel :=
  if clampedScore <=? 30 then LOW
  else if clampedScore <=? 60 then MEDIUM
  else HIGH.

(** The tail of [computeRiskScore], from the filled [signals] array on. *)
Definition conclude (signals : list RiskSignal.t) (boost : Z) : Result :=
  let score := Math_round (weightedTotal signals boost) in
  let clampedScore := Z.max 0 (Z.min 100 score) in
  {| score := clampedScore; level := classify clampedScore; signals := signals |}.

Definition computeRiskScore (data : WalletData.t) : Result :=
  conclude (collectSignals data)
           (scamBoost (Z.of_nat (length (WalletData.scamFlags data)))).

(** [signals.reduce((sum, s) => sum + s.weight, 0)], the sum the test suite
    compares with [1.0]. *)
Definition totalWeight (signals : list RiskSignal.t) : float :=
  fold_left (fun sum s => (sum + RiskSignal.weight s)%float) signals 0%float.

(** The clamping as the specification words it:
    [round(max(0, min(100, rawScore)))]. *)
Definition specClamp (rawScore : float) : Z :=
  Math_round (Math_max 0 (Math_min 100 rawScore)).

End RiskScorer.

(* ================================================================== *)
(** * src/config.ts *)
(* ================================================================== *)

Module Config.
Import JsString.

(** The fields of [config] the modelled code reads. *)
Record t := { cacheTtlSeconds : Z; maxReportLength : Z; disclaimer : list Z }.

(** U+26A0 U+FE0F, the text, an em dash (U+2014), " DYOR." *)
Definition config : t :=
  {| cacheTtlSeconds := 300;
     maxReportLength := 1024;
     disclaimer :=
       [9888; 65039]
       ++ js " Not financial advice. Onchain data is public but interpretations are probabilistic "
       ++ [8212] ++ js " DYOR." |}.

End Config.

(* ================================================================== *)
(** * src/utils/address.ts *)
(* ================================================================== *)

Module Address.
Import JsString.

Definition isHexDigit (c : Z) : bool :=
  ((48 <=? c) && (c <=? 57)) || ((97 <=? c) && (c <=? 102))
  || ((65 <=? c) && (c <=? 70)).

(** [text.match(/0x[a-fA-F0-9]{40}/)]: the leftmost match. *)
Fixpoint matchAddress (text : list Z) : option (list Z) :=
  match text with
  | [] => None
  | _ :: rest =>
      if startsWith text (js "0x")
         && forallb isHexDigit (take 40 (drop 2 text))
         && (length (take 40 (drop 2 text)) =? 40)%nat
      then Some (take 42 text)
      else matchAddress rest
  end.

(** [getAddress] is viem's checksum encoder (EIP-55, Keccak-256), a library
    function; [None] is its throw.  The pattern above already guarantees
    what [isAddress(raw, { strict: false })] checks. *)
Definition extractAddress (getAddress : list Z -> option (list Z))
    (text : list Z) : option (list Z) :=
  match matchAddress text with
  | None => None
  | Some raw => getAddress raw
  end.

(** [shortenAddress(address, chars = 4)] *)
Definition shortenAddress (address : list Z) (chars : Z) : list Z :=
  slice address 0 (chars + 2) ++ js "..." ++ sliceFrom address (- chars).

End Address.

(* ================================================================== *)
(** * src/services/reportGenerator.ts *)
(* ================================================================== *)

Module ReportGenerator.
Import JsString JsNumber TextEncoder Address.

Definition RISK_EMOJI (l : RiskLevel) : list Z :=
  match l with
  | LOW => [55357; 57314]
  | MEDIUM => [55357; 57313]
  | HIGH => [55357; 56628]
  end.

Definition riskLevelText (l : RiskLevel) : list Z :=
  match l with
  | LOW => js "LOW"
  | MEDIUM => js "MEDIUM"
  | HIGH => js "HIGH"
  end.

Section WithConfig.
Variable config : Config.t.

(** The [while] loop of [truncateToByteLimit].  Every turn drops ten code
    units (or all that is left), so [length text] turns empty the string;
    [None] stands for a loop that is still running on the empty string,
    where it can never stop. *)
Fixpoint trimLoop (fuel : nat) (availableBytes : Z) (truncated : list Z)
  : option (list Z) :=
  if byteLength truncated >? availableBytes then
    match fuel with
    | O => None
    | S fuel' => trimLoop fuel' availableBytes (slice truncated 0 (-10))
    end
  else Some truncated.

Definition truncateToByteLimit (text : list Z) (maxBytes : Z) : option (list Z) :=
  let disclaimer := [10; 10] ++ Config.disclaimer config in
  let disclaimerBytes := byteLength disclaimer in
  let availableBytes := maxBytes - disclaimerBytes - 3 in
  match trimLoop (length text) availableBytes text with
  | None => None
  | Some truncated =>
      let lastNewline := lastIndexOf truncated 10 in
      let truncated :=
        if (ofZ (Z.of_nat (length truncated)) * 0.7 <? ofZ lastNewline)%float
        then slice truncated 0 lastNewline
        else truncated in
      Some (truncated ++ js "..." ++ disclaimer)
  end.

Definition interactionLine (i : TopInteraction.t) : list Z :=
  let shown :=
    match TopInteraction.label i with
    | Some (c :: l) => c :: l
    | _ => shortenAddress (TopInteraction.address i) 4
    end in
  [8596] ++ js " " ++ shown ++ js " ("
  ++ numberToString (TopInteraction.txCount i) ++ js " txs)".

(** The cast as assembled before the byte check. *)
Definition assemble (report : WalletReport.t) : list Z :=
  let emoji := RISK_EMOJI (WalletReport.riskLevel report) in
  let addr := shortenAddress (WalletReport.address report) 4 in
  let cast :=
    [55357; 56589] ++ js " Tell-Tale Bot " ++ [8212] ++ js " Wallet Report"
    ++ [10; 10] in
  let cast := cast ++ [55357; 56525] ++ js " " ++ addr ++ js " | Base" ++ [10] in
  let cast :=
    cast ++ emoji ++ js " " ++ riskLevelText (WalletReport.riskLevel report)
    ++ js " RISK (" ++ numberToString (WalletReport.riskScore report)
    ++ js "/100)" ++ [10; 10] in
  let maxSummaryLen := 300 in
  let summary :=
    if Z.of_nat (length (WalletReport.summary report)) >? maxSummaryLen
    then slice (WalletReport.summary report) 0 (maxSummaryLen - 3) ++ js "..."
    else WalletReport.summary report in
  let cast := cast ++ summary ++ [10; 10] in
  let cast :=
    if Z.of_nat (length (WalletReport.keyFindings report)) >? 0
    then
      let findings :=
        join [10]
          (List.map (fun f => [8226] ++ js " " ++ f)
                    (slice (WalletReport.keyFindings report) 0 3)) in
      cast ++ findings ++ [10; 10]
    else cast in
  let cast :=
    if Z.of_nat (length (WalletReport.topInteractions report)) >? 0
    then
      let interactions :=
        join [10]
          (List.map interactionLine
                    (slice (WalletReport.topInteractions report) 0 2)) in
      cast ++ interactions ++ [10; 10]
    else cast in
  cast ++ WalletReport.disclaimer report.

Definition formatForCast (report : WalletReport.t) : option (list Z) :=
  let cast := assemble report in
  if byteLength cast >? Config.maxReportLength config
  then truncateToByteLimit cast (Config.maxReportLength config)
  else Some cast.

End WithConfig.
End ReportGenerator.

(* ================================================================== *)
(** * src/index.ts *)
(* ================================================================== *)

Module Index.

Definition reportCacheTtlMs : Z := Config.cacheTtlSeconds Config.config * 1000.

Section Pipeline.
(** The collaborators of [runAnalysis] that perform I/O: the aggregator and
    the report generator (which calls the language model).  [None] is a
    rejected promise. *)
Variable fetchWalletData : list Z -> option WalletData.t.
Variable generateReport :
  WalletData.t -> Z -> RiskLevel -> list RiskSignal.t -> option WalletReport.t.
Variable getAddress : list Z -> option (list Z).

Definition runAnalysis (now : Z) (address : list Z)
    (reportCache : gmap (list Z) (TtlCache.CacheEntry WalletReport.t))
  : option WalletReport.t * gmap (list Z) (TtlCache.CacheEntry WalletReport.t) :=
  match fetchWalletData address with
  | None => (None, reportCache)
  | Some walletData =>
      let r := RiskScorer.computeRiskScore walletData in
      match generateReport walletData (RiskScorer.score r) (RiskScorer.level r)
                           (RiskScorer.signals r) with
      | None => (None, reportCache)
      | Some report =>
          (Some report, TtlCache.set reportCacheTtlMs now address report reportCache)
      end
  end.

(** The [GET /analyze/:address] handler. *)
Inductive Response :=
| InvalidAddress
| FromCache (report : WalletReport.t)
| Analyzed (report : WalletReport.t)
| AnalysisFailed.

Definition analyzeEndpoint (now : Z) (param : list Z)
    (reportCache : gmap (list Z) (TtlCache.CacheEntry WalletReport.t))
  : Response * gmap (list Z) (TtlCache.CacheEntry WalletReport.t) :=
  match Address.extractAddress getAddress param with
  | None => (InvalidAddress, reportCache)
  | Some address =>
      match TtlCache.get now address reportCache with
      | (Some cached, cache1) => (FromCache cached, cache1)
      | (None, cache1) =>
          match runAnalysis now address cache1 with
          | (Some report, cache2) => (Analyzed report, cache2)
          | (None, cache2) => (AnalysisFailed, cache2)
          end
      end
  end.

End Pipeline.
End Index.

(* ================================================================== *)
(** * The finitely many score combinations *)
(* ================================================================== *)

(** Each of the seven scoring functions picks its score from a short fixed
    list; the Scam Database score and the corroboration boost are both
    decided by the number of flags.  [outcomes] lists every combination, as
    the [signals] array and the boost [computeRiskScore] would hold. *)
Module ScoreTable.
Import RiskScorer.

Definition ageScores : list Z := [70; 90; 60; 30; 10].
(** The scores of an account whose age is known and not below 7 days. *)
Definition settledAgeScores : list Z := [60; 30; 10].
Definition volumeScores : list Z := [50; 60; 30; 40; 10].
Definition transferScores : list Z := [20; 80; 50; 5].
Definition approvalScores : list Z := [70; 50; 15; 5].
Definition fundingScores : list Z := [40; 90; 10].
Definition tokenScores : list Z := [60; 30; 10; 15].

(** (Scam Database score, boost) for 0, 1, 2 and 3 or more flags. *)
Definition noFlag : Z * Z := (0, 0).
Definition oneFlag : Z * Z := (40, 10).
Definition twoFlags : Z * Z := (80, 15).
Definition manyFlags : Z * Z := (100, 20).
Definition scamCases : list (Z * Z) := [noFlag; oneFlag; twoFlags; manyFlags].

Definition assembled (a v s t p f k : Z) : list RiskSignal.t :=
  [ signal "Account Age" 0.1 a; signal "Transaction Volume" 0.15 v;
    signal "Scam Database" 0.25 s; signal "Large Transfers" 0.15 t;
    signal "Contract Approvals" 0.15 p; signal "Funding Source" 0.1 f;
    signal "Token Diversity" 0.1 k ].

Definition outcomes (ages : list Z) (scams : list (Z * Z))
  : list (list RiskSignal.t * Z) :=
  flat_map (fun a =>
  flat_map (fun v =>
  flat_map (fun sc =>
  flat_map (fun t =>
  flat_map (fun p =>
  flat_map (fun f =>
  List.map (fun k => (assembled a v (fst sc) t p f k, snd sc)) tokenScores)
    fundingScores) approvalScores) transferScores) scams) volumeScores) ages.

Definition scoreOf (c : list RiskSignal.t * Z) : Z := score (conclude (fst c) (snd c)).

Definition signalNames : list (list Z) :=
  List.map JsString.js
    [ "Account Age"; "Transaction Volume"; "Scam Database"; "Large Transfers";
      "Contract Approvals"; "Funding Source"; "Token Diversity" ]%string.

(** The checks run over the table. *)
Definition wellFormed (c : list RiskSignal.t * Z) : bool :=
  (length (fst c) =? 7)%nat
  && bool_decide (List.map RiskSignal.name (fst c) = signalNames)
  && (PrimFloat.abs (totalWeight (fst c) - 1) <? 1e-9)%float
  && JsNumber.isFinite (weightedTotal (fst c) (snd c))
  && (0 <=? scoreOf c) && (scoreOf c <=? 100)
  && (scoreOf c =? specClamp (weightedTotal (fst c) (snd c))).

Definition scoreBetween (lo hi : Z) (c : list RiskSignal.t * Z) : bool :=
  (lo <=? scoreOf c) && (scoreOf c <=? hi).

End ScoreTable.

(* ================================================================== *)
(** * Sample inputs *)
(* ================================================================== *)

(** The fixtures of the repository's test suite, and a few inputs of the
    same shape, on which the statements below are evaluated. *)
Module Samples.
Import JsString.

Definition flag (source category description : list Z) : ScamFlag.t :=
  {| ScamFlag.source := source; ScamFlag.category := category;
     ScamFlag.description := description; ScamFlag.reportedAt := None |}.

Definition walletAddress : list Z := js "0x742d35Cc6634C0532925a3b844Bc9e7595f8b3a1".

(** [makeWalletData(overrides)] of the scorer's tests. *)
Definition makeWalletData (transactionCount : Z) (accountAge : option float)
    (scamFlags : list ScamFlag.t) (transactions : list BasescanTransaction.t)
    (tokenTransfers : list BasescanTokenTransfer.t) : WalletData.t :=
  {| WalletData.address := walletAddress;
     WalletData.balance := 1000000000000000000;
     WalletData.transactionCount := transactionCount;
     WalletData.transactions := transactions;
     WalletData.tokenTransfers := tokenTransfers;
     WalletData.internalTransactions := [];
     WalletData.accountAge := accountAge;
     WalletData.firstTxTimestamp := None;
     WalletData.isContract := false;
     WalletData.scamFlags := scamFlags |}.

(** [makeTx(overrides)] of the scorer's tests. *)
Definition makeTx (timeStamp : Z) (from to : list Z) (value : Z) (input : list Z)
  : BasescanTransaction.t :=
  {| BasescanTransaction.blockNumber := 1000000;
     BasescanTransaction.timeStamp := timeStamp;
     BasescanTransaction.hash := js "0x" ++ List.repeat 97 64;
     BasescanTransaction.from := from;
     BasescanTransaction.to := to;
     BasescanTransaction.value := value;
     BasescanTransaction.gas := 21000;
     BasescanTransaction.gasUsed := 21000;
     BasescanTransaction.isError := js "0";
     BasescanTransaction.functionName := [];
     BasescanTransaction.contractAddress := [];
     BasescanTransaction.input := input |}.

Definition usdcTransfer : BasescanTokenTransfer.t :=
  {| BasescanTokenTransfer.blockNumber := 1000000;
     BasescanTokenTransfer.timeStamp := 1700000000;
     BasescanTokenTransfer.hash := js "0x" ++ List.repeat 99 64;
     BasescanTokenTransfer.from := js "0x" ++ List.repeat 97 40;
     BasescanTokenTransfer.to := js "0x" ++ List.repeat 98 40;
     BasescanTokenTransfer.value := 1000000;
     BasescanTokenTransfer.tokenName := js "USDC";
     BasescanTokenTransfer.tokenSymbol := js "USDC";
     BasescanTokenTransfer.tokenDecimal := 6;
     BasescanTokenTransfer.contractAddress :=
       js "0x833589fcd6edb6e08f4c7c32d4f71b54bda02913" |}.

Definition threeFlags : list ScamFlag.t :=
  [ flag (js "local") (js "drainer") (js "Known drainer");
    flag (js "ChainAbuse") (js "scam") (js "Reported scam");
    flag (js "local") (js "phishing") (js "Phishing address") ].

Definition mixerFlag : ScamFlag.t :=
  flag (js "local") (js "mixer") (js "Mixer interaction").

(** 'returns HIGH risk for a flagged wallet': 2 days old, 2 transactions. *)
Definition flaggedNewWallet : WalletData.t :=
  makeWalletData 2 (Some (2 * 86400)%float) threeFlags [] [].

(** The default test wallet (180 days, 50 transactions) with the same three
    flags. *)
Definition flaggedOldWallet : WalletData.t :=
  makeWalletData 50 (Some (180 * 86400)%float) threeFlags [] [].

(** 'returns MEDIUM risk for a suspicious wallet': 15 days, 3 transactions. *)
Definition mixerTestWallet : WalletData.t :=
  makeWalletData 3 (Some (15 * 86400)%float) [mixerFlag] [] [].

(** A 200-day-old wallet with one mixer flag, 50 transactions, one small
    incoming payment on record and one USDC transfer. *)
Definition quietMixerWallet : WalletData.t :=
  makeWalletData 50 (Some (200 * 86400)%float) [mixerFlag]
    [ makeTx 1700000000 (js "0x" ++ List.repeat 98 40) (toLowerCase walletAddress)
             100000000000000000 (js "0x") ]
    [ usdcTransfer ].

(** A 15-day-old wallet funded from the Tornado Cash router (hence the one
    mixer flag the aggregator synthesises) that sent six 5 ETH unlimited
    approvals within ten minutes. *)
Definition tornadoRouter : list Z := js "0xd90e2f925da726b50c4ed8d0fb90ad053324f31b".

Definition tornadoFlag : ScamFlag.t :=
  flag (js "local") (js "mixer")
       (js "Interacted with flagged address " ++ tornadoRouter
        ++ js ": Tornado Cash Router (Ethereum)").

Definition unlimitedApproval (i : Z) : BasescanTransaction.t :=
  makeTx (1700000000 + 100 * i) (toLowerCase walletAddress)
         (js "0x833589fcd6edb6e08f4c7c32d4f71b54bda02913") 5000000000000000000
         (js "0x095ea7b3" ++ List.repeat 48 24 ++ List.repeat 102 64).

Definition busyMixerWallet : WalletData.t :=
  makeWalletData 7 (Some (15 * 86400)%float) [tornadoFlag]
    (makeTx 1699990000 tornadoRouter (toLowerCase walletAddress)
            40000000000000000000 (js "0x")
     :: List.map unlimitedApproval [0; 1; 2; 3; 4; 5])
    [].

(** The report of the formatter's tests, with the given summary and
    findings. *)
Definition makeReport (summary : list Z) (keyFindings : list (list Z))
  : WalletReport.t :=
  {| WalletReport.address := walletAddress;
     WalletReport.riskLevel := LOW;
     WalletReport.riskScore := 15;
     WalletReport.confidence := 85;
     WalletReport.signals := [];
     WalletReport.summary := summary;
     WalletReport.keyFindings := keyFindings;
     WalletReport.topInteractions :=
       [ {| TopInteraction.address := js "0x" ++ List.repeat 97 40;
            TopInteraction.label := Some (js "Uniswap V3");
            TopInteraction.txCount := 89 |};
         {| TopInteraction.address := js "0x" ++ List.repeat 98 40;
            TopInteraction.label := None;
            TopInteraction.txCount := 34 |} ];
     WalletReport.recommendations := [js "No significant red flags detected."];
     WalletReport.disclaimer := Config.disclaimer Config.config;
     WalletReport.analyzedAt := js "2025-01-01T00:00:00.000Z";
     WalletReport.responseTimeMs := 2500 |}.

Definition shortReport : WalletReport.t :=
  makeReport (js "This wallet appears low-risk with normal DeFi activity patterns.")
             [js "Account age: 245 days"; js "Total transactions: 347";
              js "No flagged addresses"].

(** A 500-character summary and three findings of 400 magnifying glasses
    (800 code units, 1600 bytes) each: far beyond the ceiling. *)
Definition longReport : WalletReport.t :=
  makeReport (List.repeat 88 500)
             (List.repeat (List.concat (List.repeat [55357; 56589] 400)) 3).

(** The checksummed form [extractAddress] returns for the test address
    (tests/address.test.ts). *)
Definition checksummedAddress : list Z := js "0x742D35Cc6634C0532925A3b844Bc9E7595F8B3A1".

(** A pipeline that always succeeds: the aggregator finds the default test
    wallet under the queried address, the generator fills the template. *)
Definition sampleFetch (address : list Z) : option WalletData.t :=
  Some {| WalletData.address := address;
          WalletData.balance := 1000000000000000000;
          WalletData.transactionCount := 50;
          WalletData.transactions := [];
          WalletData.tokenTransfers := [];
          WalletData.internalTransactions := [];
          WalletData.accountAge := Some (180 * 86400)%float;
          WalletData.firstTxTimestamp := None;
          WalletData.isContract := false;
          WalletData.scamFlags := [] |}.

Definition sampleGenerate (data : WalletData.t) (riskScore : Z)
    (riskLevel : RiskLevel) (signals : list RiskSignal.t) : option WalletReport.t :=
  Some {| WalletReport.address := WalletData.address data;
          WalletReport.riskLevel := riskLevel;
          WalletReport.riskScore := riskScore;
          WalletReport.confidence := 95;
          WalletReport.signals := signals;
          WalletReport.summary := js "This wallet appears low-risk.";
          WalletReport.keyFindings := [js "Total transactions: 50"];
          WalletReport.topInteractions := [];
          WalletReport.recommendations := [js "No significant red flags detected."];
          WalletReport.disclaimer := Config.disclaimer Config.config;
          WalletReport.analyzedAt := js "2025-01-01T00:00:00.000Z";
          WalletReport.responseTimeMs := 1234 |}.

(** The RPC endpoints of [config.rpcProviders] when no Alchemy key is set. *)
Definition sampleProviders : list RpcFallback.RpcProviderConfig :=
  [ {| RpcFallback.name := js "Base Public";
       RpcFallback.url := js "https://mainnet.base.org"; RpcFallback.priority := 1 |};
    {| RpcFallback.name := js "Ankr";
       RpcFallback.url := js "https://rpc.ankr.com/base"; RpcFallback.priority := 3 |};
    {| RpcFallback.name := js "1RPC";
       RpcFallback.url := js "https://1rpc.io/base"; RpcFallback.priority := 4 |} ].

Definition initialRpcState : RpcFallback.State :=
  {| RpcFallback.activeClient := None; RpcFallback.activeProviderIndex := 0 |}.

(** No call made yet. *)
Definition atStartup {T : Type} : RpcFallback.System T :=
  {| RpcFallback.shared := initialRpcState; RpcFallback.calls := [] |}.

(** The clients of the three providers. *)
Definition basePublic : RpcFallback.BasePublicClient :=
  RpcFallback.createBaseClient (js "https://mainnet.base.org").
Definition ankr : RpcFallback.BasePublicClient :=
  RpcFallback.createBaseClient (js "https://rpc.ankr.com/base").
Definition oneRpc : RpcFallback.BasePublicClient :=
  RpcFallback.createBaseClient (js "https://1rpc.io/base").

(** One call on its own: Base Public rejects, Ankr answers 2.5 ETH. *)
Definition ankrAnswers : list (RpcFallback.Event Z) :=
  [ RpcFallback.Enter;
    RpcFallback.Settle 0 None;
    RpcFallback.Settle 0 (Some 2500000000000000000) ].

(** Two calls in flight at once while Base Public and Ankr are down and 1RPC
    answers.  Both are handed the Base Public client; its two rejections
    rotate the shared index twice, so the first call goes on with Ankr and
    the second with 1RPC; the rejection by Ankr rotates the index back to
    Base Public, which the first call then tries again. *)
Definition overlappingCalls : list (RpcFallback.Event Z) :=
  [ RpcFallback.Enter;
    RpcFallback.Enter;
    RpcFallback.Settle 0 None;
    RpcFallback.Settle 1 None;
    RpcFallback.Settle 0 None;
    RpcFallback.Settle 1 (Some 2500000000000000000);
    RpcFallback.Settle 0 None ].

(** The early seed list, which still carried the Uniswap UniversalRouter
    under the name of a drainer, next to a Tornado Cash pool. *)
Definition earlySeeds : list ScamDb.ScamSeedEntry :=
  [ {| ScamDb.address := js "0x3fc91a3afd70395cd496c647d5a6cc9d4b2b7fad";
       ScamDb.category := js "drainer";
       ScamDb.description := js "Pink Drainer associated address" |};
    {| ScamDb.address := js "0x47ce0c6ed5b0ce3d3a51fdb1c52dc66a7c3c2936";
       ScamDb.category := js "mixer";
       ScamDb.description := js "Tornado Cash 1 ETH pool." |} ].

Definition universalRouterUpper : list Z := js "0x3FC91A3AFD70395CD496C647D5A6CC9D4B2B7FAD".
Definition tornadoPool : list Z := js "0x47ce0c6ed5b0ce3d3a51fdb1c52dc66a7c3c2936".
Definition cleanAddress : list Z := js "0x1234567890123456789012345678901234567890".

End Samples.

(* ================================================================== *)
(** * src/utils/rateLimit.ts, continued: the call limiter *)
(* ================================================================== *)

(** [class RateLimiter]: [timestamps] is the state.  [waitForSlot] loops
    over [turn]s, sleeping between them; the times at which the turns run
    are the readings of [Date.now()]. *)
Module RateLimiter.

(** What a turn of the [while (true)] loop ends with: the slot is taken, or
    the caller sleeps [waitTime] milliseconds.  [waitTime] is [None] when
    [timestamps[0]] is [undefined] and the arithmetic yields [NaN]. *)
Inductive Turn := Granted | Blocked (waitTime : option Z).

Section Limiter.
Variables maxCalls windowMs : Z.

Definition turn (now : Z) (timestamps : list Z) : Turn * list Z :=
  let timestamps := List.filter (fun t => now - t <? windowMs) timestamps in
  if Z.of_nat (length timestamps) <? maxCalls
  then (Granted, timestamps ++ [now])
  else
    let waitTime :=
      match timestamps with
      | oldestInWindow :: _ => Some (windowMs - (now - oldestInWindow) + 10)
      | [] => None
      end in
    (Blocked waitTime, timestamps).

(** Successive turns, whoever the callers are, at the given times: the
    times at which a slot was granted, and the final state. *)
Fixpoint grants (clock : list Z) (timestamps : list Z) : list Z * list Z :=
  match clock with
  | [] => ([], timestamps)
  | now :: later =>
      let r := turn now timestamps in
      let rs := grants later (snd r) in
      (match fst r with Granted => now :: fst rs | Blocked _ => fst rs end, snd rs)
  end.

(** [waitForSlot()] of one caller.  The limiter is one object shared by all
    callers, and while this caller sleeps the others take turns of their
    own on it.  [schedule] lists the caller's turns: the clock readings of
    the turns other callers took since its previous turn (or since it
    called), then the reading of its own turn.  The result is the time at
    which the slot was granted, or [None] when the schedule ends with the
    caller still blocked. *)
Fixpoint waitForSlot (schedule : list (list Z * Z)) (timestamps : list Z)
  : option Z * list Z :=
  match schedule with
  | [] => (None, timestamps)
  | (others, now) :: later =>
      match turn now (snd (grants others timestamps)) with
      | (Granted, timestamps') => (Some now, timestamps')
      | (Blocked _, timestamps') => waitForSlot later timestamps'
      end
  end.

End Limiter.
End RateLimiter.

(** The calls [checkAll] allowed, by their times. *)
Module UserRateLimiterTrace.

Section Trace.
Variables maxQueries windowMs : Z.

Fixpoint allowedTimes (times : list Z) (fid : Z) (queries : gmap Z (list Z))
  : list Z :=
  match times with
  | [] => []
  | now :: rest =>
      let r := UserRateLimiter.checkAndRecord maxQueries windowMs now fid queries in
      (if fst r then [now] else []) ++ allowedTimes rest fid (snd r)
  end.

End Trace.

(** A clock that never runs backwards. *)
Fixpoint nondecreasing (times : list Z) : Prop :=
  match times with
  | [] => True
  | t :: rest => Forall (fun t' => t <= t') rest /\ nondecreasing rest
  end.

(** How many of [times] fall in the window that ends at [now]. *)
Definition inWindow (windowMs now : Z) (times : list Z) : Z :=
  Z.of_nat (length (List.filter (fun t => now - t <? windowMs) times)).

End UserRateLimiterTrace.

(* ================================================================== *)
(** * src/services/rpcFallback.ts, continued: the wrapped calls *)
(* ================================================================== *)

Module RpcCalls.
Import JsString RpcFallback.

(** What the promise of a client method resolves to: [getBalance] to a
    bigint, [getTransactionCount] to a number, [getCode] to a hex string or
    to [undefined]. *)
Inductive RpcValue :=
| Wei (balance : Z)
| Count (n : Z)
| Code (code : option (list Z)).

Section Calls.
Variable rpcProviders : list RpcProviderConfig.

(** Each wrapper is one call of [withFallback]: the call starts at once and
    runs up to its first [await].  The number of the new call is returned
    with the system; the wrapper resolves to what that call returns and
    rejects with what it throws.  Which client method the call uses shows
    in what its attempts resolve to. *)
Definition getBalanceViaRpc (sys : System RpcValue) : nat * System RpcValue :=
  (length (calls sys), step rpcProviders sys Enter).

Definition getTxCountViaRpc (sys : System RpcValue) : nat * System RpcValue :=
  (length (calls sys), step rpcProviders sys Enter).

Definition isContractViaRpc (sys : System RpcValue) : nat * System RpcValue :=
  (length (calls sys), step rpcProviders sys Enter).

(** [code !== undefined && code !== '0x'], on what the call of
    [isContractViaRpc] returned. *)
Definition isContractOf (code : RpcValue) : bool :=
  match code with
  | Code None => false
  | Code (Some c) => negb (strictEq c (js "0x"))
  | Wei _ | Count _ => true
  end.

End Calls.
End RpcCalls.

(* ================================================================== *)
(** * src/services/dataFetcher.ts *)
(* ================================================================== *)

Module DataFetcher.
Import JsString RpcFallback RpcCalls.

(** An [async] fetch after the explorer has answered: resolved at once, or
    waiting for the [withFallback] call it started. *)
Inductive Fetch (A : Type) :=
| Resolved (value : A)
| ViaRpc (call : nat).
Arguments Resolved {A} value.
Arguments ViaRpc {A} call.

Section Fallbacks.
Variable rpcProviders : list RpcProviderConfig.

(** [basescanBalance] is what [basescan.getBalance] resolved to, [0] when
    the explorer failed. *)
Definition fetchBalanceWithFallback (basescanBalance : Z) (sys : System RpcValue)
  : Fetch RpcValue * System RpcValue :=
  if basescanBalance =? 0 then
    let (call, sys') := getBalanceViaRpc rpcProviders sys in (ViaRpc call, sys')
  else (Resolved (Wei basescanBalance), sys).

(** What [fetchBalanceWithFallback] resolves to, [None] while the call it
    waits for is in flight: the value the call returns, or [basescanBalance]
    from the [catch] block when the call throws. *)
Definition balanceResolved (basescanBalance : Z) (fetch : Fetch RpcValue)
    (sys : System RpcValue) : option RpcValue :=
  match fetch with
  | Resolved value => Some value
  | ViaRpc call =>
      match progress <$> calls sys !! call with
      | Some (Finished (inr value)) => Some value
      | Some (Finished (inl _)) => Some (Wei basescanBalance)
      | Some (Awaiting _ _) | None => None
      end
  end.

Definition fetchIsContractWithFallback (basescanResult : bool) (sys : System RpcValue)
  : Fetch bool * System RpcValue :=
  if negb basescanResult then
    let (call, sys') := isContractViaRpc rpcProviders sys in (ViaRpc call, sys')
  else (Resolved basescanResult, sys).

Definition isContractResolved (basescanResult : bool) (fetch : Fetch bool)
    (sys : System RpcValue) : option bool :=
  match fetch with
  | Resolved value => Some value
  | ViaRpc call =>
      match progress <$> calls sys !! call with
      | Some (Finished (inr code)) => Some (isContractOf code)
      | Some (Finished (inl _)) => Some basescanResult
      | Some (Awaiting _ _) | None => None
      end
  end.

End Fallbacks.

(** The seven results of [Promise.allSettled]: [None] is a rejected
    promise.  The first transaction resolves to a transaction or to
    [null]. *)
Record Settled := {
  transactions : option (list BasescanTransaction.t);
  internalTransactions : option (list BasescanTransaction.t);
  tokenTransfers : option (list BasescanTokenTransfer.t);
  balance : option Z;
  contractCheck : option bool;
  scamFlags : option (list ScamFlag.t);
  firstTx : option (option BasescanTransaction.t)
}.

(** [[...new Set(l)]]: the distinct elements, in order of first
    appearance. *)
Fixpoint distinctFrom (seen l : list (list Z)) : list (list Z) :=
  match l with
  | [] => []
  | x :: rest =>
      if bool_decide (x ∈ seen) then distinctFrom seen rest
      else x :: distinctFrom (x :: seen) rest
  end.

Definition distinct (l : list (list Z)) : list (list Z) := distinctFrom [] l.

(** [.filter(Boolean)] on strings drops the empty ones. *)
Definition nonEmpty (s : list Z) : bool :=
  match s with
  | [] => false
  | _ :: _ => true
  end.

Definition counterparties (txs : list BasescanTransaction.t)
    (tokenTxs : list BasescanTokenTransfer.t) : list (list Z) :=
  List.map BasescanTransaction.to txs ++ List.map BasescanTransaction.from txs
  ++ List.map BasescanTokenTransfer.to tokenTxs
  ++ List.map BasescanTokenTransfer.from tokenTxs.

Definition interactedAddresses (txs : list BasescanTransaction.t)
    (tokenTxs : list BasescanTokenTransfer.t) : list (list Z) :=
  distinct (List.filter nonEmpty (counterparties txs tokenTxs)).

Definition interactionFlag (addr : list Z) (flag : ScamFlag.t) : ScamFlag.t :=
  {| ScamFlag.source := ScamFlag.source flag;
     ScamFlag.category := ScamFlag.category flag;
     ScamFlag.description :=
       js "Interacted with flagged address " ++ addr ++ js ": "
       ++ ScamFlag.description flag;
     ScamFlag.reportedAt := ScamFlag.reportedAt flag |}.

(** The [for (const [addr, flag] of interactionFlags)] loop.  A [Map] is
    iterated in insertion order; [batchCheckLocal] inserts in the order of
    its input, which here has no duplicates, so the loop visits the matched
    addresses in the order of [interactedAddresses]. *)
Definition interactionFlags (localScamDb : gmap (list Z) ScamDb.LocalMatch)
    (addresses : list (list Z)) : list ScamFlag.t :=
  flat_map
    (fun addr =>
       match ScamDb.batchCheckLocal localScamDb addresses !! addr with
       | Some flag => [interactionFlag addr flag]
       | None => []
       end)
    addresses.

(** [Math.min(...l)] of a non-empty array. *)
Definition minimum (l : list Z) : option Z :=
  match l with
  | [] => None
  | x :: rest => Some (fold_right Z.min x rest)
  end.

Definition positiveTimestamps (txs internalTxs : list BasescanTransaction.t)
  : list Z :=
  List.filter (fun t => t >? 0)
    (List.map BasescanTransaction.timeStamp txs
     ++ List.map BasescanTransaction.timeStamp internalTxs).

Definition firstTxTimestampOf (firstTransaction : option BasescanTransaction.t)
    (txs internalTxs : list BasescanTransaction.t) : option Z :=
  let dedicated :=
    match firstTransaction with
    | Some tx =>
        if BasescanTransaction.timeStamp tx >? 0
        then Some (BasescanTransaction.timeStamp tx) else None
    | None => None
    end in
  match dedicated with
  | Some ts => Some ts
  | None => minimum (positiveTimestamps txs internalTxs)
  end.

(** [firstTxTimestamp ? Math.floor(Date.now() / 1000) - firstTxTimestamp : null] *)
Definition accountAgeOf (nowMs : Z) (firstTxTimestamp : option Z) : option float :=
  match firstTxTimestamp with
  | Some ts => if ts =? 0 then None else Some (JsNumber.ofZ (nowMs / 1000 - ts))
  | None => None
  end.

(** [fetchWalletData], from the settled results on. *)
Definition fetchWalletData (nowMs : Z) (address : list Z)
    (localScamDb : gmap (list Z) ScamDb.LocalMatch) (settled : Settled)
  : WalletData.t :=
  let txs := default [] (transactions settled) in
  let internalTxs := default [] (internalTransactions settled) in
  let tokenTxs := default [] (tokenTransfers settled) in
  let bal := default 0 (balance settled) in
  let isContractAddr := default false (contractCheck settled) in
  let flags := default [] (scamFlags settled) in
  let firstTransaction := default None (firstTx settled) in
  let flags := flags ++ interactionFlags localScamDb (interactedAddresses txs tokenTxs) in
  let firstTxTimestamp := firstTxTimestampOf firstTransaction txs internalTxs in
  {| WalletData.address := address;
     WalletData.balance := bal;
     WalletData.transactionCount := Z.of_nat (length txs);
     WalletData.transactions := txs;
     WalletData.tokenTransfers := tokenTxs;
     WalletData.internalTransactions := internalTxs;
     WalletData.accountAge := accountAgeOf nowMs firstTxTimestamp;
     WalletData.firstTxTimestamp := firstTxTimestamp;
     WalletData.isContract := isContractAddr;
     WalletData.scamFlags := flags |}.

(** Every source down. *)
Definition allRejected : Settled :=
  {| transactions := None; internalTransactions := None; tokenTransfers := None;
     balance := None; contractCheck := None; scamFlags := None; firstTx := None |}.

End DataFetcher.

Module FetchSamples.
Import JsString RpcFallback RpcCalls DataFetcher Samples.

(** The start of [fetchWalletData] for an externally owned account with the
    explorer down: [basescan.getBalance] resolves to [0] and
    [basescan.isContract] to [false], so both fetches start an RPC call. *)
Definition bothFetches : (Fetch RpcValue * Fetch bool) * System RpcValue :=
  let (balance, sys1) := fetchBalanceWithFallback sampleProviders 0 atStartup in
  let (isContract, sys2) := fetchIsContractWithFallback sampleProviders false sys1 in
  ((balance, isContract), sys2).

(** Base Public and Ankr are down, 1RPC is up and answers [getCode] with
    [undefined]: the two calls settle in turn. *)
Definition twoProvidersDown : list (Event RpcValue) :=
  [ Settle 0 None;
    Settle 1 None;
    Settle 0 None;
    Settle 1 (Some (Code None));
    Settle 0 None ].

(** The balance call on its own, with the same providers down: 1RPC answers
    2.5 ETH. *)
Definition balanceAlone : list (Event RpcValue) :=
  [ Settle 0 None;
    Settle 0 None;
    Settle 0 (Some (Wei 2500000000000000000)) ].

End FetchSamples.

(* ================================================================== *)
(** * src/services/scamDb.ts, continued *)
(* ================================================================== *)

Module ScamDbRemote.
Import JsString ScamDb.

(** A report of the remote registry, as far as [checkChainAbuse] reads it;
    a missing field is [None]. *)
Record Report := {
  reportCategory : option (list Z);
  reportDescription : option (list Z);
  createdAt : option (list Z)
}.

(** [x || fallback] on an optional string: the empty string is falsy. *)
Definition orElse (x : option (list Z)) (fallback : list Z) : list Z :=
  match x with
  | Some (c :: s) => c :: s
  | _ => fallback
  end.

(** [checkChainAbuse]: [remote] is the array [response.data.reports], or
    [None] when the request failed or the payload had no such array. *)
Definition checkChainAbuse (remote : option (list Report)) : list ScamFlag.t :=
  match remote with
  | Some reports =>
      List.map
        (fun report =>
           {| ScamFlag.source := js "ChainAbuse";
              ScamFlag.category := orElse (reportCategory report) (js "scam");
              ScamFlag.description :=
                orElse (reportDescription report) (js "Reported on ChainAbuse");
              ScamFlag.reportedAt := createdAt report |})
        reports
  | None => []
  end.

Definition checkAddress (localScamDb : gmap (list Z) LocalMatch)
    (address : list Z) (remote : option (list Report)) : list ScamFlag.t :=
  let normalizedAddress := toLowerCase address in
  let flags :=
    match localScamDb !! normalizedAddress with
    | Some localMatch => [localFlag localMatch]
    | None => []
    end in
  flags ++ checkChainAbuse remote.

Definition getLocalDbSize (localScamDb : gmap (list Z) LocalMatch) : Z :=
  Z.of_nat (size localScamDb).

End ScamDbRemote.

(* ================================================================== *)
(** * src/data/knownContracts.ts, continued *)
(* ================================================================== *)

Module ContractLabels.
Import JsString KnownContracts.

(** [new Map(pairs)] writes the pairs in order: a later pair replaces an
    earlier one with the same key. *)
Definition mapOfPairs (pairs : list (list Z * list Z)) : gmap (list Z) (list Z) :=
  foldl (fun m kv => <[ fst kv := snd kv ]> m) ∅ pairs.

Definition contractLabels : gmap (list Z) (list Z) :=
  mapOfPairs (List.map (fun c => (toLowerCase (address c), label c)) knownContracts).

Definition getContractLabel (a : list Z) : option (list Z) :=
  contractLabels !! toLowerCase a.

End ContractLabels.

(* ================================================================== *)
(** * src/utils/address.ts, continued *)
(* ================================================================== *)

Module AddressShape.
Import JsString Address.

(** What the pattern [/0x[a-fA-F0-9]{40}/] matches in full. *)
Definition addressShape (raw : list Z) : bool :=
  (length raw =? 42)%nat && startsWith raw (js "0x")
  && forallb isHexDigit (drop 2 raw).

(** The test the scan of [matchAddress] makes at one position. *)
Definition matchesHere (text : list Z) : bool :=
  startsWith text (js "0x")
  && forallb isHexDigit (take 40 (drop 2 text))
  && (length (take 40 (drop 2 text)) =? 40)%nat.

Definition containsAddress (getAddress : list Z -> option (list Z))
    (text : list Z) : bool :=
  match extractAddress getAddress text with
  | Some _ => true
  | None => false
  end.

End AddressShape.

(* ================================================================== *)
(** * The score table, by number of flags *)
(* ================================================================== *)

Module ScoreOrder.
Import RiskScorer ScoreTable.

(** The score of the sixth signal, Funding Source. *)
Definition fundingOf (c : list RiskSignal.t * Z) : Z :=
  match nth_error (fst c) 5 with
  | Some s => RiskSignal.score s
  | None => 0
  end.

(** A row whose Funding Source score is not the one reserved for flagged
    funders stays within the bounds. *)
Definition unflaggedBetween (lo hi : Z) (c : list RiskSignal.t * Z) : bool :=
  (fundingOf c =? 90) || scoreBetween lo hi c.

(** (Scam Database score, boost) by the number of flags. *)
Definition scamCaseOf (n : nat) : Z * Z :=
  match n with
  | 0%nat => noFlag
  | 1%nat => oneFlag
  | 2%nat => twoFlags
  | _ => manyFlags
  end.

(** The final score of the row with [n] flags and Funding Source score [f]. *)
Definition rowScore (a v t p k : Z) (n : nat) (f : Z) : Z :=
  scoreOf (assembled a v (fst (scamCaseOf n)) t p f k, snd (scamCaseOf n)).

(** The score does not fall from one flag count to the next, nor when the
    Funding Source score passes from 10 to 90. *)
Definition risesWithFlags (g : nat -> Z -> Z) : bool :=
  let row f := (g 0%nat f, g 1%nat f, g 2%nat f, g 3%nat f) in
  let sorted (r : Z * Z * Z * Z) :=
    let '(a, b, c, d) := r in (a <=? b) && (b <=? c) && (c <=? d) in
  let below (r r' : Z * Z * Z * Z) :=
    let '(a, b, c, d) := r in
    let '(a', b', c', d') := r' in
    (a <=? a') && (b <=? b') && (c <=? c') && (d <=? d') in
  let r40 := row 40 in
  let r10 := row 10 in
  let r90 := row 90 in
  sorted r40 && sorted r10 && sorted r90 && below r10 r90.

(** The scores of the five signals that do not read the flags. *)
Definition bases : list (Z * Z * Z * Z * Z) :=
  flat_map (fun a =>
  flat_map (fun v =>
  flat_map (fun t =>
  flat_map (fun p =>
  List.map (fun k => (a, v, t, p, k)) tokenScores)
    approvalScores) transferScores) volumeScores) ageScores.

Definition risesAt (b : Z * Z * Z * Z * Z) : bool :=
  let '(a, v, t, p, k) := b in risesWithFlags (rowScore a v t p k).

(** The same wallet with another list of flags. *)
Definition withFlags (data : WalletData.t) (flags : list ScamFlag.t) : WalletData.t :=
  {| WalletData.address := WalletData.address data;
     WalletData.balance := WalletData.balance data;
     WalletData.transactionCount := WalletData.transactionCount data;
     WalletData.transactions := WalletData.transactions data;
     WalletData.tokenTransfers := WalletData.tokenTransfers data;
     WalletData.internalTransactions := WalletData.internalTransactions data;
     WalletData.accountAge := WalletData.accountAge data;
     WalletData.firstTxTimestamp := WalletData.firstTxTimestamp data;
     WalletData.isContract := WalletData.isContract data;
     WalletData.scamFlags := flags |}.

(** Two entries of the list, at different positions, less than an hour
    (3600 seconds) apart. *)
Definition withinAnHour (timestamps : list Z) : Prop :=
  exists l1 x l2 y l3,
    timestamps = l1 ++ x :: l2 ++ y :: l3 /\ Z.abs (x - y) < 3600.

End ScoreOrder.

(* ================================================================== *)
(** * src/services/reportGenerator.ts, continued *)
(* ================================================================== *)

Module ReportData.
Import JsString.

(** [calculateConfidence].  The line for an empty flag list subtracts
    zero. *)
Definition calculateConfidence (data : WalletData.t) : Z :=
  let confidence := 100 in
  let confidence :=
    if WalletData.transactionCount data =? 0 then confidence - 30 else confidence in
  let confidence :=
    match WalletData.accountAge data with
    | None => confidence - 20
    | Some _ => confidence
    end in
  let confidence :=
    if Z.of_nat (length (WalletData.tokenTransfers data)) =? 0
    then confidence - 10 else confidence in
  let confidence :=
    if Z.of_nat (length (WalletData.internalTransactions data)) =? 0
    then confidence - 5 else confidence in
  let confidence :=
    if (WalletData.transactionCount data >? 0) && (WalletData.transactionCount data <? 10)
    then confidence - 15 else confidence in
  Z.max 10 (Z.min 100 confidence).

(** [counterparties.set(key, (counterparties.get(key) || 0) + 1)] on a
    [Map], kept as the list of its entries in insertion order: an existing
    key is updated in place, a new one goes to the end. *)
Fixpoint bump (key : list Z) (counterparties : list (list Z * Z)) : list (list Z * Z) :=
  match counterparties with
  | [] => [(key, 0 + 1)]
  | (k, n) :: rest =>
      if bool_decide (k = key) then (k, (if n =? 0 then 0 else n) + 1) :: rest
      else (k, n) :: bump key rest
  end.

(** [tx.from.toLowerCase() === myAddr ? tx.to : tx.from] *)
Definition otherParty (myAddr : list Z) (tx : BasescanTransaction.t) : list Z :=
  if strictEq (toLowerCase (BasescanTransaction.from tx)) myAddr
  then BasescanTransaction.to tx
  else BasescanTransaction.from tx.

(** One turn of the loop; the empty string is falsy. *)
Definition countStep (myAddr : list Z) (counterparties : list (list Z * Z))
    (tx : BasescanTransaction.t) : list (list Z * Z) :=
  match otherParty myAddr tx with
  | [] => counterparties
  | c :: other => bump (toLowerCase (c :: other)) counterparties
  end.

(** [.sort((a, b) => b[1] - a[1])]: descending by count, entries of equal
    count in their earlier order. *)
Fixpoint insertDescending (e : list Z * Z) (l : list (list Z * Z)) : list (list Z * Z) :=
  match l with
  | [] => [e]
  | y :: rest => if snd y <=? snd e then e :: l else y :: insertDescending e rest
  end.

Definition sortDescending (l : list (list Z * Z)) : list (list Z * Z) :=
  fold_right insertDescending [] l.

Definition computeTopInteractions (data : WalletData.t) : list TopInteraction.t :=
  let myAddr := toLowerCase (WalletData.address data) in
  let counterparties := foldl (countStep myAddr) [] (WalletData.transactions data) in
  List.map
    (fun e => {| TopInteraction.address := fst e;
                 TopInteraction.label := None;
                 TopInteraction.txCount := snd e |})
    (slice (sortDescending counterparties) 0 5).

(** The number of transactions of [txs] whose counterparty, seen from
    [myAddr], is [key] in lower case. *)
Definition interactionsWith (myAddr : list Z) (txs : list BasescanTransaction.t)
    (key : list Z) : Z :=
  Z.of_nat
    (length
       (List.filter
          (fun tx =>
             match otherParty myAddr tx with
             | [] => false
             | c :: other => strictEq (toLowerCase (c :: other)) key
             end)
          txs)).

(** [text.match(/0x[a-fA-F0-9]{40}/g) || []]: the matches from left to
    right, each search resuming after the previous match; [skip] units of
    the last match are still to be passed. *)
Fixpoint mentionsFrom (skip : nat) (text : list Z) : list (list Z) :=
  match text with
  | [] => []
  | _ :: rest =>
      match skip with
      | S n => mentionsFrom n rest
      | O =>
          if AddressShape.matchesHere text
          then take 42 text :: mentionsFrom 41 rest
          else mentionsFrom 0 rest
      end
  end.

(** [text.replace(pattern, replacement)] with a string pattern: the first
    occurrence only.  The replacement holds no dollar sign. *)
Fixpoint replaceFirst (text pattern replacement : list Z) : list Z :=
  if startsWith text pattern then replacement ++ drop (length pattern) text
  else match text with
       | [] => []
       | c :: rest => c :: replaceFirst rest pattern replacement
       end.

Definition knownAddresses (data : WalletData.t) : gset (list Z) :=
  list_to_set
    ([toLowerCase (WalletData.address data)]
     ++ List.map (fun tx => toLowerCase (BasescanTransaction.from tx))
                 (WalletData.transactions data)
     ++ List.map (fun tx => toLowerCase (BasescanTransaction.to tx))
                 (WalletData.transactions data)).

Definition addressRemoved : list Z := js "[address removed]".

(** The [for (const addr of mentions)] loop: it returns at the first
    mention that is not known. *)
Fixpoint validateLoop (known : gset (list Z)) (text : list Z)
    (mentions : list (list Z)) : list Z :=
  match mentions with
  | [] => text
  | addr :: rest =>
      if negb (bool_decide (toLowerCase addr ∈ known))
      then replaceFirst text addr addressRemoved
      else validateLoop known text rest
  end.

Definition validateAiOutput (text : list Z) (data : WalletData.t) : list Z :=
  validateLoop (knownAddresses data) text (mentionsFrom 0 text).

End ReportData.

(* ================================================================== *)
(** * src/services/farcaster.ts *)
(* ================================================================== *)

Module Farcaster.
Import JsString.

(** A hexadecimal digit, of either case, as Node's decoder reads it. *)
Definition unhex (c : Z) : option Z :=
  if (48 <=? c) && (c <=? 57) then Some (c - 48)
  else if (65 <=? c) && (c <=? 70) then Some (c - 55)
  else if (97 <=? c) && (c <=? 102) then Some (c - 87)
  else None.

(** [Buffer.from(s, 'hex')]: two digits make a byte; decoding stops at the
    first pair that is not two hexadecimal digits, and a last character
    without a partner is dropped. *)
Fixpoint hexDecode (s : list Z) : list Z :=
  match s with
  | high :: low :: rest =>
      match unhex high, unhex low with
      | Some a, Some b => (16 * a + b) :: hexDecode rest
      | _, _ => []
      end
  | _ => []
  end.

(** [crypto.timingSafeEqual(a, b)]: [None] is the [RangeError] it throws
    when the two buffers differ in byte length. *)
Definition timingSafeEqual (a b : list Z) : option bool :=
  if (length a =? length b)%nat then Some (bool_decide (a = b)) else None.

Section Signature.
(** [config.webhookSecret], and the hexadecimal HMAC-SHA512 of a body under
    a key, which is Node's [crypto]. *)
Variable webhookSecret : list Z.
Variable hmacSha512Hex : list Z -> list Z -> list Z.

(** [verifyWebhookSignature]: [None] when [timingSafeEqual] throws. *)
Definition verifyWebhookSignature (body signature : list Z) : option bool :=
  match webhookSecret with
  | [] => Some true
  | _ :: _ =>
      let expectedSignature := hmacSha512Hex webhookSecret body in
      timingSafeEqual (hexDecode signature) (hexDecode expectedSignature)
  end.

End Signature.
End Farcaster.

(* ================================================================== *)
(** * src/index.ts, the webhook *)
(* ================================================================== *)

Module Webhook.
Import JsString.

(** The fields of a [NeynarCastEvent] the handler reads;
    [mentioned_profiles] holds the FIDs, [None] when the field is missing. *)
Record CastEvent := {
  eventType : list Z;
  hash : list Z;
  authorFid : Z;
  text : list Z;
  mentioned_profiles : option (list Z)
}.

(** The [x-neynar-signature] header ([None] when absent), the raw body and
    the parsed body. *)
Record Request := {
  signature : option (list Z);
  rawBody : list Z;
  body : CastEvent
}.

(** The module-level [userLimiter] and [reportCache]. *)
Record Store := {
  queries : gmap Z (list Z);
  reportCache : gmap (list Z) (TtlCache.CacheEntry WalletReport.t)
}.

(** What the handler answers: 401, 200 "processing", or nothing, when it
    throws before answering. *)
Inductive Status := Unauthorized | Processing | Uncaught.

(** The status sent, every reply handed to [postReply] (text, parent hash)
    in order, and the state left behind. *)
Record Outcome := {
  status : Status;
  replies : list (list Z * list Z);
  state : Store
}.

Definition limitMessage : list Z :=
  [9203] ++ js " You've reached the query limit (10/hour). Please try again later.".

Definition noAddressMessage : list Z :=
  [10067]
  ++ js " I couldn't find a valid wallet address in your message. Please tag me with a Base wallet address (e.g., @TellTaleBot 0xabc...def).".

Definition failureMessage (address : list Z) : list Z :=
  [10060] ++ js " Analysis failed for " ++ address ++ js ". Please try again later."
  ++ [10; 10] ++ Config.disclaimer Config.config.

Definition userLimit : Z := 10.
Definition userWindowMs : Z := 60 * 60 * 1000.

Section Handler.
Variable botFid : Z.
Variable webhookSecret : list Z.
Variable hmacSha512Hex : list Z -> list Z -> list Z.
Variable fetchWalletData : list Z -> option WalletData.t.
Variable generateReport :
  WalletData.t -> Z -> RiskLevel -> list RiskSignal.t -> option WalletReport.t.
Variable getAddress : list Z -> option (list Z).
(** [postReply]: [false] when publishing throws. *)
Variable postReply : list Z -> list Z -> bool.

(** [analyzeAndReply]: a throw of [runAnalysis] or of the first [postReply]
    lands in the same [catch], which posts the failure notice.  [None] is a
    formatter that does not return. *)
Definition analyzeAndReply (storedAt : Z) (address castHash : list Z)
    (cache : gmap (list Z) (TtlCache.CacheEntry WalletReport.t))
  : option (list (list Z * list Z)
            * gmap (list Z) (TtlCache.CacheEntry WalletReport.t)) :=
  match Index.runAnalysis fetchWalletData generateReport storedAt address cache with
  | (Some report, cache') =>
      match ReportGenerator.formatForCast Config.config report with
      | None => None
      | Some castText =>
          if postReply castText castHash
          then Some ([(castText, castHash)], cache')
          else Some ([(castText, castHash); (failureMessage address, castHash)], cache')
      end
  | (None, cache') => Some ([(failureMessage address, castHash)], cache')
  end.

Definition isMentioned (event : CastEvent) : bool :=
  match mentioned_profiles event with
  | Some profiles => existsb (fun fid => fid =? botFid) profiles
  | None => false
  end.

(** [signature && !verifyWebhookSignature(req.rawBody, signature)], the
    first statement of the handler, outside its [try]: the request goes on,
    is refused, or the check throws. *)
Inductive Gate := Pass | Deny | Throw.

Definition signatureGate (req : Request) : Gate :=
  match signature req with
  | Some (c :: s) =>
      match Farcaster.verifyWebhookSignature webhookSecret hmacSha512Hex
              (rawBody req) (c :: s) with
      | Some true => Pass
      | Some false => Deny
      | None => Throw
      end
  | _ => Pass
  end.

(** The [POST /webhook/neynar] handler.  [checkedAt], [lookedUpAt] and
    [storedAt] are the readings of [Date.now()] in the limiter, in the cache
    lookup and in the cache write. *)
Definition handle (checkedAt lookedUpAt storedAt : Z) (req : Request) (st : Store)
  : option Outcome :=
  match signatureGate req with
  | Throw => Some {| status := Uncaught; replies := []; state := st |}
  | Deny => Some {| status := Unauthorized; replies := []; state := st |}
  | Pass =>
    let event := body req in
    if negb (strictEq (eventType event) (js "cast.created"))
    then Some {| status := Processing; replies := []; state := st |}
    else if negb (isMentioned event)
    then Some {| status := Processing; replies := []; state := st |}
    else
      let castHash := hash event in
      let checked :=
        UserRateLimiter.checkAndRecord userLimit userWindowMs checkedAt
          (authorFid event) (queries st) in
      if negb (fst checked)
      then Some {| status := Processing;
                   replies := [(limitMessage, castHash)];
                   state := {| queries := snd checked; reportCache := reportCache st |} |}
      else
        match Address.extractAddress getAddress (text event) with
        | None =>
            Some {| status := Processing;
                    replies := [(noAddressMessage, castHash)];
                    state := {| queries := snd checked;
                                reportCache := reportCache st |} |}
        | Some address =>
            match TtlCache.get lookedUpAt address (reportCache st) with
            | (Some cached, cache1) =>
                match ReportGenerator.formatForCast Config.config cached with
                | None => None
                | Some castText =>
                    Some {| status := Processing;
                            replies := [(castText, castHash)];
                            state := {| queries := snd checked;
                                        reportCache := cache1 |} |}
                end
            | (None, cache1) =>
                match analyzeAndReply storedAt address castHash cache1 with
                | None => None
                | Some (posted, cache2) =>
                    Some {| status := Processing;
                            replies := posted;
                            state := {| queries := snd checked;
                                        reportCache := cache2 |} |}
                end
            end
        end
  end.

End Handler.
End Webhook.

(** A mention of the bot (FID 777) by the user 42, without a signature
    header and with one, and the collaborators of the examples. *)
Module WebhookSamples.
Import JsString Webhook Samples.

Definition mention (text : list Z) : Request :=
  {| signature := None;
     rawBody := [];
     body := {| eventType := js "cast.created";
                hash := js "0xcast";
                authorFid := 42;
                text := text;
                mentioned_profiles := Some [777] |} |}.

Definition freshState : Store := {| queries := ∅; reportCache := ∅ |}.

(** The state after the short report was cached for the clean address, to
    expire at 5000. *)
Definition cachedState : Store :=
  {| queries := ∅;
     reportCache :=
       <[ cleanAddress := {| TtlCache.value := shortReport;
                             TtlCache.expiresAt := 5000 |} ]> ∅ |}.

Definition noHmac (key body : list Z) : list Z := [].

(** A stand-in for the digest: 128 hexadecimal digits, whatever the key and
    the body. *)
Definition fixedDigest : list Z :=
  List.concat (List.repeat (js "0123456789abcdef") 8).
Definition fixedHmac (key body : list Z) : list Z := fixedDigest.

(** The mention with a signature header. *)
Definition signedMention (signature : list Z) (text : list Z) : Request :=
  {| Webhook.signature := Some signature;
     rawBody := rawBody (mention text);
     body := body (mention text) |}.

(** The digest in upper case, followed by a line feed. *)
Definition shoutedDigest : list Z :=
  List.concat (List.repeat (js "0123456789ABCDEF") 8) ++ [10].
Definition asGiven (raw : list Z) : option (list Z) := Some raw.
Definition posted (text parentHash : list Z) : bool := true.

(** What the handler leaves after a mention without an address at 1000. *)
Definition noAddressOutcome : Outcome :=
  {| status := Processing;
     replies := [(noAddressMessage, js "0xcast")];
     state := {| queries := <[ 42 := [1000] ]> ∅; reportCache := ∅ |} |}.

End WebhookSamples.

(* ================================================================== *)
(** * src/data/scamSeeds.ts *)
(* ================================================================== *)

Module ScamSeeds.
Import JsString.

Definition scamSeedData : list ScamDb.ScamSeedEntry :=
  [
    {| ScamDb.address := js "0x0000000000000000000000000000000000000000";
       ScamDb.category := js "burn";
       ScamDb.description :=
         js "Null/burn address " ++ [8212] ++ js " tokens sent here are lost forever." |};
    {| ScamDb.address := js "0xd90e2f925da726b50c4ed8d0fb90ad053324f31b";
       ScamDb.category := js "mixer";
       ScamDb.description :=
         js "Tornado Cash Router (Ethereum) " ++ [8212] ++ js " funds from this address may indicate laundering." |};
    {| ScamDb.address := js "0x722122df12d4e14e13ac3b6895a86e84145b6967";
       ScamDb.category := js "mixer";
       ScamDb.description :=
         js "Tornado Cash Proxy (Ethereum) " ++ [8212] ++ js " associated with mixing/obfuscation." |};
    {| ScamDb.address := js "0x12d66f87a04a9e220743712ce6d9bb1b5616b8fc";
       ScamDb.category := js "mixer";
       ScamDb.description :=
         js "Tornado Cash 0.1 ETH pool (Ethereum)." |};
    {| ScamDb.address := js "0x47ce0c6ed5b0ce3d3a51fdb1c52dc66a7c3c2936";
       ScamDb.category := js "mixer";
       ScamDb.description :=
         js "Tornado Cash 1 ETH pool (Ethereum)." |};
    {| ScamDb.address := js "0x910cbd523d972eb0a6f4cae4618ad62622b39dbf";
       ScamDb.category := js "mixer";
       ScamDb.description :=
         js "Tornado Cash 10 ETH pool (Ethereum)." |};
    {| ScamDb.address := js "0xa160cdab225685da1d56aa342ad8841c3b53f291";
       ScamDb.category := js "mixer";
       ScamDb.description :=
         js "Tornado Cash 100 ETH pool (Ethereum)." |};
    {| ScamDb.address := js "0xfbFEE3CD66697758164bFD36e3cA0Ea73480E9a2";
       ScamDb.category := js "scam";
       ScamDb.description :=
         js "Suspected scam contract on Base " ++ [8212] ++ js " community-reported." |} ].

End ScamSeeds.

(* ================================================================== *)
(** * Properties of the cache and of the per-user limiter *)
(* ================================================================== *)

Section TtlCacheFacts.
Context {T : Type}.
Variable ttlMs : Z.
Implicit Types (cache : gmap (list Z) (TtlCache.CacheEntry T)) (key : list Z).

Lemma get_fresh now key cache entry :
  cache !! key = Some entry ->
  now <= TtlCache.expiresAt entry ->
  TtlCache.get now key cache = (Some (TtlCache.value entry), cache).
Proof.
  intros Hk Hle. unfold TtlCache.get. rewrite Hk.
  destruct (Z.gtb_spec now (TtlCache.expiresAt entry)); [lia | reflexivity].
Qed.

Lemma get_expired now key cache entry :
  cache !! key = Some entry ->
  now > TtlCache.expiresAt entry ->
  TtlCache.get now key cache = (None, delete key cache).
Proof.
  intros Hk Hgt. unfold TtlCache.get. rewrite Hk.
  destruct (Z.gtb_spec now (TtlCache.expiresAt entry)); [reflexivity | lia].
Qed.

Lemma get_absent now key cache :
  cache !! key = None -> TtlCache.get now key cache = (None, cache).
Proof. intros Hk. unfold TtlCache.get. now rewrite Hk. Qed.

Lemma set_lookup now key v cache :
  TtlCache.set ttlMs now key v cache !! key
  = Some {| TtlCache.value := v; TtlCache.expiresAt := now + ttlMs |}.
Proof. unfold TtlCache.set. apply lookup_insert_eq. Qed.

Lemma set_lookup_other now key key' v cache :
  key <> key' ->
  TtlCache.set ttlMs now key v cache !! key' = cache !! key'.
Proof. intros Hne. unfold TtlCache.set. now apply lookup_insert_ne. Qed.

(** C8.  A [get] issued no later than the expiry of an entry written by
    [set] returns exactly the stored value and leaves the cache alone; once
    [now > expiresAt], whatever the delay, [get] answers absent and the
    cache it leaves behind no longer holds the key. *)
Theorem ttl_cache_roundtrip_and_expiry key (v : T) cache (t0 : Z) :
  (forall t1, t1 <= t0 + ttlMs ->
     TtlCache.get t1 key (TtlCache.set ttlMs t0 key v cache)
     = (Some v, TtlCache.set ttlMs t0 key v cache))
  /\ (forall t1, t1 > t0 + ttlMs ->
        fst (TtlCache.get t1 key (TtlCache.set ttlMs t0 key v cache)) = None
        /\ snd (TtlCache.get t1 key (TtlCache.set ttlMs t0 key v cache)) !! key = None)
  /\ (forall entry now, cache !! key = Some entry ->
        now > TtlCache.expiresAt entry ->
        TtlCache.get now key cache = (None, delete key cache)
        /\ snd (TtlCache.get now key cache) !! key = None).
Proof.
  split; [| split].
  - intros t1 Ht. rewrite (get_fresh t1 key _ _ (set_lookup t0 key v cache)); auto.
  - intros t1 Ht.
    rewrite (get_expired t1 key _ _ (set_lookup t0 key v cache)); [| exact Ht].
    split; [reflexivity | apply lookup_delete_eq].
  - intros entry now Hk Hgt. rewrite (get_expired now key cache entry Hk Hgt).
    split; [reflexivity | apply lookup_delete_eq].
Qed.

End TtlCacheFacts.

(** The 50 ms cache of the test suite: a hit after 10 ms, a miss after 80. *)
Lemma ttl_cache_roundtrip_and_expiry_witness :
  TtlCache.get 10 (JsString.js "key1")
     (TtlCache.set 50 0 (JsString.js "key1") (JsString.js "value1") ∅)
  = (Some (JsString.js "value1"),
     TtlCache.set 50 0 (JsString.js "key1") (JsString.js "value1") ∅)
  /\ fst (TtlCache.get 80 (JsString.js "key1")
            (TtlCache.set 50 0 (JsString.js "key1") (JsString.js "value1") ∅)) = None.
Proof.
  destruct (ttl_cache_roundtrip_and_expiry 50 (JsString.js "key1")
              (JsString.js "value1") ∅ 0) as [Hhit [Hmiss _]].
  split.
  - apply Hhit. lia.
  - apply Hmiss. lia.
Defined.

Section UserRateLimiterFacts.
Import UserRateLimiter.
Variables maxQueries windowMs : Z.
Implicit Types (queries : gmap Z (list Z)) (fid now : Z).

Abbreviation check := (checkAndRecord maxQueries windowMs).
Abbreviation run := (checkAll maxQueries windowMs).

(** The timestamps of [fid] that still count at [now]. *)
Abbreviation live now fid queries :=
  (List.filter (fun t => now - t <? windowMs) (recorded fid queries)).

Lemma check_denied now fid queries :
  maxQueries <= Z.of_nat (length (live now fid queries)) ->
  check now fid queries = (false, queries).
Proof.
  intros H. unfold checkAndRecord, recorded in *.
  destruct (Z.geb_spec (Z.of_nat (length
    (List.filter (fun t => now - t <? windowMs) (default [] (queries !! fid)))))
    maxQueries); [reflexivity | lia].
Qed.

Lemma check_allowed now fid queries :
  Z.of_nat (length (live now fid queries)) < maxQueries ->
  check now fid queries
  = (true, <[ fid := live now fid queries ++ [now] ]> queries).
Proof.
  intros H. unfold checkAndRecord, recorded in *.
  destruct (Z.geb_spec (Z.of_nat (length
    (List.filter (fun t => now - t <? windowMs) (default [] (queries !! fid)))))
    maxQueries); [lia | reflexivity].
Qed.

Lemma check_false_inv now fid queries :
  fst (check now fid queries) = false -> check now fid queries = (false, queries).
Proof.
  unfold checkAndRecord.
  destruct (_ >=? _); [reflexivity | discriminate].
Qed.

Lemma check_other now fid other queries :
  other <> fid -> snd (check now fid queries) !! other = queries !! other.
Proof.
  intros Hne. unfold checkAndRecord.
  destruct (_ >=? _); simpl; [reflexivity |].
  apply lookup_insert_ne. congruence.
Qed.

Lemma filter_all_live now (l : list Z) :
  (forall t, In t l -> now - t < windowMs) ->
  List.filter (fun t => now - t <? windowMs) l = l.
Proof.
  induction l as [| t l IH]; intros H; simpl; [reflexivity |].
  destruct (Z.ltb_spec (now - t) windowMs) as [_ | Hge].
  - f_equal. apply IH. intros t' Ht'. apply H. now right.
  - specialize (H t (or_introl eq_refl)). lia.
Qed.

Lemma filter_all_expired now (l : list Z) :
  (forall t, In t l -> windowMs <= now - t) ->
  List.filter (fun t => now - t <? windowMs) l = [].
Proof.
  induction l as [| t l IH]; intros H; simpl; [reflexivity |].
  destruct (Z.ltb_spec (now - t) windowMs) as [Hlt | _].
  - specialize (H t (or_introl eq_refl)). lia.
  - apply IH. intros t' Ht'. apply H. now right.
Qed.

Lemma withinWindow_app_inv (l1 l2 : list Z) :
  withinWindow windowMs (l1 ++ l2) ->
  withinWindow windowMs l1
  /\ withinWindow windowMs l2
  /\ forall t t', In t l1 -> In t' l2 -> t' - t < windowMs.
Proof.
  induction l1 as [| a l1 IH]; simpl; intros H.
  - split; [exact I |]. split; [exact H | intros t t' []].
  - destruct H as [Hall Hrest]. destruct (IH Hrest) as (H1 & H2 & Hcross).
    apply Forall_app in Hall. destruct Hall as [Hall1 Hall2].
    split; [split; assumption |]. split; [exact H2 |].
    intros t t' [<- | Ht] Ht'.
    + rewrite Forall_forall in Hall2. apply Hall2. now apply list_elem_of_In.
    + now apply Hcross.
Qed.

(** Calls sharing a window are all allowed while the limit is not reached:
    [old] are stale timestamps, [rec] the ones recorded in this window. *)
Lemma run_allowed fid (times : list Z) :
  forall queries (old rec : list Z),
    recorded fid queries = old ++ rec ->
    (forall t now, In t old -> In now times -> windowMs <= now - t) ->
    (forall t now, In t rec -> In now times -> now - t < windowMs) ->
    withinWindow windowMs times ->
    Z.of_nat (length rec + length times) <= maxQueries ->
    fst (run times fid queries) = List.repeat true (length times)
    /\ (times <> [] -> recorded fid (snd (run times fid queries)) = rec ++ times)
    /\ (times = [] -> snd (run times fid queries) = queries)
    /\ (forall other, other <> fid ->
          snd (run times fid queries) !! other = queries !! other).
Proof.
  induction times as [| now rest IH]; intros queries old rec Hrec Hold Hlive Hwin Hlen.
  - simpl. split; [reflexivity |]. split; [congruence |]. split; reflexivity.
  - simpl in Hwin. destruct Hwin as [Hnext Hwin]. simpl in Hlen.
    assert (Hfilter : live now fid queries = rec).
    { rewrite Hrec, List.filter_app.
      rewrite (filter_all_expired now old), (filter_all_live now rec); [reflexivity | |].
      - intros t Ht. apply Hlive; [exact Ht | now left].
      - intros t Ht. apply Hold; [exact Ht | now left]. }
    assert (Hstep : check now fid queries = (true, <[ fid := rec ++ [now] ]> queries)).
    { rewrite check_allowed; rewrite Hfilter; [reflexivity | lia]. }
    cbn [checkAll]. rewrite Hstep. cbn [fst snd].
    destruct (IH (<[ fid := rec ++ [now] ]> queries) [] (rec ++ [now])) as (Hres & Hst & Hnil & Hoth).
    + unfold recorded. rewrite lookup_insert_eq. reflexivity.
    + intros t t' [].
    + intros t t' Ht Ht'. apply in_app_or in Ht. destruct Ht as [Ht | [<- | []]].
      * apply Hlive; [exact Ht | now right].
      * rewrite Forall_forall in Hnext. apply Hnext. now apply list_elem_of_In.
    + exact Hwin.
    + rewrite length_app. simpl. lia.
    + repeat split.
      * simpl. now rewrite Hres.
      * intros _. destruct rest as [| t' rest'].
        -- rewrite (Hnil eq_refl). unfold recorded. now rewrite lookup_insert_eq.
        -- rewrite Hst by discriminate. now rewrite <- app_assoc.
      * discriminate.
      * intros other Hne. rewrite Hoth by exact Hne.
        apply lookup_insert_ne. congruence.
Qed.

Lemma check_verdict_local now fid queries queries' :
  queries' !! fid = queries !! fid ->
  fst (check now fid queries') = fst (check now fid queries).
Proof.
  intros H. unfold checkAndRecord. rewrite H.
  destruct (_ >=? _); reflexivity.
Qed.

Lemma run_all_denied fid (attempts : list Z) queries :
  Forall (fun t => fst (check t fid queries) = false) attempts ->
  run attempts fid queries = (List.repeat false (length attempts), queries).
Proof.
  induction attempts as [| t rest IH]; intros H; [reflexivity |].
  apply Forall_cons in H. destruct H as [Ht Hrest].
  cbn [checkAll]. rewrite (check_false_inv t fid queries Ht). cbn [fst snd].
  rewrite (IH Hrest). reflexivity.
Qed.

End UserRateLimiterFacts.

(** C7.  With limit [N], [N] calls of one identity that share a window are
    all allowed and the next call in that window is denied; the state and
    the verdicts of every other identity are what they were; and once the
    window has elapsed since each recorded call, the identity is allowed
    again. *)
Theorem user_limiter_allows_exactly_N (N : nat) (windowMs fid : Z)
    (queries : gmap Z (list Z)) (times : list Z) (extra : Z) :
  length times = N ->
  UserRateLimiter.withinWindow windowMs (times ++ [extra]) ->
  (forall t now, In t (UserRateLimiter.recorded fid queries) ->
                 In now (times ++ [extra]) -> windowMs <= now - t) ->
  let ran := UserRateLimiter.checkAll (Z.of_nat N) windowMs times fid queries in
  fst ran = List.repeat true N
  /\ fst (UserRateLimiter.checkAndRecord (Z.of_nat N) windowMs extra fid (snd ran)) = false
  /\ (forall other now, other <> fid ->
        snd ran !! other = queries !! other
        /\ fst (UserRateLimiter.checkAndRecord (Z.of_nat N) windowMs now other (snd ran))
           = fst (UserRateLimiter.checkAndRecord (Z.of_nat N) windowMs now other queries))
  /\ (forall later, (0 < N)%nat ->
        (forall t, In t times -> windowMs <= later - t) ->
        fst (UserRateLimiter.checkAndRecord (Z.of_nat N) windowMs later fid (snd ran)) = true).
Proof.
  intros Hlen Hwin Hstale ran.
  destruct (withinWindow_app_inv windowMs _ _ Hwin) as (Hwin1 & _ & Hcross).
  destruct (run_allowed (Z.of_nat N) windowMs fid times queries
              (UserRateLimiter.recorded fid queries) [])
    as (Hres & Hst & Hnil & Hoth).
  - now rewrite app_nil_r.
  - intros t now Ht Hnow. apply Hstale; [exact Ht |]. apply in_or_app. now left.
  - intros t now [].
  - exact Hwin1.
  - simpl. lia.
  - fold ran in Hres, Hst, Hnil, Hoth. rewrite Hlen in Hres.
    split; [exact Hres |]. split; [| split].
    + destruct times as [| t0 rest].
      * rewrite (Hnil eq_refl). simpl in Hlen. subst N.
        rewrite check_denied; [reflexivity | lia].
      * rewrite check_denied; [reflexivity |].
        rewrite Hst by discriminate. simpl app at 1.
        rewrite filter_all_live; [lia |].
        intros t Ht. apply Hcross; [exact Ht | now left].
    + intros other now Hne. split; [now apply Hoth |].
      apply check_verdict_local. now apply Hoth.
    + intros later Hpos Hgone.
      destruct times as [| t0 rest]; [simpl in Hlen; lia |].
      rewrite check_allowed.
      * reflexivity.
      * rewrite Hst by discriminate. simpl app at 1.
        rewrite filter_all_expired by exact Hgone. simpl. lia.
Qed.

(** The limiter of the test suite: two calls per 60 s for user 200, a third
    call denied, user 400 untouched, a call 60 s later allowed. *)
Lemma user_limiter_allows_exactly_N_witness :
  fst (UserRateLimiter.checkAll 2 60000 [0; 10] 200 ∅) = [true; true]
  /\ fst (UserRateLimiter.checkAndRecord 2 60000 20 200
            (snd (UserRateLimiter.checkAll 2 60000 [0; 10] 200 ∅))) = false
  /\ fst (UserRateLimiter.checkAndRecord 2 60000 20 400
            (snd (UserRateLimiter.checkAll 2 60000 [0; 10] 200 ∅))) = true
  /\ fst (UserRateLimiter.checkAndRecord 2 60000 60010 200
            (snd (UserRateLimiter.checkAll 2 60000 [0; 10] 200 ∅))) = true.
Proof.
  assert (Hwin : UserRateLimiter.withinWindow 60000 ([0; 10] ++ [20])).
  { simpl. repeat (split || constructor || lia). }
  assert (Hstale : forall t now, In t (UserRateLimiter.recorded 200 ∅) ->
                     In now ([0; 10] ++ [20]) -> 60000 <= now - t).
  { intros t now []. }
  destruct (user_limiter_allows_exactly_N 2 60000 200 ∅ [0; 10] 20 eq_refl Hwin Hstale)
    as (Hall & Hdenied & Hother & Hagain).
  split; [exact Hall |]. split; [exact Hdenied |]. split.
  - destruct (Hother 400 20) as [_ Hv]; [lia |].
    etransitivity; [exact Hv | reflexivity].
  - apply Hagain; [lia |]. intros t [<- | [<- | []]]; lia.
Defined.

(** C10.  A denied [checkAndRecord] returns the map it was given: the
    attempt is not recorded, any run of denied attempts leaves the state
    where it was, and a later call is judged as if the denied one had never
    been made. *)
Theorem denied_call_is_not_recorded (maxQueries windowMs now fid : Z)
    (queries : gmap Z (list Z)) :
  fst (UserRateLimiter.checkAndRecord maxQueries windowMs now fid queries) = false ->
  snd (UserRateLimiter.checkAndRecord maxQueries windowMs now fid queries) = queries
  /\ UserRateLimiter.recorded fid
       (snd (UserRateLimiter.checkAndRecord maxQueries windowMs now fid queries))
     = UserRateLimiter.recorded fid queries
  /\ (forall attempts,
        Forall (fun t => fst (UserRateLimiter.checkAndRecord maxQueries windowMs t fid queries)
                         = false) attempts ->
        UserRateLimiter.checkAll maxQueries windowMs attempts fid queries
        = (List.repeat false (length attempts), queries))
  /\ (forall later,
        UserRateLimiter.checkAndRecord maxQueries windowMs later fid
          (snd (UserRateLimiter.checkAndRecord maxQueries windowMs now fid queries))
        = UserRateLimiter.checkAndRecord maxQueries windowMs later fid queries).
Proof.
  intros Hdenied.
  rewrite (check_false_inv _ _ _ _ _ Hdenied). cbn [snd].
  split; [reflexivity |]. split; [reflexivity |]. split; [| reflexivity].
  intros attempts Hall. now apply run_all_denied.
Qed.

(** User 500 is at the limit of one call per 50 ms; the call at 10 ms is
    denied and changes nothing. *)
Lemma denied_call_is_not_recorded_witness :
  snd (UserRateLimiter.checkAndRecord 1 50 10 500 {[ 500 := [0] ]}) = {[ 500 := [0] ]}.
Proof.
  apply (denied_call_is_not_recorded 1 50 10 500 {[ 500 := [0] ]}).
  vm_compute. reflexivity.
Defined.

(* ================================================================== *)
(** * Properties of the scam registry *)
(* ================================================================== *)

Section ScamDbFacts.
Import JsString ScamDb.
Variable localScamDb : gmap (list Z) LocalMatch.
Implicit Types (results : gmap (list Z) ScamFlag.t) (addresses : list (list Z)).

(** What the loop has stored under [k] once it has gone through
    [addresses], starting from [results]. *)
Lemma batch_fold_lookup (k : list Z) addresses :
  forall results,
    foldl (batchStep localScamDb) results addresses !! k
    = if bool_decide (k ∈ addresses) && negb (KnownContracts.isWhitelisted k)
      then match localScamDb !! toLowerCase k with
           | Some m => Some (localFlag m)
           | None => results !! k
           end
      else results !! k.
Proof.
  induction addresses as [| a rest IH]; intros results.
  - reflexivity.
  - cbn [foldl]. rewrite IH. unfold batchStep.
    destruct (decide (a = k)) as [-> | Hne].
    + rewrite (bool_decide_eq_true_2 (k ∈ k :: rest)) by (left).
      destruct (KnownContracts.isWhitelisted k); simpl.
      * now rewrite andb_false_r.
      * rewrite andb_true_r.
        destruct (localScamDb !! toLowerCase k) as [m |].
        -- rewrite lookup_insert_eq. now destruct (bool_decide (k ∈ rest)).
        -- now destruct (bool_decide (k ∈ rest)).
    + assert (Hsame : bool_decide (k ∈ a :: rest) = bool_decide (k ∈ rest)).
      { apply bool_decide_ext. rewrite elem_of_cons. intuition congruence. }
      rewrite Hsame.
      assert (Hk : (if KnownContracts.isWhitelisted a then results
                    else match localScamDb !! toLowerCase a with
                         | Some m => <[ a := localFlag m ]> results
                         | None => results
                         end) !! k = results !! k).
      { destruct (KnownContracts.isWhitelisted a); [reflexivity |].
        destruct (localScamDb !! toLowerCase a); [| reflexivity].
        now apply lookup_insert_ne. }
      rewrite Hk. reflexivity.
Qed.

Lemma batchCheckLocal_lookup (k : list Z) addresses :
  batchCheckLocal localScamDb addresses !! k
  = if bool_decide (k ∈ addresses) && negb (KnownContracts.isWhitelisted k)
    then localFlag <$> localScamDb !! toLowerCase k
    else None.
Proof.
  unfold batchCheckLocal. rewrite batch_fold_lookup, lookup_empty.
  destruct (_ && _); [| reflexivity].
  now destruct (localScamDb !! toLowerCase k).
Qed.

Lemma isWhitelisted_of_known (k : list Z) (c : KnownContracts.KnownContract) :
  In c KnownContracts.knownContracts ->
  toLowerCase k = toLowerCase (KnownContracts.address c) ->
  KnownContracts.isWhitelisted k = true.
Proof.
  intros Hin Heq. unfold KnownContracts.isWhitelisted.
  apply bool_decide_eq_true_2. unfold KnownContracts.whitelistedAddresses.
  apply elem_of_list_to_set, list_elem_of_In, in_map_iff.
  exists c. split; [symmetry; exact Heq | exact Hin].
Qed.

(** C6.  Whatever the local table holds, [batchCheckLocal] stores nothing
    under an address whose lowercase form is a known contract's; an entry
    under [k] exists exactly when [k] was among the inputs, is not
    whitelisted and matches the local table under its lowercase form, and
    then it is the local flag of that match; an input with no match has no
    entry at all. *)
Theorem batchCheckLocal_whitelist_and_matches addresses (k : list Z) :
  (KnownContracts.isWhitelisted k = true ->
     batchCheckLocal localScamDb addresses !! k = None)
  /\ (forall c, In c KnownContracts.knownContracts ->
        toLowerCase k = toLowerCase (KnownContracts.address c) ->
        batchCheckLocal localScamDb addresses !! k = None)
  /\ (forall flag,
        batchCheckLocal localScamDb addresses !! k = Some flag <->
        In k addresses /\ KnownContracts.isWhitelisted k = false
        /\ exists m, localScamDb !! toLowerCase k = Some m /\ flag = localFlag m)
  /\ (localScamDb !! toLowerCase k = None ->
        batchCheckLocal localScamDb addresses !! k = None).
Proof.
  assert (Hwl : KnownContracts.isWhitelisted k = true ->
                batchCheckLocal localScamDb addresses !! k = None).
  { intros H. rewrite batchCheckLocal_lookup, H. now rewrite andb_false_r. }
  split; [exact Hwl |]. split; [| split].
  - intros c Hin Heq. apply Hwl. now apply (isWhitelisted_of_known k c).
  - intros flag. rewrite batchCheckLocal_lookup. split.
    + destruct (bool_decide_reflect (k ∈ addresses)) as [Hin | Hout]; [| discriminate].
      destruct (KnownContracts.isWhitelisted k); [discriminate |]. simpl.
      destruct (localScamDb !! toLowerCase k) as [m |]; [| discriminate].
      simpl. intros [= <-]. split; [now apply list_elem_of_In |].
      split; [reflexivity |]. now exists m.
    + intros (Hin & Hnw & m & Hm & ->).
      rewrite bool_decide_eq_true_2 by (now apply list_elem_of_In).
      now rewrite Hnw, Hm.
  - intros Hnone. rewrite batchCheckLocal_lookup, Hnone.
    now destruct (_ && _).
Qed.

End ScamDbFacts.

(* ================================================================== *)
(** * Properties of the provider rotation *)
(* ================================================================== *)

Section RpcFallbackFacts.
Import RpcFallback.
Variable rpcProviders : list RpcProviderConfig.
Context {T : Type}.

Abbreviation providerCount := (length rpcProviders).
Abbreviation after := (rotated rpcProviders).
Abbreviation client_at := (clientAt rpcProviders).
Abbreviation sound_sys := (sound (T:=T) rpcProviders).
Abbreviation on_track := (tracked (T:=T) rpcProviders).

Lemma rotated_0 i : (i < providerCount)%nat -> after i 0 = i.
Proof. intros H. unfold rotated. rewrite Nat.add_0_r. now apply Nat.mod_small. Qed.

Lemma rotated_succ i k : after (after i 1) k = after i (S k).
Proof.
  unfold rotated. rewrite Nat.Div0.add_mod_idemp_l. f_equal. lia.
Qed.

Lemma rotated_next i k :
  Nat.modulo (after i k + 1) providerCount = after i (S k).
Proof.
  unfold rotated. rewrite Nat.Div0.add_mod_idemp_l. f_equal. lia.
Qed.

Lemma rotated_lt i k : (0 < providerCount)%nat -> (after i k < providerCount)%nat.
Proof. intros H. unfold rotated. apply Nat.mod_upper_bound. lia. Qed.

Lemma rotated_full i : (i < providerCount)%nat -> after i providerCount = i.
Proof.
  intros H. unfold rotated.
  replace (i + providerCount)%nat with (i + 1 * providerCount)%nat by lia.
  rewrite Nat.Div0.mod_add. now apply Nat.mod_small.
Qed.

(** Every index is reached by fewer than [providerCount] rotations. *)
Lemma rotated_surjective i target :
  (i < providerCount)%nat -> (target < providerCount)%nat ->
  exists k, (k < providerCount)%nat /\ after i k = target.
Proof.
  intros Hi Ht. unfold rotated.
  destruct (le_lt_dec i target) as [Hle | Hgt].
  - exists (target - i)%nat. split; [lia |].
    replace (i + (target - i))%nat with target by lia. now apply Nat.mod_small.
  - exists (target + providerCount - i)%nat. split; [lia |].
    replace (i + (target + providerCount - i))%nat
      with (target + 1 * providerCount)%nat by lia.
    rewrite Nat.Div0.mod_add. now apply Nat.mod_small.
Qed.

Lemma clientAt_lookup i p :
  rpcProviders !! i = Some p -> client_at i = createBaseClient (url p).
Proof. intros H. unfold clientAt. now rewrite H. Qed.

Lemma getClient_consistent st :
  consistent rpcProviders st ->
  (activeProviderIndex st < providerCount)%nat ->
  getClient rpcProviders st
  = (inr (client_at (activeProviderIndex st)),
     {| activeClient := Some (client_at (activeProviderIndex st));
        activeProviderIndex := activeProviderIndex st |}).
Proof.
  intros [_ Hc] Hlt. unfold getClient.
  destruct (activeClient st) as [c |] eqn:Hac.
  - destruct (Hc c eq_refl) as (p & Hp & ->).
    rewrite (clientAt_lookup _ _ Hp).
    destruct st as [ac idx]. simpl in *. now rewrite Hac.
  - destruct (lookup_lt_is_Some_2 rpcProviders _ Hlt) as [p Hp].
    rewrite Hp, (clientAt_lookup _ _ Hp). reflexivity.
Qed.

Lemma rotateProvider_spec st :
  activeProviderIndex (rotateProvider rpcProviders st)
  = Nat.modulo (activeProviderIndex st + 1) providerCount
  /\ activeClient (rotateProvider rpcProviders st) = None.
Proof. split; reflexivity. Qed.

Lemma rotateProvider_consistent st :
  (0 < providerCount)%nat -> consistent rpcProviders (rotateProvider rpcProviders st).
Proof.
  intros Hpos. split.
  - right. simpl. apply Nat.mod_upper_bound. lia.
  - simpl. discriminate.
Qed.

Lemma cached_consistent i :
  (i < providerCount)%nat ->
  consistent rpcProviders
    {| activeClient := Some (client_at i); activeProviderIndex := i |}.
Proof.
  intros Hlt. split; [right; exact Hlt |]. simpl. intros c [= <-].
  destruct (lookup_lt_is_Some_2 rpcProviders _ Hlt) as [p Hp].
  exists p. split; [exact Hp | now apply clientAt_lookup].
Qed.

(** The loop from a consistent state: with no turn left it throws, with a
    turn left it suspends on the client of the active provider, which is
    cached from then on.  [getClient] does not throw there. *)
Lemma resume_none attempt st :
  resume (T:=T) rpcProviders 0 attempt st = (Finished (inl AllProvidersFailed), st).
Proof. reflexivity. Qed.

Lemma resume_some turns attempt st :
  consistent rpcProviders st ->
  (activeProviderIndex st < providerCount)%nat ->
  resume (T:=T) rpcProviders (S turns) attempt st
  = (Awaiting attempt (client_at (activeProviderIndex st)),
     {| activeClient := Some (client_at (activeProviderIndex st));
        activeProviderIndex := activeProviderIndex st |}).
Proof.
  intros Hcons Hlt. cbn [resume]. now rewrite (getClient_consistent st Hcons Hlt).
Qed.

Lemma consistent_in_range st :
  consistent rpcProviders st -> (0 < providerCount)%nat ->
  (activeProviderIndex st < providerCount)%nat.
Proof.
  intros [[Hnil | Hlt] _] Hpos; [| exact Hlt]. rewrite Hnil in Hpos. simpl in Hpos. lia.
Qed.

(** ** What every call satisfies, however the calls overlap *)

Lemma enter_sound sys : sound_sys sys -> sound_sys (step rpcProviders sys Enter).
Proof.
  intros [Hcons Hall]. unfold sound. cbn [step shared calls]. unfold withFallback.
  destruct (Nat.eq_dec providerCount 0%nat) as [Hz | Hnz].
  - rewrite Hz, resume_none. cbn [fst snd]. split; [exact Hcons |].
    apply Forall_app. split; [exact Hall |]. constructor; [| constructor].
    unfold wellFormed. cbn [progress log]. rewrite Hz. repeat split. constructor.
  - destruct providerCount as [| n] eqn:Hn; [congruence |].
    assert (Hlt : (activeProviderIndex (shared sys) < providerCount)%nat)
      by (apply consistent_in_range; [exact Hcons | lia]).
    rewrite resume_some by assumption. cbn [fst snd]. split.
    + now apply cached_consistent.
    + apply Forall_app. split; [exact Hall |]. constructor; [| constructor].
      unfold wellFormed. cbn [progress log length]. rewrite Hn.
      split; [reflexivity |]. split; [lia | constructor].
Qed.

Lemma settle_sound sys id outcome :
  sound_sys sys -> sound_sys (step rpcProviders sys (Settle id outcome)).
Proof.
  intros [Hcons Hall]. cbn [step].
  destruct (calls sys !! id) as [[[attempt client | result] l] |] eqn:Hcall;
    try (split; assumption).
  pose proof (proj1 (Forall_lookup _ _) Hall _ _ Hcall) as Hwf.
  unfold wellFormed in Hwf. cbn [progress log] in Hwf.
  destruct Hwf as (Hatt & Hlt & Hrej).
  destruct outcome as [v |]; cbn [settle].
  - split; cbn [shared calls fst snd]; [exact Hcons |].
    apply Forall_insert; [exact Hall |].
    unfold wellFormed. cbn [progress log]. rewrite length_app. cbn [length].
    split; [lia |]. exists l, client. split; [reflexivity | exact Hrej].
  - assert (Hpos : (0 < providerCount)%nat) by lia.
    pose proof (rotateProvider_consistent (shared sys) Hpos) as Hrot.
    assert (Hrej' : Forall (@rejected T) (l ++ [(client, None)])).
    { apply Forall_app. split; [exact Hrej |]. constructor; [reflexivity | constructor]. }
    destruct (providerCount - S attempt)%nat as [| turns] eqn:Hturns.
    + rewrite resume_none. split; cbn [shared calls fst snd]; [exact Hrot |].
      apply Forall_insert; [exact Hall |].
      unfold wellFormed. cbn [progress log]. rewrite length_app. cbn [length].
      split; [reflexivity |]. split; [lia | exact Hrej'].
    + rewrite resume_some
        by (first [exact Hrot | apply consistent_in_range; assumption]).
      split; cbn [shared calls fst snd].
      * apply cached_consistent. now apply consistent_in_range.
      * apply Forall_insert; [exact Hall |].
        unfold wellFormed. cbn [progress log]. rewrite length_app. cbn [length].
        split; [lia |]. split; [lia | exact Hrej'].
Qed.

Lemma step_sound sys e : sound_sys sys -> sound_sys (step rpcProviders sys e).
Proof. destruct e; [apply enter_sound | apply settle_sound]. Qed.

Lemma run_sound events : forall sys, sound_sys sys -> sound_sys (run rpcProviders sys events).
Proof.
  induction events as [| e events IH]; intros sys Hs; [exact Hs |].
  apply IH. now apply step_sound.
Qed.

Lemma initial_sound st :
  consistent rpcProviders st -> sound_sys {| shared := st; calls := [] |}.
Proof. intros H. split; [exact H | constructor]. Qed.

Lemma run_app sys before after' :
  run (T:=T) rpcProviders sys (before ++ after')
  = run rpcProviders (run rpcProviders sys before) after'.
Proof. unfold run. apply foldl_app. Qed.

(** Calls keep their place: a step adds at most one call, at the end. *)
Lemma step_calls_length (sys : System T) e :
  (length (calls sys) <= length (calls (step rpcProviders sys e)))%nat.
Proof.
  destruct e as [| id outcome]; cbn [step].
  - cbn [calls]. rewrite length_app. lia.
  - destruct (calls sys !! id) as [[[attempt client | result] l] |]; try lia.
    cbn [calls]. rewrite length_insert. lia.
Qed.

(** ** A call nobody disturbs *)

Lemma log_extended i (l : list (BasePublicClient * option T)) client outcome :
  List.map fst l
  = List.map (fun k => client_at (after i k)) (seq 0 (length l)) ->
  client = client_at (after i (length l)) ->
  List.map fst (l ++ [(client, outcome)])
  = List.map (fun k => client_at (after i k))
      (seq 0 (length (l ++ [(client, outcome)]))).
Proof.
  intros Hl ->. rewrite length_app. cbn [length].
  rewrite Nat.add_1_r, seq_S, !List.map_app, Hl. reflexivity.
Qed.

Lemma enter_tracked sys :
  sound_sys sys ->
  on_track (activeProviderIndex (shared sys)) (length (calls sys))
          (step rpcProviders sys Enter).
Proof.
  intros [Hcons Hall]. unfold tracked. cbn [step shared calls]. unfold withFallback.
  rewrite list_lookup_middle by reflexivity. eexists. split; [reflexivity |].
  unfold onTrack. cbn [progress log length seq List.map].
  split; [reflexivity |].
  destruct providerCount as [| n] eqn:Hn.
  - rewrite resume_none. exact I.
  - assert (Hlt : (activeProviderIndex (shared sys) < providerCount)%nat)
      by (apply consistent_in_range; [exact Hcons | lia]).
    rewrite resume_some by assumption. cbn [fst snd activeProviderIndex activeClient].
    rewrite rotated_0 by exact Hlt. repeat split.
Qed.

Lemma step_tracked i id sys e :
  sound_sys sys -> on_track i id sys -> undisturbed id e ->
  on_track i id (step rpcProviders sys e).
Proof.
  intros Hs (call & Hcall & Hlog & Hwait) Hund.
  pose proof Hs as [Hcons Hall].
  pose proof (proj1 (Forall_lookup _ _) Hall _ _ Hcall) as Hwf.
  destruct e as [| j outcome].
  - (* another call starts *)
    exists call. cbn [step shared calls]. unfold withFallback.
    split; [now apply lookup_app_l_Some |]. split; [exact Hlog |].
    destruct (progress call) as [attempt client | result] eqn:Hprog; [| exact I].
    destruct Hwait as (Hclient & Hidx & Hcached).
    unfold wellFormed in Hwf. rewrite Hprog in Hwf. destruct Hwf as (_ & Hlt & _).
    destruct providerCount as [| n] eqn:Hn; [lia |].
    assert (Hin : (activeProviderIndex (shared sys) < providerCount)%nat)
      by (apply consistent_in_range; [exact Hcons | lia]).
    rewrite resume_some by assumption.
    cbn [snd activeProviderIndex activeClient]. rewrite Hidx, <- Hclient.
    repeat split; assumption.
  - cbn [step].
    destruct (calls sys !! j) as [[[attempt client | result] l] |] eqn:Hj;
      try (exists call; repeat split; assumption).
    destruct (Nat.eq_dec j id) as [-> | Hne].
    + (* the call's own attempt settles *)
      rewrite Hcall in Hj. injection Hj as ->.
      unfold wellFormed in Hwf. cbn [progress log] in Hwf, Hlog, Hwait.
      destruct Hwf as (Hatt & Hlt & Hrej).
      destruct Hwait as (Hclient & Hidx & Hcached).
      eexists. cbn [shared calls].
      split; [apply list_lookup_insert_eq; now apply lookup_lt_Some in Hcall |].
      unfold onTrack. cbn [progress log]. split.
      { apply log_extended; [exact Hlog | now rewrite <- Hatt]. }
      destruct outcome as [v |]; cbn [settle fst snd]; [exact I |].
      assert (Hpos : (0 < providerCount)%nat) by lia.
      pose proof (rotateProvider_consistent (shared sys) Hpos) as Hrot.
      destruct (providerCount - S attempt)%nat as [| turns];
        [rewrite resume_none; exact I |].
      rewrite resume_some
        by (first [exact Hrot | apply consistent_in_range; assumption]).
      cbn [fst snd activeProviderIndex activeClient rotateProvider].
      rewrite Hidx, rotated_next. repeat split.
    + (* the attempt of another call resolves *)
      destruct Hund as [Heq | Hsome]; [contradiction |].
      destruct outcome as [v |]; [| contradiction].
      exists call. cbn [settle shared calls fst snd].
      split; [rewrite list_lookup_insert_ne by exact Hne; exact Hcall |].
      split; assumption.
Qed.

Lemma run_tracked i id events :
  forall sys, sound_sys sys -> on_track i id sys -> Forall (undisturbed id) events ->
              on_track i id (run rpcProviders sys events).
Proof.
  induction events as [| e events IH]; intros sys Hs Ht Hund; [exact Ht |].
  apply Forall_cons in Hund as [He Hrest].
  apply IH; [now apply step_sound | now apply step_tracked | exact Hrest].
Qed.

(** A list of rejected attempts is known by its clients. *)
Lemma rejected_log (l : list (BasePublicClient * option T)) :
  Forall rejected l -> l = List.map (fun c => (c, None)) (List.map fst l).
Proof.
  induction 1 as [| [c o] l Ho _ IH]; [reflexivity |].
  unfold rejected in Ho. cbn [snd] in Ho. subst o. cbn [List.map fst]. now rewrite <- IH.
Qed.

Lemma failedPass_length i count :
  length (failedPass (T:=T) rpcProviders i count) = count.
Proof. unfold failedPass. now rewrite length_map, length_seq. Qed.

Lemma failedPass_rejected i count :
  Forall rejected (failedPass (T:=T) rpcProviders i count).
Proof. unfold failedPass. apply Forall_map, Forall_forall. reflexivity. Qed.

Lemma failedPass_of_log i (l : list (BasePublicClient * option T)) :
  Forall rejected l ->
  List.map fst l
  = List.map (fun k => client_at (after i k)) (seq 0 (length l)) ->
  l = failedPass rpcProviders i (length l).
Proof.
  intros Hrej Hfst. rewrite (rejected_log l Hrej) at 1. rewrite Hfst.
  unfold failedPass. now rewrite List.map_map.
Qed.

(** A full pass reaches every provider of the list. *)
Lemma failedPass_covers i target :
  (i < providerCount)%nat -> (target < providerCount)%nat ->
  In (client_at target, None) (failedPass (T:=T) rpcProviders i providerCount).
Proof.
  intros Hi Ht. destruct (rotated_surjective i target Hi Ht) as (k & Hk & <-).
  unfold failedPass. apply in_map_iff. exists k. split; [reflexivity |].
  apply in_seq. lia.
Qed.

End RpcFallbackFacts.

(* ================================================================== *)
(** * Properties of the risk scoring engine *)
(* ================================================================== *)

Section FloatOrder.

(** [7 <= x] rules out [x < 7], on the IEEE semantics of the comparisons. *)
Lemma SFleb_not_SFltb (a b : spec_float) : SFleb a b = true -> SFltb b a = false.
Proof.
  unfold SFleb, SFltb.
  destruct a as [sa | sa | | sa ma ea], b as [sb | sb | | sb mb eb]; simpl;
    try (destruct sa); try (destruct sb); simpl; try discriminate; try reflexivity.
  - rewrite (Z.compare_antisym ea eb).
    destruct (ea ?= eb); simpl; try discriminate; try reflexivity.
    change (PosDef.Pos.compare_cont Eq ma mb) with (Pos.compare ma mb).
    change (PosDef.Pos.compare_cont Eq mb ma) with (Pos.compare mb ma).
    rewrite (Pos.compare_antisym ma mb).
    destruct (Pos.compare ma mb); simpl; try discriminate; reflexivity.
  - rewrite (Z.compare_antisym ea eb).
    destruct (ea ?= eb); simpl; try discriminate; try reflexivity.
    change (PosDef.Pos.compare_cont Eq ma mb) with (Pos.compare ma mb).
    change (PosDef.Pos.compare_cont Eq mb ma) with (Pos.compare mb ma).
    rewrite (Pos.compare_antisym ma mb).
    destruct (Pos.compare ma mb); simpl; try discriminate; reflexivity.
Qed.

Lemma leb_not_ltb (x y : float) : (x <=? y)%float = true -> (y <? x)%float = false.
Proof. rewrite leb_spec, ltb_spec. apply SFleb_not_SFltb. Qed.

End FloatOrder.

Section Classify.
Import RiskScorer.

Lemma classify_spec (s : Z) :
  (classify s = LOW <-> s <= 30)
  /\ (classify s = MEDIUM <-> 30 < s <= 60)
  /\ (classify s = HIGH <-> 60 < s).
Proof.
  unfold classify.
  destruct (Z.leb_spec s 30); [| destruct (Z.leb_spec s 60)];
    (split; [| split]); split; intros; try discriminate; try lia; reflexivity.
Qed.

Lemma level_conclude signals boost :
  level (conclude signals boost) = classify (score (conclude signals boost)).
Proof. reflexivity. Qed.

End Classify.

Section SignalCases.
Import RiskScorer ScoreTable.
Variable data : WalletData.t.

Lemma scoreAccountAge_cases :
  exists a, In a ageScores /\ scoreAccountAge data = signal "Account Age" 0.1 a.
Proof.
  unfold scoreAccountAge, ageScores.
  destruct (WalletData.accountAge data) as [age |].
  - destruct (_ <? 7)%float; [| destruct (_ <? 30)%float; [| destruct (_ <? 180)%float]];
      eexists; (split; [| reflexivity]); simpl; tauto.
  - eexists; (split; [| reflexivity]); simpl; tauto.
Qed.

Lemma scoreAccountAge_settled (age : float) :
  WalletData.accountAge data = Some age ->
  (7 <=? age / 86400)%float = true ->
  exists a, In a settledAgeScores /\ scoreAccountAge data = signal "Account Age" 0.1 a.
Proof.
  intros Hage Hdays. unfold scoreAccountAge, settledAgeScores. rewrite Hage.
  rewrite (leb_not_ltb _ _ Hdays).
  destruct (_ <? 30)%float; [| destruct (_ <? 180)%float];
    eexists; (split; [| reflexivity]); simpl; tauto.
Qed.

Lemma scoreTransactionVolume_cases :
  exists v, In v volumeScores
            /\ scoreTransactionVolume data = signal "Transaction Volume" 0.15 v.
Proof.
  unfold scoreTransactionVolume, volumeScores.
  destruct (_ =? 0); [| destruct (_ <? 5); [| destruct (_ <? 20); [| destruct (_ >? 500)]]];
    eexists; (split; [| reflexivity]); simpl; tauto.
Qed.

Lemma scoreLargeTransfers_cases :
  exists t, In t transferScores
            /\ scoreLargeTransfers data = signal "Large Transfers" 0.15 t.
Proof.
  unfold scoreLargeTransfers, transferScores.
  destruct (_ =? 0);
    [| destruct (hasCluster _); [| destruct (_ >? 5); [| destruct (_ >? 0)]]];
    eexists; (split; [| reflexivity]); simpl; tauto.
Qed.

Lemma scoreContractApprovals_cases :
  exists p, In p approvalScores
            /\ scoreContractApprovals data = signal "Contract Approvals" 0.15 p.
Proof.
  unfold scoreContractApprovals, approvalScores.
  destruct (_ >? 5); [| destruct (_ >? 10); [| destruct (_ >? 0)]];
    eexists; (split; [| reflexivity]); simpl; tauto.
Qed.

Lemma scoreFundingSource_cases :
  exists f, In f fundingScores
            /\ scoreFundingSource data = signal "Funding Source" 0.1 f.
Proof.
  unfold scoreFundingSource, fundingScores.
  destruct (_ =? 0); [| destruct (_ >? 0)];
    eexists; (split; [| reflexivity]); simpl; tauto.
Qed.

Lemma scoreTokenDiversity_cases :
  exists k, In k tokenScores
            /\ scoreTokenDiversity data = signal "Token Diversity" 0.1 k.
Proof.
  unfold scoreTokenDiversity, tokenScores.
  destruct (_ >? 50); [| destruct (_ >? 20); [| destruct (_ >? 0)]];
    eexists; (split; [| reflexivity]); simpl; tauto.
Qed.

(** The Scam Database score and the boost, by the number of flags. *)
Lemma scam_case_of_count :
  let n := length (WalletData.scamFlags data) in
  let sc := match n with
            | 0%nat => noFlag | 1%nat => oneFlag | 2%nat => twoFlags | _ => manyFlags
            end in
  scoreScamInteractions data = signal "Scam Database" 0.25 (fst sc)
  /\ scamBoost (Z.of_nat n) = snd sc.
Proof.
  unfold scoreScamInteractions.
  destruct (length (WalletData.scamFlags data)) as [| [| [| n]]]; cbv zeta;
    try (split; reflexivity).
  assert (Hn : 3 <= Z.of_nat (S (S (S n)))) by lia.
  set (c := Z.of_nat (S (S (S n)))) in *.
  split.
  - destruct (Z.eqb_spec c 0); [lia |]. rewrite Z.min_l by lia. reflexivity.
  - unfold scamBoost. destruct (Z.geb_spec c 3); [reflexivity | lia].
Qed.

End SignalCases.

Section Table.
Import RiskScorer ScoreTable.

Lemma outcomes_intro (ages : list Z) (scams : list (Z * Z)) a v sc t p f k :
  In a ages -> In v volumeScores -> In sc scams -> In t transferScores ->
  In p approvalScores -> In f fundingScores -> In k tokenScores ->
  In (assembled a v (fst sc) t p f k, snd sc) (outcomes ages scams).
Proof.
  intros Ha Hv Hsc Ht Hp Hf Hk. unfold outcomes.
  apply in_flat_map; exists a; split; [exact Ha |].
  apply in_flat_map; exists v; split; [exact Hv |].
  apply in_flat_map; exists sc; split; [exact Hsc |].
  apply in_flat_map; exists t; split; [exact Ht |].
  apply in_flat_map; exists p; split; [exact Hp |].
  apply in_flat_map; exists f; split; [exact Hf |].
  apply in_map_iff; exists k; split; [reflexivity | exact Hk].
Qed.

(** What [computeRiskScore] hands to its tail is a row of the table built
    from any age list and flag cases that cover the wallet. *)
Lemma inputs_in_table (data : WalletData.t) (ages : list Z) (scams : list (Z * Z)) :
  (exists a, In a ages /\ scoreAccountAge data = signal "Account Age" 0.1 a) ->
  (exists sc, In sc scams
     /\ scoreScamInteractions data = signal "Scam Database" 0.25 (fst sc)
     /\ scamBoost (Z.of_nat (length (WalletData.scamFlags data))) = snd sc) ->
  In (collectSignals data,
      scamBoost (Z.of_nat (length (WalletData.scamFlags data))))
     (outcomes ages scams).
Proof.
  intros (a & Ha & Hage) (sc & Hsc & Hscam & Hboost).
  destruct (scoreTransactionVolume_cases data) as (v & Hv & Hvol).
  destruct (scoreLargeTransfers_cases data) as (t & Ht & Htr).
  destruct (scoreContractApprovals_cases data) as (p & Hp & Hap).
  destruct (scoreFundingSource_cases data) as (f & Hf & Hfu).
  destruct (scoreTokenDiversity_cases data) as (k & Hk & Htok).
  unfold collectSignals. rewrite Hage, Hvol, Hscam, Htr, Hap, Hfu, Htok, Hboost.
  now apply outcomes_intro.
Qed.

Lemma any_flag_count_covered (data : WalletData.t) :
  exists sc, In sc scamCases
     /\ scoreScamInteractions data = signal "Scam Database" 0.25 (fst sc)
     /\ scamBoost (Z.of_nat (length (WalletData.scamFlags data))) = snd sc.
Proof.
  pose proof (scam_case_of_count data) as H. cbv zeta in H.
  destruct (length (WalletData.scamFlags data)) as [| [| [| n]]];
    eexists; (split; [| exact H]); unfold scamCases; simpl; tauto.
Qed.

Lemma table_check (P : list RiskSignal.t * Z -> bool) (ages : list Z)
    (scams : list (Z * Z)) (c : list RiskSignal.t * Z) :
  forallb P (outcomes ages scams) = true -> In c (outcomes ages scams) -> P c = true.
Proof. intros Hall Hin. rewrite forallb_forall in Hall. now apply Hall. Qed.

Lemma whole_table_wellFormed : forallb wellFormed (outcomes ageScores scamCases) = true.
Proof. vm_compute. reflexivity. Qed.

Lemma many_flags_table : forallb (scoreBetween 51 100) (outcomes ageScores [manyFlags]) = true.
Proof. vm_compute. reflexivity. Qed.

Lemma one_flag_settled_table :
  forallb (scoreBetween 26 73) (outcomes settledAgeScores [oneFlag]) = true.
Proof. vm_compute. reflexivity. Qed.

End Table.

Section ScorerTheorems.
Import RiskScorer ScoreTable.

Lemma scoreBetween_spec lo hi c :
  scoreBetween lo hi c = true -> lo <= scoreOf c <= hi.
Proof. unfold scoreBetween. intros H. apply andb_prop in H. lia. Qed.

(** C2.  For every wallet, [computeRiskScore] returns the seven signals
    under their seven fixed names, their weights add up (in double
    arithmetic) to within 1e-9 of 1.0, the weighted total is a finite number
    and the score is an integer of [0, 100], equal to
    [round(max(0, min(100, rawScore)))]. *)
Theorem computeRiskScore_seven_signals_in_range (data : WalletData.t) :
  length (signals (computeRiskScore data)) = 7%nat
  /\ List.map RiskSignal.name (signals (computeRiskScore data)) = signalNames
  /\ (PrimFloat.abs (totalWeight (signals (computeRiskScore data)) - 1) <? 1e-9)%float = true
  /\ 0 <= score (computeRiskScore data) <= 100
  /\ score (computeRiskScore data)
     = specClamp (weightedTotal (collectSignals data)
                    (scamBoost (Z.of_nat (length (WalletData.scamFlags data)))))
  /\ JsNumber.isFinite
       (weightedTotal (collectSignals data)
          (scamBoost (Z.of_nat (length (WalletData.scamFlags data))))) = true.
Proof.
  pose proof (table_check wellFormed _ _ _ whole_table_wellFormed
                (inputs_in_table data ageScores scamCases
                   (scoreAccountAge_cases data) (any_flag_count_covered data))) as H.
  unfold wellFormed, scoreOf in H. cbn [fst snd] in H.
  repeat (apply andb_prop in H; destruct H as [H ?]).
  unfold computeRiskScore.
  set (sigs := collectSignals data) in *.
  set (boost := scamBoost _) in *.
  change (signals (conclude sigs boost)) with sigs.
  split; [now apply Nat.eqb_eq |].
  split; [match goal with Hn : bool_decide _ = true |- _ =>
            apply bool_decide_eq_true in Hn; exact Hn end |].
  split; [assumption |].
  split; [lia |].
  split; [now apply Z.eqb_eq | assumption].
Qed.

(** C1, as the code has it.  With three or more scam flags the Scam
    Database signal contributes 25 points and the boost 20, so the score is
    at least 51 and the tier is MEDIUM or HIGH, never LOW; it is HIGH
    exactly when the score exceeds 60. *)
Theorem three_flags_at_least_medium (data : WalletData.t) :
  (3 <= length (WalletData.scamFlags data))%nat ->
  51 <= score (computeRiskScore data) <= 100
  /\ (level (computeRiskScore data) = MEDIUM \/ level (computeRiskScore data) = HIGH)
  /\ (level (computeRiskScore data) = HIGH <-> 60 < score (computeRiskScore data)).
Proof.
  intros Hflags.
  assert (Hcase : exists sc, In sc [manyFlags]
            /\ scoreScamInteractions data = signal "Scam Database" 0.25 (fst sc)
            /\ scamBoost (Z.of_nat (length (WalletData.scamFlags data))) = snd sc).
  { pose proof (scam_case_of_count data) as H. cbv zeta in H.
    destruct (length (WalletData.scamFlags data)) as [| [| [| n]]]; try lia.
    exists manyFlags. split; [now left | exact H]. }
  pose proof (scoreBetween_spec _ _ _
                (table_check (scoreBetween 51 100) _ _ _ many_flags_table
                   (inputs_in_table data ageScores [manyFlags]
                      (scoreAccountAge_cases data) Hcase))) as Hrange.
  unfold scoreOf in Hrange. cbn [fst snd] in Hrange.
  fold (computeRiskScore data) in Hrange.
  unfold computeRiskScore at 3 4 5. rewrite level_conclude.
  fold (computeRiskScore data).
  destruct (classify_spec (score (computeRiskScore data))) as (Hlow & Hmed & Hhigh).
  split; [exact Hrange |]. split; [| exact Hhigh].
  destruct (Z.le_gt_cases (score (computeRiskScore data)) 60).
  - left. apply Hmed. lia.
  - right. apply Hhigh. lia.
Qed.

(** C3, as the code has it.  With exactly one scam flag, whatever its
    category, and an account age of at least 7 days, the score lies between
    26 and 73; the tier is MEDIUM exactly when it falls in (30, 60]. *)
Theorem one_flag_settled_score_range (data : WalletData.t) (flag : ScamFlag.t)
    (age : float) :
  WalletData.scamFlags data = [flag] ->
  WalletData.accountAge data = Some age ->
  (7 <=? age / 86400)%float = true ->
  26 <= score (computeRiskScore data) <= 73
  /\ (level (computeRiskScore data) = MEDIUM
      <-> 30 < score (computeRiskScore data) <= 60).
Proof.
  intros Hflags Hage Hdays.
  assert (Hcase : exists sc, In sc [oneFlag]
            /\ scoreScamInteractions data = signal "Scam Database" 0.25 (fst sc)
            /\ scamBoost (Z.of_nat (length (WalletData.scamFlags data))) = snd sc).
  { pose proof (scam_case_of_count data) as H. cbv zeta in H.
    rewrite Hflags in *. exists oneFlag. split; [now left | exact H]. }
  pose proof (scoreBetween_spec _ _ _
                (table_check (scoreBetween 26 73) _ _ _ one_flag_settled_table
                   (inputs_in_table data settledAgeScores [oneFlag]
                      (scoreAccountAge_settled data age Hage Hdays) Hcase))) as Hrange.
  unfold scoreOf in Hrange. cbn [fst snd] in Hrange.
  fold (computeRiskScore data) in Hrange.
  unfold computeRiskScore at 3. rewrite level_conclude.
  fold (computeRiskScore data).
  destruct (classify_spec (score (computeRiskScore data))) as (_ & Hmed & _).
  split; [exact Hrange | exact Hmed].
Qed.

End ScorerTheorems.

Section ScorerExamples.
Import RiskScorer Samples.

(** C1 fails on the default test wallet carrying three flags: 57, MEDIUM. *)
Lemma three_flags_medium_counterexample :
  length (WalletData.scamFlags flaggedOldWallet) = 3%nat
  /\ score (computeRiskScore flaggedOldWallet) = 57
  /\ level (computeRiskScore flaggedOldWallet) = MEDIUM.
Proof. vm_compute. repeat split. Qed.

(** The flagged wallet of the test suite: 72, HIGH. *)
Lemma three_flags_at_least_medium_witness :
  51 <= score (computeRiskScore flaggedNewWallet) <= 100
  /\ (level (computeRiskScore flaggedNewWallet) = MEDIUM
      \/ level (computeRiskScore flaggedNewWallet) = HIGH).
Proof.
  destruct (three_flags_at_least_medium flaggedNewWallet) as (Hrange & Hlevel & _).
  - simpl. lia.
  - split; [exact Hrange | exact Hlevel].
Defined.

Example flagged_new_wallet_high :
  score (computeRiskScore flaggedNewWallet) = 72
  /\ level (computeRiskScore flaggedNewWallet) = HIGH.
Proof. vm_compute. split; reflexivity. Qed.

(** C3 fails on a quiet 200-day-old wallet with one mixer flag: 26, LOW. *)
Lemma one_mixer_flag_low_counterexample :
  List.map ScamFlag.category (WalletData.scamFlags quietMixerWallet)
    = [JsString.js "mixer"]
  /\ WalletData.accountAge quietMixerWallet = Some (200 * 86400)%float
  /\ (7 <=? (200 * 86400) / 86400)%float = true
  /\ score (computeRiskScore quietMixerWallet) = 26
  /\ level (computeRiskScore quietMixerWallet) = LOW.
Proof. vm_compute. repeat split. Qed.

(** ... and on a busy 15-day-old wallet funded through a mixer: 64, HIGH. *)
Example one_mixer_flag_high :
  List.map ScamFlag.category (WalletData.scamFlags busyMixerWallet)
    = [JsString.js "mixer"]
  /\ (7 <=? (15 * 86400) / 86400)%float = true
  /\ score (computeRiskScore busyMixerWallet) = 64
  /\ level (computeRiskScore busyMixerWallet) = HIGH.
Proof. vm_compute. repeat split. Qed.

(** The suspicious wallet of the test suite: 44, MEDIUM. *)
Lemma one_flag_settled_score_range_witness :
  26 <= score (computeRiskScore mixerTestWallet) <= 73
  /\ (level (computeRiskScore mixerTestWallet) = MEDIUM
      <-> 30 < score (computeRiskScore mixerTestWallet) <= 60).
Proof.
  apply (one_flag_settled_score_range mixerTestWallet mixerFlag (15 * 86400)%float).
  - reflexivity.
  - reflexivity.
  - vm_compute. reflexivity.
Defined.

Example mixer_test_wallet_medium :
  score (computeRiskScore mixerTestWallet) = 44
  /\ level (computeRiskScore mixerTestWallet) = MEDIUM.
Proof. vm_compute. split; reflexivity. Qed.

End ScorerExamples.

(* ================================================================== *)
(** * Properties of the report formatter *)
(* ================================================================== *)

Section EncoderFacts.
Import JsString TextEncoder.

Lemma high_not_small c :
  isHighSurrogate c = true -> (c <? 128) = false /\ (c <? 2048) = false.
Proof. unfold isHighSurrogate. intros H. apply andb_prop in H. lia. Qed.

Lemma encode_high_pair c d rest :
  isHighSurrogate c = true -> isLowSurrogate d = true ->
  encode (c :: d :: rest) = utf8_4 (pairCodePoint c d) ++ encode rest.
Proof.
  intros Hc Hd. destruct (high_not_small c Hc) as [H1 H2].
  cbn [encode]. now rewrite H1, H2, Hc, Hd.
Qed.

Lemma encode_high_lone c rest :
  isHighSurrogate c = true -> startsLow rest = false ->
  encode (c :: rest) = replacement ++ encode rest.
Proof.
  intros Hc Hrest. destruct (high_not_small c Hc) as [H1 H2].
  destruct rest as [| d rest'].
  - cbn [encode]. rewrite H1, H2, Hc. now rewrite app_nil_r.
  - simpl in Hrest. cbn [encode]. rewrite H1, H2, Hc, Hrest. reflexivity.
Qed.

(** The bytes of a unit that is not a high surrogate do not depend on what
    follows it. *)
Lemma encode_plain c rest :
  isHighSurrogate c = false -> encode (c :: rest) = encode [c] ++ encode rest.
Proof.
  intros Hc. cbn [encode]. rewrite Hc.
  destruct (c <? 128); [reflexivity |].
  destruct (c <? 2048); [reflexivity |].
  destruct (isLowSurrogate c); reflexivity.
Qed.

Lemma encode_single_length c : (1 <= length (encode [c]) <= 3)%nat.
Proof.
  cbn [encode].
  destruct (c <? 128); [simpl; lia |].
  destruct (c <? 2048); [simpl; lia |].
  destruct (isHighSurrogate c); [simpl; lia |].
  destruct (isLowSurrogate c); simpl; lia.
Qed.

(** Concatenation adds the byte counts, unless it joins a surrogate pair. *)
Lemma encode_app_bounded (n : nat) :
  forall a b, (length a <= n)%nat -> startsLow b = false ->
    encode (a ++ b) = encode a ++ encode b.
Proof.
  induction n as [| n IH]; intros a b Hlen Hb.
  - destruct a; [reflexivity | simpl in Hlen; lia].
  - destruct a as [| c a]; [reflexivity |]. simpl in Hlen.
    destruct (isHighSurrogate c) eqn:Hc.
    + destruct a as [| d a'].
      * cbn [app]. rewrite (encode_high_lone c b Hc Hb).
        rewrite (encode_high_lone c [] Hc eq_refl). simpl. reflexivity.
      * destruct (isLowSurrogate d) eqn:Hd.
        -- cbn [app]. rewrite !(encode_high_pair c d _ Hc Hd).
           rewrite (IH a' b); [now rewrite app_assoc | simpl in Hlen; lia | exact Hb].
        -- change ((c :: d :: a') ++ b) with (c :: ((d :: a') ++ b)).
           rewrite (encode_high_lone c ((d :: a') ++ b) Hc) by (simpl; exact Hd).
           rewrite (encode_high_lone c (d :: a') Hc) by (simpl; exact Hd).
           rewrite (IH (d :: a') b); [now rewrite app_assoc | lia | exact Hb].
    + change ((c :: a) ++ b) with (c :: (a ++ b)).
      rewrite (encode_plain c (a ++ b) Hc), (encode_plain c a Hc).
      rewrite (IH a b); [now rewrite app_assoc | lia | exact Hb].
Qed.

Lemma encode_app a b :
  startsLow b = false -> encode (a ++ b) = encode a ++ encode b.
Proof. intros Hb. now apply (encode_app_bounded (length a)). Qed.

Lemma byteLength_app a b :
  startsLow b = false -> byteLength (a ++ b) = byteLength a + byteLength b.
Proof.
  intros Hb. unfold byteLength. rewrite (encode_app a b Hb), length_app. lia.
Qed.

Lemma byteLength_nonneg s : 0 <= byteLength s.
Proof. unfold byteLength. lia. Qed.

(** A prefix never takes more bytes than the whole string. *)
Lemma encode_take_bounded (n : nat) :
  forall s k, (length s <= n)%nat ->
    (length (encode (take k s)) <= length (encode s))%nat.
Proof.
  induction n as [| n IH]; intros s k Hlen.
  - destruct s; [now rewrite take_nil | simpl in Hlen; lia].
  - destruct s as [| c s]; [now rewrite take_nil |]. simpl in Hlen.
    destruct k as [| k]; [simpl; lia |].
    change (take (S k) (c :: s)) with (c :: take k s).
    destruct (isHighSurrogate c) eqn:Hc.
    + destruct s as [| d s'].
      * now rewrite take_nil.
      * destruct (isLowSurrogate d) eqn:Hd.
        -- destruct k as [| k'].
           ++ change (take 0 (d :: s')) with (@nil Z).
              rewrite (encode_high_lone c [] Hc eq_refl).
              rewrite (encode_high_pair c d s' Hc Hd).
              rewrite !length_app. simpl. lia.
           ++ change (take (S k') (d :: s')) with (d :: take k' s').
              rewrite !(encode_high_pair c d _ Hc Hd), !length_app.
              pose proof (IH s' k'). simpl in Hlen. lia.
        -- rewrite (encode_high_lone c (d :: s') Hc) by (simpl; exact Hd).
           assert (Hst : startsLow (take k (d :: s')) = false).
           { destruct k; [reflexivity | simpl; exact Hd]. }
           rewrite (encode_high_lone c _ Hc Hst), !length_app.
           pose proof (IH (d :: s') k). lia.
    + rewrite (encode_plain c (take k s) Hc), (encode_plain c s Hc), !length_app.
      pose proof (IH s k). lia.
Qed.

Lemma byteLength_take s k : byteLength (take k s) <= byteLength s.
Proof.
  unfold byteLength. pose proof (encode_take_bounded (length s) s k). lia.
Qed.

(** [slice(0, e)] is a prefix. *)
Lemma slice_from_0 {A : Type} (s : list A) (e : Z) :
  exists k, slice s 0 e = take k s.
Proof.
  unfold slice. eexists. rewrite Z.ltb_irrefl.
  replace (Z.to_nat (0 `min` Z.of_nat (length s))) with 0%nat by lia.
  rewrite drop_0. reflexivity.
Qed.

Lemma slice_drop_ten (s : list Z) : slice s 0 (-10) = take (length s - 10) s.
Proof.
  unfold slice. rewrite Z.ltb_irrefl.
  replace (Z.to_nat (0 `min` Z.of_nat (length s))) with 0%nat by lia.
  rewrite drop_0. f_equal. simpl. lia.
Qed.

Lemma startsWith_refl d : startsWith d d = true.
Proof. induction d as [| c d IH]; simpl; [reflexivity |]. now rewrite Z.eqb_refl. Qed.

Lemma startsWith_app d rest : startsWith (d ++ rest) d = true.
Proof. induction d as [| c d IH]; simpl; [reflexivity |]. now rewrite Z.eqb_refl. Qed.

Lemma includes_suffix body d : includes (body ++ d) d = true.
Proof.
  induction body as [| c body IH].
  - cbn [app]. destruct d as [| c d]; [reflexivity |].
    cbn [includes]. now rewrite startsWith_refl.
  - change ((c :: body) ++ d) with (c :: (body ++ d)). cbn [includes].
    rewrite IH. apply orb_true_r.
Qed.

End EncoderFacts.

Section FormatterFacts.
Import JsString JsNumber TextEncoder ReportGenerator.
Variable config : Config.t.

Abbreviation appended := ([10; 10] ++ Config.disclaimer config).

(** With room left after the reservation, the trimming loop stops, on a
    prefix of the text that fits the room. *)
Lemma trimLoop_stops (availableBytes : Z) (fuel : nat) :
  0 <= availableBytes ->
  forall text, (length text <= fuel)%nat ->
    exists k, trimLoop fuel availableBytes text = Some (take k text)
              /\ byteLength (take k text) <= availableBytes.
Proof.
  intros Havail. induction fuel as [| fuel IH]; intros text Hlen.
  - destruct text; [| simpl in Hlen; lia]. exists 0%nat.
    cbn [trimLoop take]. change (byteLength []) with 0.
    destruct (Z.gtb_spec 0 availableBytes); [lia |]. split; [reflexivity | lia].
  - cbn [trimLoop]. destruct (Z.gtb_spec (byteLength text) availableBytes) as [Hover | Hfits].
    + rewrite slice_drop_ten.
      assert (Hne : (0 < length text)%nat).
      { destruct text; [change (byteLength []) with 0 in Hover; lia | simpl; lia]. }
      destruct (IH (take (length text - 10) text)) as (k & Hk & Hb).
      * rewrite length_take. lia.
      * rewrite take_take in Hk, Hb. eauto.
    + exists (length text). rewrite firstn_all. split; [reflexivity | lia].
Qed.

(** The answer of the loop does not depend on the fuel it was given. *)
Lemma trimLoop_fuel_irrelevant (availableBytes : Z) (fuel1 : nat) :
  forall fuel2 text r1 r2,
    trimLoop fuel1 availableBytes text = Some r1 ->
    trimLoop fuel2 availableBytes text = Some r2 ->
    r1 = r2.
Proof.
  induction fuel1 as [| fuel1 IH]; intros fuel2 text r1 r2 H1 H2;
    destruct fuel2 as [| fuel2]; cbn [trimLoop] in H1, H2;
    destruct (byteLength text >? availableBytes); try discriminate;
    try congruence.
  now apply (IH fuel2 (slice text 0 (-10))).
Qed.

(** Without room the loop of the source never stops. *)
Lemma trimLoop_spins (availableBytes : Z) (fuel : nat) :
  availableBytes < 0 -> forall text, trimLoop fuel availableBytes text = None.
Proof.
  intros Hneg. induction fuel as [| fuel IH]; intros text; cbn [trimLoop];
    pose proof (byteLength_nonneg text);
    destruct (Z.gtb_spec (byteLength text) availableBytes); try lia; auto.
Qed.

Lemma truncateToByteLimit_fits (text : list Z) (maxBytes : Z) :
  byteLength appended + 3 <= maxBytes ->
  exists body,
    truncateToByteLimit config text maxBytes = Some (body ++ appended)
    /\ byteLength (body ++ appended) <= maxBytes.
Proof.
  intros Hroom. unfold truncateToByteLimit.
  destruct (trimLoop_stops (maxBytes - byteLength appended - 3) (length text))
    with (text := text) as (k & Hk & Hfit); [lia | lia |].
  rewrite Hk.
  set (truncated := take k text) in *.
  set (kept := if (_ <? _)%float then slice truncated 0 (lastIndexOf truncated 10)
               else truncated).
  assert (Hkept : byteLength kept <= byteLength truncated).
  { subst kept. destruct (_ <? _)%float; [| lia].
    destruct (slice_from_0 truncated (lastIndexOf truncated 10)) as [j ->].
    apply byteLength_take. }
  exists (kept ++ js "..."). split; [now rewrite <- app_assoc |].
  rewrite <- app_assoc.
  rewrite (byteLength_app kept) by reflexivity.
  rewrite (byteLength_app (js "...")) by reflexivity.
  change (byteLength (js "...")) with 3. lia.
Qed.

(** C4.  When the configured ceiling leaves room for the reserved bytes
    (blank line, disclaimer, ellipsis), [formatForCast] returns a cast for
    every report, of at most [maxReportLength] bytes of UTF-8; the cast ends
    with the report's disclaimer, or, when it had to be cut, with a blank
    line and the configured disclaimer; for a report that carries the
    configured disclaimer, as [generateReport] builds them, the cast
    contains that disclaimer. *)
Theorem formatForCast_within_ceiling (report : WalletReport.t) :
  byteLength appended + 3 <= Config.maxReportLength config ->
  exists cast,
    formatForCast config report = Some cast
    /\ byteLength cast <= Config.maxReportLength config
    /\ ((exists body, cast = body ++ WalletReport.disclaimer report)
        \/ (exists body, cast = body ++ appended))
    /\ (WalletReport.disclaimer report = Config.disclaimer config ->
          includes cast (Config.disclaimer config) = true).
Proof.
  intros Hroom. unfold formatForCast.
  destruct (Z.gtb_spec (byteLength (assemble report)) (Config.maxReportLength config))
    as [Hover | Hfits].
  - destruct (truncateToByteLimit_fits (assemble report) _ Hroom) as (body & Hcut & Hlen).
    exists (body ++ appended). split; [exact Hcut |]. split; [exact Hlen |].
    split; [right; now exists body |].
    intros _. rewrite (app_assoc body [10; 10]). apply includes_suffix.
  - exists (assemble report). split; [reflexivity |]. split; [exact Hfits |].
    assert (Hend : exists body, assemble report = body ++ WalletReport.disclaimer report).
    { unfold assemble. eexists. reflexivity. }
    split; [left; exact Hend |].
    intros Hsame. destruct Hend as [body ->]. rewrite Hsame. apply includes_suffix.
Qed.

End FormatterFacts.

Section FormatterExamples.
Import JsString TextEncoder ReportGenerator Samples.

(** The report of the test suite fits as it is (385 bytes); the long one is
    cut from 5357 bytes to 1017. *)
Example short_report_untouched :
  formatForCast Config.config shortReport = Some (assemble shortReport)
  /\ byteLength (assemble shortReport) = 385.
Proof. vm_compute. split; reflexivity. Qed.

(** The shipped configuration reserves 104 of its 1024 bytes. *)
Example shipped_config_has_room :
  byteLength ([10; 10] ++ Config.disclaimer Config.config) + 3 = 104
  /\ Config.maxReportLength Config.config = 1024.
Proof. vm_compute. split; reflexivity. Qed.

Example long_report_cut :
  byteLength (assemble longReport) = 5357
  /\ option_map byteLength (formatForCast Config.config longReport) = Some 1017.
Proof. vm_compute. split; reflexivity. Qed.

Lemma formatForCast_within_ceiling_witness :
  exists cast,
    formatForCast Config.config longReport = Some cast
    /\ byteLength cast <= 1024
    /\ includes cast (Config.disclaimer Config.config) = true.
Proof.
  destruct (formatForCast_within_ceiling Config.config longReport)
    as (cast & Hcast & Hlen & _ & Hincl).
  - vm_compute. intros H. discriminate H.
  - exists cast. split; [exact Hcast |]. split; [exact Hlen |].
    apply Hincl. reflexivity.
Defined.

End FormatterExamples.

(* ================================================================== *)
(** * Properties of the analysis pipeline *)
(* ================================================================== *)

Section IndexFacts.
Import JsString Index.
Variable fetchWalletData : list Z -> option WalletData.t.
Variable generateReport :
  WalletData.t -> Z -> RiskLevel -> list RiskSignal.t -> option WalletReport.t.
Variable getAddress : list Z -> option (list Z).

Lemma runAnalysis_success now address cache report cache' :
  runAnalysis fetchWalletData generateReport now address cache = (Some report, cache') ->
  cache' = TtlCache.set reportCacheTtlMs now address report cache.
Proof.
  unfold runAnalysis.
  destruct (fetchWalletData address) as [walletData |]; [| discriminate].
  destruct (generateReport _ _ _ _) as [r |]; [| discriminate].
  now intros [= -> <-].
Qed.

(** C5, as the code has it.  A successful [runAnalysis] stores the report
    under the address string exactly as it received it, no other key is
    touched, and until the entry expires a lookup under that same string,
    which is what the handlers pass (the value of [extractAddress]), finds
    the report. *)
Theorem runAnalysis_caches_under_given_address now address cache report cache' :
  runAnalysis fetchWalletData generateReport now address cache = (Some report, cache') ->
  cache' !! address
    = Some {| TtlCache.value := report; TtlCache.expiresAt := now + reportCacheTtlMs |}
  /\ (forall key, key <> address -> cache' !! key = cache !! key)
  /\ (forall later, later <= now + reportCacheTtlMs ->
        TtlCache.get later address cache' = (Some report, cache'))
  /\ (forall param later,
        Address.extractAddress getAddress param = Some address ->
        later <= now + reportCacheTtlMs ->
        analyzeEndpoint fetchWalletData generateReport getAddress later param cache'
        = (FromCache report, cache')).
Proof.
  intros Hrun. apply runAnalysis_success in Hrun. subst cache'.
  split; [apply set_lookup |].
  split; [intros key Hne; apply set_lookup_other; congruence |].
  assert (Hget : forall later, later <= now + reportCacheTtlMs ->
            TtlCache.get later address
              (TtlCache.set reportCacheTtlMs now address report cache)
            = (Some report, TtlCache.set reportCacheTtlMs now address report cache)).
  { intros later Hlater.
    apply (get_fresh later address _ _ (set_lookup reportCacheTtlMs now address report cache)).
    exact Hlater. }
  split; [exact Hget |].
  intros param later Hparam Hlater. unfold analyzeEndpoint.
  rewrite Hparam, (Hget later Hlater). reflexivity.
Qed.

End IndexFacts.

Section IndexExamples.
Import JsString Index Samples.

(** C5 fails on the checksummed test address: after the analysis the cache
    holds the report under the mixed-case string and nothing under its
    lowercase form. *)
Lemma cache_key_is_not_lowercased_counterexample :
  option_map WalletReport.address
    (fst (runAnalysis sampleFetch sampleGenerate 0 checksummedAddress ∅))
    = Some checksummedAddress
  /\ option_map TtlCache.value
       (snd (runAnalysis sampleFetch sampleGenerate 0 checksummedAddress ∅)
        !! checksummedAddress)
     = fst (runAnalysis sampleFetch sampleGenerate 0 checksummedAddress ∅)
  /\ snd (runAnalysis sampleFetch sampleGenerate 0 checksummedAddress ∅)
     !! toLowerCase checksummedAddress = None
  /\ toLowerCase checksummedAddress = js "0x742d35cc6634c0532925a3b844bc9e7595f8b3a1".
Proof. vm_compute. repeat split. Qed.

Lemma runAnalysis_caches_under_given_address_witness :
  TtlCache.get 299999 checksummedAddress
    (snd (runAnalysis sampleFetch sampleGenerate 0 checksummedAddress ∅))
  = (fst (runAnalysis sampleFetch sampleGenerate 0 checksummedAddress ∅),
     snd (runAnalysis sampleFetch sampleGenerate 0 checksummedAddress ∅)).
Proof.
  destruct (runAnalysis sampleFetch sampleGenerate 0 checksummedAddress ∅)
    as [[report |] cache'] eqn:Hrun; [| vm_compute in Hrun; discriminate Hrun].
  destruct (runAnalysis_caches_under_given_address sampleFetch sampleGenerate
              (fun raw => Some raw) 0 checksummedAddress ∅ report cache' Hrun)
    as (_ & _ & Hget & _).
  cbn [fst snd]. apply Hget. vm_compute. intros H. discriminate H.
Defined.

End IndexExamples.

Section RegistryExamples.
Import JsString ScamDb Samples.

(** The router is in the local table and on the whitelist: no entry, while
    the pool next to it is reported and the clean address is absent. *)
Lemma batchCheckLocal_whitelist_and_matches_witness :
  is_Some (seedLocalDb earlySeeds ∅ !! toLowerCase universalRouterUpper)
  /\ batchCheckLocal (seedLocalDb earlySeeds ∅)
       [universalRouterUpper; tornadoPool; cleanAddress] !! universalRouterUpper = None
  /\ batchCheckLocal (seedLocalDb earlySeeds ∅)
       [universalRouterUpper; tornadoPool; cleanAddress] !! cleanAddress = None
  /\ is_Some (batchCheckLocal (seedLocalDb earlySeeds ∅)
                [universalRouterUpper; tornadoPool; cleanAddress] !! tornadoPool).
Proof.
  destruct (batchCheckLocal_whitelist_and_matches (seedLocalDb earlySeeds ∅)
              [universalRouterUpper; tornadoPool; cleanAddress] universalRouterUpper)
    as (Hwl & _).
  destruct (batchCheckLocal_whitelist_and_matches (seedLocalDb earlySeeds ∅)
              [universalRouterUpper; tornadoPool; cleanAddress] cleanAddress)
    as (_ & _ & _ & Hnone).
  destruct (batchCheckLocal_whitelist_and_matches (seedLocalDb earlySeeds ∅)
              [universalRouterUpper; tornadoPool; cleanAddress] tornadoPool)
    as (_ & _ & Hiff & _).
  split; [vm_compute; eauto |].
  split; [apply Hwl; vm_compute; reflexivity |].
  split; [apply Hnone; vm_compute; reflexivity |].
  eexists. apply Hiff. split; [simpl; tauto |]. split; [vm_compute; reflexivity |].
  eexists. split; [vm_compute; reflexivity | reflexivity].
Defined.

End RegistryExamples.

Section RotationExamples.
Import JsString RpcFallback Samples.

Lemma initial_state_consistent providers : consistent providers initialRpcState.
Proof.
  split.
  - destruct providers; [now left | right; simpl; lia].
  - simpl. discriminate.
Qed.

(** C9.  Two calls of [withFallback] in flight at once over the shipped
    provider list, Base Public and Ankr down, 1RPC answering.  The first
    call is handed the clients of Base Public, Ankr and Base Public again,
    uses up its three attempts and throws "All RPC providers failed",
    although 1RPC, a provider of the list, did not fail: it answers the
    second call meanwhile and is never tried by the first.  The rotation
    after the second call's rejection moved the shared index past it. *)
Theorem withFallback_overlapping_calls_skip_provider :
  calls (run sampleProviders atStartup overlappingCalls)
  = [ {| progress := Finished (inl AllProvidersFailed);
         log := [ (basePublic, None); (ankr, None); (basePublic, None) ] |};
      {| progress := Finished (inr 2500000000000000000);
         log := [ (basePublic, None); (oneRpc, Some 2500000000000000000) ] |} ]
  /\ List.map (fun p => createBaseClient (url p)) sampleProviders
     = [ basePublic; ankr; oneRpc ]
  /\ shared (run sampleProviders atStartup overlappingCalls)
     = {| activeClient := None; activeProviderIndex := 1 |}.
Proof. vm_compute. repeat split. Qed.

End RotationExamples.

(* ================================================================== *)
(** * Further properties of the cache *)
(* ================================================================== *)

Section TtlCacheMore.
Context {T : Type}.
Variable ttlMs : Z.
Implicit Types (cache : gmap (list Z) (TtlCache.CacheEntry T)) (key : list Z).

Lemma get_leaves_other_keys now key key' cache :
  key <> key' -> snd (TtlCache.get now key cache) !! key' = cache !! key'.
Proof.
  intros Hne. unfold TtlCache.get.
  destruct (cache !! key) as [entry |]; [| reflexivity].
  destruct (now >? TtlCache.expiresAt entry); [| reflexivity].
  cbn [snd]. now apply lookup_delete_ne.
Qed.

Lemma get_fst_local now key cache cache' :
  cache' !! key = cache !! key ->
  fst (TtlCache.get now key cache') = fst (TtlCache.get now key cache).
Proof.
  intros H. unfold TtlCache.get. rewrite H.
  destruct (cache !! key) as [entry |]; [| reflexivity].
  now destruct (now >? TtlCache.expiresAt entry).
Qed.

(** X1.  A second [set] on a key replaces the entry and restarts its
    time-to-live from the second write, even when the first entry had
    already expired; reads of every other key answer as before. *)
Theorem ttl_cache_set_overwrites key (v1 v2 : T) cache (t1 t2 : Z) :
  TtlCache.set ttlMs t2 key v2 (TtlCache.set ttlMs t1 key v1 cache)
    = TtlCache.set ttlMs t2 key v2 cache
  /\ (forall t, t <= t2 + ttlMs ->
        fst (TtlCache.get t key
               (TtlCache.set ttlMs t2 key v2 (TtlCache.set ttlMs t1 key v1 cache)))
        = Some v2)
  /\ (forall t other, other <> key ->
        fst (TtlCache.get t other (TtlCache.set ttlMs t2 key v2 cache))
        = fst (TtlCache.get t other cache)).
Proof.
  assert (Hset : TtlCache.set ttlMs t2 key v2 (TtlCache.set ttlMs t1 key v1 cache)
                 = TtlCache.set ttlMs t2 key v2 cache).
  { unfold TtlCache.set. apply insert_insert_eq. }
  split; [exact Hset |]. split.
  - intros t Ht. rewrite Hset.
    now rewrite (get_fresh t key _ _ (set_lookup ttlMs t2 key v2 cache)).
  - intros t other Hne. apply get_fst_local.
    apply set_lookup_other. congruence.
Qed.

(** X2.  [has] answers [true] exactly for a key that is stored and not yet
    expired, and leaves the cache as [get] does; [get] and [has] on one key
    never touch another key, so an expired entry stays stored until it is
    itself looked up; after [clear] every key is absent. *)
Theorem ttl_cache_has_and_clear now key cache :
  (fst (TtlCache.has now key cache) = true
     <-> exists entry, cache !! key = Some entry /\ now <= TtlCache.expiresAt entry)
  /\ snd (TtlCache.has now key cache) = snd (TtlCache.get now key cache)
  /\ (forall other, other <> key ->
        snd (TtlCache.has now key cache) !! other = cache !! other)
  /\ TtlCache.get now key (TtlCache.clear cache) = (None, TtlCache.clear cache)
  /\ fst (TtlCache.has now key (TtlCache.clear cache)) = false.
Proof.
  split; [| split; [reflexivity | split; [| split; reflexivity]]].
  - unfold TtlCache.has, TtlCache.get.
    destruct (cache !! key) as [entry |]; cbn [fst].
    + destruct (Z.gtb_spec now (TtlCache.expiresAt entry)); cbn [fst]; split.
      * discriminate.
      * intros (e & [= <-] & He). lia.
      * intros _. exists entry. split; [reflexivity | lia].
      * reflexivity.
    + split; [discriminate | intros (e & He & _); discriminate].
  - intros other Hne. unfold TtlCache.has. cbn [snd].
    apply get_leaves_other_keys. congruence.
Qed.

End TtlCacheMore.

(** An entry with a 50 ms life written at 0 and rewritten at 100: the read at
    120 finds the second value. *)
Lemma ttl_cache_set_overwrites_witness :
  fst (TtlCache.get 120 (JsString.js "a")
         (TtlCache.set 50 100 (JsString.js "a") 2%nat
            (TtlCache.set 50 0 (JsString.js "a") 1%nat ∅))) = Some 2%nat.
Proof.
  destruct (ttl_cache_set_overwrites 50 (JsString.js "a") 1%nat 2%nat ∅ 0 100)
    as (_ & Hget & _).
  apply Hget. lia.
Defined.

(** An entry written at 0 with a 50 ms life is still there at 50. *)
Lemma ttl_cache_has_and_clear_witness :
  fst (TtlCache.has 50 (JsString.js "a")
         (TtlCache.set 50 0 (JsString.js "a") 1%nat ∅)) = true.
Proof.
  destruct (ttl_cache_has_and_clear 50 (JsString.js "a")
              (TtlCache.set 50 0 (JsString.js "a") 1%nat ∅)) as (Hhas & _).
  apply Hhas. eexists. split; [apply set_lookup | simpl; lia].
Defined.

(* ================================================================== *)
(** * Further properties of the limiters *)
(* ================================================================== *)

Section WindowFilter.
Variable windowMs : Z.

(** Filtering at a later time makes an earlier filtering redundant. *)
Lemma filter_window_later now now' (l : list Z) :
  now <= now' ->
  List.filter (fun t => now' - t <? windowMs)
    (List.filter (fun t => now - t <? windowMs) l)
  = List.filter (fun t => now' - t <? windowMs) l.
Proof.
  intros Hle. induction l as [| t l IH]; [reflexivity |]. simpl.
  destruct (Z.ltb_spec (now - t) windowMs) as [Hin | Hout]; simpl.
  - destruct (now' - t <? windowMs); [now rewrite IH | exact IH].
  - destruct (Z.ltb_spec (now' - t) windowMs); [lia | exact IH].
Qed.

Lemma filter_length_le {A : Type} (f : A -> bool) (l : list A) :
  (length (List.filter f l) <= length l)%nat.
Proof.
  induction l as [| x l IH]; simpl; [lia |]. destruct (f x); simpl; lia.
Qed.

Lemma fold_min_lower_bound (before : list Z) (now : Z) :
  Forall (fun t => fold_right Z.min now before <= t) (before ++ [now]).
Proof.
  induction before as [| t rest IH]; simpl.
  - constructor; [lia | constructor].
  - constructor; [lia |]. eapply Forall_impl; [exact IH |]. simpl. lia.
Qed.

End WindowFilter.

Section UserLimiterWindow.
Import UserRateLimiter UserRateLimiterTrace.
Variables maxQueries windowMs : Z.

Abbreviation checkU := (checkAndRecord maxQueries windowMs).
Abbreviation window now l := (List.filter (fun t => now - t <? windowMs) l).

Lemma recorded_after_check now fid queries :
  recorded fid (snd (checkU now fid queries))
  = if fst (checkU now fid queries)
    then window now (recorded fid queries) ++ [now]
    else recorded fid queries.
Proof.
  unfold checkAndRecord, recorded.
  destruct (_ >=? _); cbn [fst snd]; [reflexivity |].
  now rewrite lookup_insert_eq.
Qed.

Lemma check_allowed_count now fid queries :
  fst (checkU now fid queries) = true ->
  Z.of_nat (length (window now (recorded fid queries))) < maxQueries.
Proof.
  unfold checkAndRecord, recorded.
  destruct (Z.geb_spec (Z.of_nat (length
    (List.filter (fun t => now - t <? windowMs) (default [] (queries !! fid)))))
    maxQueries); [discriminate | intros _; lia].
Qed.

(** What is stored and what was allowed count alike from [lo] on. *)
Lemma allowed_window_bound fid (before : list Z) :
  forall queries (hist : list Z) (lo now : Z),
    (forall t, lo <= t ->
       window t (recorded fid queries) = window t hist) ->
    Forall (fun t => lo <= t) (before ++ [now]) ->
    nondecreasing (before ++ [now]) ->
    fst (checkU now fid (snd (checkAll maxQueries windowMs before fid queries))) = true ->
    inWindow windowMs now
      (hist ++ allowedTimes maxQueries windowMs (before ++ [now]) fid queries)
    <= maxQueries.
Proof.
  induction before as [| t rest IH]; intros queries hist lo now Hagree Hlo Hmono Hok.
  - cbn [app checkAll snd] in *. cbn [allowedTimes]. rewrite Hok.
    apply Forall_cons in Hlo. destruct Hlo as [Hlo _].
    pose proof (check_allowed_count now fid queries Hok) as Hcount.
    rewrite (Hagree now Hlo) in Hcount.
    unfold inWindow. rewrite app_nil_r, List.filter_app, length_app.
    pose proof (filter_length_le (fun t => now - t <? windowMs) [now]).
    simpl length in *. lia.
  - cbn [app] in Hlo, Hmono. cbn [nondecreasing] in Hmono.
    apply Forall_cons in Hlo. destruct Hlo as [Hlot Hlo], Hmono as [Hnext Hmono].
    cbn [checkAll snd] in Hok. cbn [app allowedTimes].
    rewrite app_assoc. apply (IH _ _ t now); [| exact Hnext | exact Hmono | exact Hok].
    intros t' Ht'. rewrite recorded_after_check.
    destruct (fst (checkU t fid queries)).
    + rewrite !List.filter_app. f_equal.
      rewrite filter_window_later by exact Ht'. apply Hagree. lia.
    + rewrite app_nil_r. apply Hagree. lia.
Qed.

End UserLimiterWindow.

(** X3.  On a clock that never runs backwards and from a state with nothing
    recorded for the identity, whenever a call is allowed, the calls allowed
    so far that fall in the window ending at it, itself included, number at
    most [maxQueries]: denied calls in between change nothing. *)
Theorem user_limiter_never_exceeds_limit (maxQueries windowMs fid : Z)
    (queries : gmap Z (list Z)) (before : list Z) (now : Z) :
  UserRateLimiter.recorded fid queries = [] ->
  UserRateLimiterTrace.nondecreasing (before ++ [now]) ->
  fst (UserRateLimiter.checkAndRecord maxQueries windowMs now fid
         (snd (UserRateLimiter.checkAll maxQueries windowMs before fid queries))) = true ->
  UserRateLimiterTrace.inWindow windowMs now
    (UserRateLimiterTrace.allowedTimes maxQueries windowMs (before ++ [now]) fid queries)
  <= maxQueries.
Proof.
  intros Hfresh Hmono Hok.
  pose proof (fold_min_lower_bound before now) as Hlo.
  set (lo := fold_right Z.min now before) in *.
  apply (allowed_window_bound maxQueries windowMs fid before queries [] lo now);
    try assumption.
  intros t _. now rewrite Hfresh.
Qed.

(** Three calls per minute: calls at 0, 10, 20 pass, 30 and 40 are denied,
    and the call at 60005 passes with only 10 and 20 left in its window. *)
Lemma user_limiter_never_exceeds_limit_witness :
  UserRateLimiterTrace.allowedTimes 3 60000 [0; 10; 20; 30; 40; 60005] 7 ∅
    = [0; 10; 20; 60005]
  /\ UserRateLimiterTrace.inWindow 60000 60005
       (UserRateLimiterTrace.allowedTimes 3 60000 ([0; 10; 20; 30; 40] ++ [60005]) 7 ∅)
     <= 3.
Proof.
  split; [vm_compute; reflexivity |].
  apply (user_limiter_never_exceeds_limit 3 60000 7 ∅ [0; 10; 20; 30; 40] 60005).
  - reflexivity.
  - simpl. repeat (split || constructor || lia).
  - vm_compute. reflexivity.
Defined.

Section CallLimiter.
Import RateLimiter UserRateLimiterTrace.
Variables maxCalls windowMs : Z.

Abbreviation turnC := (turn maxCalls windowMs).
Abbreviation windowC now l := (List.filter (fun t => now - t <? windowMs) l).

Lemma turn_granted now timestamps :
  Z.of_nat (length (windowC now timestamps)) < maxCalls ->
  turnC now timestamps = (Granted, windowC now timestamps ++ [now]).
Proof.
  intros H. unfold turn.
  destruct (Z.ltb_spec (Z.of_nat (length (windowC now timestamps))) maxCalls);
    [reflexivity | lia].
Qed.

Lemma turn_cases now timestamps :
  (turnC now timestamps = (Granted, windowC now timestamps ++ [now])
   /\ Z.of_nat (length (windowC now timestamps)) < maxCalls)
  \/ (exists w, turnC now timestamps = (Blocked w, windowC now timestamps)
      /\ maxCalls <= Z.of_nat (length (windowC now timestamps))
      /\ match windowC now timestamps with
         | oldest :: _ => w = Some (windowMs - (now - oldest) + 10)
         | [] => w = None
         end).
Proof.
  unfold turn.
  destruct (Z.ltb_spec (Z.of_nat (length (windowC now timestamps))) maxCalls).
  - left. split; [reflexivity | assumption].
  - right. eexists. split; [reflexivity |]. split; [assumption |].
    now destruct (windowC now timestamps).
Qed.

Lemma grants_window_bound (before : list Z) :
  forall timestamps (hist : list Z) (lo now : Z),
    (forall t, lo <= t -> windowC t timestamps = windowC t hist) ->
    Forall (fun t => lo <= t) (before ++ [now]) ->
    nondecreasing (before ++ [now]) ->
    fst (turnC now (snd (grants maxCalls windowMs before timestamps))) = Granted ->
    inWindow windowMs now
      (hist ++ fst (grants maxCalls windowMs (before ++ [now]) timestamps))
    <= maxCalls.
Proof.
  induction before as [| t rest IH]; intros timestamps hist lo now Hagree Hlo Hmono Hok.
  - cbn [app grants snd fst] in *. rewrite Hok.
    apply Forall_cons in Hlo. destruct Hlo as [Hlo _].
    destruct (turn_cases now timestamps) as [[Hturn Hcount] | (w & Hturn & _)];
      [| rewrite Hturn in Hok; discriminate].
    rewrite (Hagree now Hlo) in Hcount.
    unfold inWindow. rewrite List.filter_app, length_app.
    pose proof (filter_length_le (fun t => now - t <? windowMs) [now]).
    simpl length in *. lia.
  - cbn [app] in Hlo, Hmono. cbn [nondecreasing] in Hmono.
    apply Forall_cons in Hlo. destruct Hlo as [Hlot Hlo], Hmono as [Hnext Hmono].
    cbn [grants snd] in Hok. cbn [app grants fst].
    destruct (turn_cases t timestamps) as [[Hturn _] | (w & Hturn & _)];
      rewrite Hturn in *; cbn [fst snd] in *.
    + change (t :: fst (grants maxCalls windowMs (rest ++ [now]) (windowC t timestamps ++ [t])))
        with ([t] ++ fst (grants maxCalls windowMs (rest ++ [now]) (windowC t timestamps ++ [t]))).
      rewrite app_assoc. apply (IH _ _ t now); [| exact Hnext | exact Hmono | exact Hok].
      intros t' Ht'. rewrite !List.filter_app. f_equal.
      rewrite filter_window_later by exact Ht'. apply Hagree. lia.
    + apply (IH _ _ t now); [| exact Hnext | exact Hmono | exact Hok].
      intros t' Ht'. rewrite filter_window_later by exact Ht'. apply Hagree. lia.
Qed.

End CallLimiter.

(** X4.  On a clock that never runs backwards and from an empty limiter,
    whenever a turn of [waitForSlot] takes a slot, the slots taken so far
    that fall in the window ending at it, itself included, number at most
    [maxCalls]. *)
Theorem call_limiter_never_exceeds_limit (maxCalls windowMs : Z)
    (before : list Z) (now : Z) :
  UserRateLimiterTrace.nondecreasing (before ++ [now]) ->
  fst (RateLimiter.turn maxCalls windowMs now
         (snd (RateLimiter.grants maxCalls windowMs before []))) = RateLimiter.Granted ->
  UserRateLimiterTrace.inWindow windowMs now
    (fst (RateLimiter.grants maxCalls windowMs (before ++ [now]) []))
  <= maxCalls.
Proof.
  intros Hmono Hok.
  pose proof (fold_min_lower_bound before now) as Hlo.
  set (lo := fold_right Z.min now before) in *.
  apply (grants_window_bound maxCalls windowMs before [] [] lo now); try assumption.
  reflexivity.
Qed.

(** The Basescan limiter, 5 calls per second: of seven turns within 300 ms
    five take a slot, and the turn at 1015 ms takes the sixth. *)
Lemma call_limiter_never_exceeds_limit_witness :
  fst (RateLimiter.grants 5 1000 [0; 50; 100; 150; 200; 250; 300; 1015] [])
    = [0; 50; 100; 150; 200; 1015]
  /\ UserRateLimiterTrace.inWindow 1000 1015
       (fst (RateLimiter.grants 5 1000 ([0; 50; 100; 150; 200; 250; 300] ++ [1015]) []))
     <= 5.
Proof.
  split; [vm_compute; reflexivity |].
  apply (call_limiter_never_exceeds_limit 5 1000 [0; 50; 100; 150; 200; 250; 300] 1015).
  - simpl. repeat (split || constructor || lia).
  - vm_compute. reflexivity.
Defined.

(** Turns that take no slot only drop timestamps. *)
Lemma filter_filter_length {A : Type} (f g : A -> bool) (l : list A) :
  (length (List.filter f (List.filter g l)) <= length (List.filter f l))%nat.
Proof.
  induction l as [| x l IH]; [reflexivity |].
  cbn [List.filter]. destruct (g x), (f x) eqn:Hf; cbn [List.filter length];
    rewrite ?Hf; cbn [length]; lia.
Qed.

Lemma grants_none_drops (maxCalls windowMs : Z) (f : Z -> bool) (others : list Z) :
  forall timestamps,
    fst (RateLimiter.grants maxCalls windowMs others timestamps) = [] ->
    (length (List.filter f (snd (RateLimiter.grants maxCalls windowMs others timestamps)))
     <= length (List.filter f timestamps))%nat.
Proof.
  induction others as [| t others IH]; intros timestamps Hnone; [reflexivity |].
  cbn [RateLimiter.grants] in Hnone |- *. cbn [fst snd] in Hnone |- *.
  unfold RateLimiter.turn in Hnone |- *.
  destruct (Z.of_nat (length (List.filter (fun x => t - x <? windowMs) timestamps))
            <? maxCalls); cbn [fst snd] in Hnone |- *; [discriminate |].
  etransitivity; [apply IH; exact Hnone | apply filter_filter_length].
Qed.

(** X5.  The limiter is shared by all callers.  With room for at least one
    call and no more than [maxCalls] timestamps stored, a caller of
    [waitForSlot] whose sleep lasts at least the computed [waitTime], and
    during whose sleep no other caller takes a slot, is granted its slot no
    later than on its second turn, and the limiter still stores at most
    [maxCalls] timestamps; with [maxCalls] at zero or below no turn ever
    grants a slot, whatever the other callers do. *)
Theorem waitForSlot_granted_after_one_sleep (maxCalls windowMs now next : Z)
    (during : list Z) (rest : list (list Z * Z)) (timestamps : list Z) :
  1 <= maxCalls ->
  Z.of_nat (length timestamps) <= maxCalls ->
  (forall w ts, RateLimiter.turn maxCalls windowMs now timestamps
                = (RateLimiter.Blocked (Some w), ts) -> now + w <= next) ->
  fst (RateLimiter.grants maxCalls windowMs during
         (snd (RateLimiter.turn maxCalls windowMs now timestamps))) = [] ->
  (exists at_ ts,
     RateLimiter.waitForSlot maxCalls windowMs
       (([], now) :: (during, next) :: rest) timestamps
       = (Some at_, ts)
     /\ (at_ = now \/ at_ = next)
     /\ Z.of_nat (length ts) <= maxCalls)
  /\ (forall cap schedule ts, cap <= 0 ->
        fst (RateLimiter.waitForSlot cap windowMs schedule ts) = None).
Proof.
  intros Hcap Hlen Hsleep Hquiet. split.
  - cbn [RateLimiter.waitForSlot RateLimiter.grants snd].
    destruct (turn_cases maxCalls windowMs now timestamps)
      as [[Hturn Hcount] | (w & Hturn & Hfull & Hw)].
    + rewrite Hturn. eexists _, _. split; [reflexivity |]. split; [now left |].
      rewrite length_app. simpl. lia.
    + rewrite Hturn. rewrite Hturn in Hquiet. cbn [snd] in Hquiet.
      set (kept := List.filter (fun t => now - t <? windowMs) timestamps) in *.
      pose proof (filter_length_le (fun t => now - t <? windowMs) timestamps) as Hkept.
      fold kept in Hkept.
      destruct kept as [| oldest kept'] eqn:Hk; [simpl in Hfull; lia |].
      subst w. specialize (Hsleep _ _ Hturn).
      assert (Hdrop : Z.of_nat (length (List.filter (fun t => next - t <? windowMs)
                                          (oldest :: kept'))) < maxCalls).
      { simpl. destruct (Z.ltb_spec (next - oldest) windowMs); [lia |].
        pose proof (filter_length_le (fun t => next - t <? windowMs) kept').
        simpl length in *. lia. }
      pose proof (grants_none_drops maxCalls windowMs (fun t => next - t <? windowMs)
                    during (oldest :: kept') Hquiet) as Hothers.
      rewrite (turn_granted maxCalls windowMs next _) by lia.
      eexists _, _. split; [reflexivity |]. split; [now right |].
      rewrite length_app. change (length [next]) with 1%nat. lia.
  - intros cap schedule.
    induction schedule as [| [others t] schedule IH]; intros ts Hzero; [reflexivity |].
    cbn [RateLimiter.waitForSlot].
    destruct (turn_cases cap windowMs t
                (snd (RateLimiter.grants cap windowMs others ts)))
      as [[_ Hcount] | (w & Hturn & _)]; [lia |].
    rewrite Hturn. now apply IH.
Qed.

(** Two calls per 200 ms, as in the test suite: with slots taken at 0 and 5,
    the caller at 10 sleeps 200 ms, another caller is turned away at 100,
    and the first gets its slot at 210. *)
Lemma waitForSlot_granted_after_one_sleep_witness :
  exists at_ ts,
    RateLimiter.waitForSlot 2 200 [([], 10); ([100], 210)] [0; 5] = (Some at_, ts)
    /\ (at_ = 10 \/ at_ = 210)
    /\ Z.of_nat (length ts) <= 2.
Proof.
  apply (waitForSlot_granted_after_one_sleep 2 200 10 210 [100] [] [0; 5]).
  - lia.
  - simpl. lia.
  - intros w ts H. vm_compute in H. injection H as <- _. lia.
  - vm_compute. reflexivity.
Defined.

(** A caller overtaken in its sleep is blocked again.  One call per second,
    a slot taken at 0: the caller at 500 sleeps 510 ms; another caller
    takes the free slot at 1005; back at 1010 the first is blocked, by the
    slot taken at 1005, and gets its own at 2015. *)
Example waitForSlot_overtaken :
  RateLimiter.turn 1 1000 500 [0] = (RateLimiter.Blocked (Some 510), [0])
  /\ RateLimiter.waitForSlot 1 1000 [([], 500); ([1005], 1010)] [0] = (None, [1005])
  /\ RateLimiter.waitForSlot 1 1000 [([], 500); ([1005], 1010); ([], 2015)] [0]
     = (Some 2015, [2015]).
Proof. vm_compute. repeat split. Qed.
(* ================================================================== *)
(** * Further properties of the provider rotation *)
(* ================================================================== *)

Section RotationMore.
Import RpcFallback.
Variable rpcProviders : list RpcProviderConfig.
Context {T : Type}.

Abbreviation provider_count := (length rpcProviders).
Abbreviation sound_here := (sound (T:=T) rpcProviders).

(** While nothing is rejected, every call is served on its first attempt by
    the provider that was active at the start. *)
Lemma step_unrejected i (sys : System T) e :
  sound_here sys -> (0 < provider_count)%nat ->
  activeProviderIndex (shared sys) = i ->
  (calls sys <> [] -> activeClient (shared sys) = Some (clientAt rpcProviders i)) ->
  Forall (servedFirst rpcProviders i) (calls sys) ->
  unrejected e ->
  activeProviderIndex (shared (step rpcProviders sys e)) = i
  /\ (calls (step rpcProviders sys e) <> [] ->
      activeClient (shared (step rpcProviders sys e)) = Some (clientAt rpcProviders i))
  /\ Forall (servedFirst rpcProviders i) (calls (step rpcProviders sys e))
  /\ (forall c, activeClient (shared sys) = Some c ->
                activeClient (shared (step rpcProviders sys e)) = Some c).
Proof.
  intros [Hcons Hall] Hpos Hidx Hcached Hserved Hun.
  pose proof (consistent_in_range rpcProviders _ Hcons Hpos) as Hlt.
  destruct e as [| j outcome]; cbn [step].
  - unfold withFallback. destruct provider_count as [| n] eqn:Hn; [lia |].
    rewrite resume_some by (rewrite ?Hn; assumption).
    cbn [shared calls fst snd activeProviderIndex activeClient]. rewrite Hidx.
    split; [reflexivity |]. split; [reflexivity |]. split.
    + apply Forall_app. split; [exact Hserved |].
      constructor; [| constructor]. left. split; reflexivity.
    + intros c Hc. destruct Hcons as [_ Hbuilt].
      destruct (Hbuilt c Hc) as (p & Hp & ->). rewrite Hidx in Hp.
      now rewrite (clientAt_lookup rpcProviders _ _ Hp).
  - destruct (calls sys !! j) as [[[attempt client | result] l] |] eqn:Hj;
      try (repeat split; solve [assumption | intros; assumption]).
    destruct outcome as [v |]; [| now contradiction Hun].
    cbn [settle shared calls fst snd].
    pose proof (proj1 (Forall_lookup _ _) Hserved _ _ Hj) as Hfirst.
    destruct Hfirst as [[Hprog Hlog] | (w & Hprog & _)];
      cbn [progress log] in *; [| discriminate].
    injection Hprog as -> ->. subst l.
    split; [exact Hidx |]. split.
    + intros _. apply Hcached. intros Hnil. rewrite Hnil in Hj. discriminate.
    + split; [| intros c Hc; exact Hc].
      apply Forall_insert; [exact Hserved |]. right. exists v. split; reflexivity.
Qed.

Lemma run_unrejected i events :
  forall sys : System T,
    sound_here sys -> (0 < provider_count)%nat ->
    activeProviderIndex (shared sys) = i ->
    (calls sys <> [] -> activeClient (shared sys) = Some (clientAt rpcProviders i)) ->
    Forall (servedFirst rpcProviders i) (calls sys) ->
    Forall unrejected events ->
    activeProviderIndex (shared (run rpcProviders sys events)) = i
    /\ (calls (run rpcProviders sys events) <> [] ->
        activeClient (shared (run rpcProviders sys events))
        = Some (clientAt rpcProviders i))
    /\ Forall (servedFirst rpcProviders i) (calls (run rpcProviders sys events))
    /\ (forall c, activeClient (shared sys) = Some c ->
                  activeClient (shared (run rpcProviders sys events)) = Some c).
Proof.
  induction events as [| e events IH]; intros sys Hs Hpos Hidx Hcached Hserved Hun.
  - cbn. repeat split; try assumption. intros c Hc. exact Hc.
  - apply Forall_cons in Hun as [He Hrest].
    destruct (step_unrejected i sys e Hs Hpos Hidx Hcached Hserved He)
      as (Hidx' & Hcached' & Hserved' & Hkeep).
    destruct (IH (step rpcProviders sys e) (step_sound rpcProviders sys e Hs)
                 Hpos Hidx' Hcached' Hserved' Hrest)
      as (Hidx'' & Hcached'' & Hserved'' & Hkeep').
    change (run rpcProviders sys (e :: events))
      with (run rpcProviders (step rpcProviders sys e) events).
    repeat split; try assumption. intros c Hc. apply Hkeep', Hkeep, Hc.
Qed.

(** X6.  While no awaited attempt is rejected the active provider stays,
    however many calls of [withFallback] start and overlap: the index does
    not move, a cached client is kept, the client of the active provider is
    cached once a call has started, and every call is handed that client on
    its first attempt and returns what that attempt resolves to. *)
Theorem withFallback_sticks_to_working_provider (st : State) events :
  consistent rpcProviders st ->
  (0 < length rpcProviders)%nat ->
  Forall (@unrejected T) events ->
  activeProviderIndex (shared (run rpcProviders {| shared := st; calls := [] |} events))
  = activeProviderIndex st
  /\ (forall c, activeClient st = Some c ->
        activeClient (shared (run rpcProviders {| shared := st; calls := [] |} events))
        = Some c)
  /\ (calls (run rpcProviders {| shared := st; calls := [] |} events) <> [] ->
      activeClient (shared (run rpcProviders {| shared := st; calls := [] |} events))
      = Some (clientAt rpcProviders (activeProviderIndex st)))
  /\ (forall id call,
        calls (run rpcProviders {| shared := st; calls := [] |} events) !! id = Some call ->
        (progress call = Awaiting 0 (clientAt rpcProviders (activeProviderIndex st))
         /\ log call = [])
        \/ exists v, progress call = Finished (inr v)
             /\ log call = [(clientAt rpcProviders (activeProviderIndex st), Some v)]).
Proof.
  intros Hcons Hpos Hun.
  destruct (run_unrejected (activeProviderIndex st) events
              {| shared := st; calls := [] |}
              (initial_sound rpcProviders st Hcons) Hpos eq_refl
              (fun H => False_ind _ (H eq_refl)) (List.Forall_nil _) Hun)
    as (Hidx & Hcached & Hserved & Hkeep).
  split; [exact Hidx |]. split; [exact Hkeep |]. split; [exact Hcached |].
  intros id call Hcall. exact (proj1 (Forall_lookup _ _) Hserved _ _ Hcall).
Qed.

(** X30.  Calls of [withFallback] that start and settle in any order, from a
    consistent provider state.  The state stays consistent.  Every call
    makes at most [providerCount] attempts, returns the value of its first
    attempt that resolves, throws nothing but "All RPC providers failed",
    and throws it after exactly [providerCount] rejected attempts.  A
    rejection advances the shared index by one modulo [providerCount] and
    drops the cached client, which is rebuilt from the new provider when the
    call goes on.  A call none of whose neighbours is rejected while it runs
    tries the providers in rotation order from the index it found, and
    throws exactly when its attempts are one rejected attempt on each
    provider of the list. *)
Theorem withFallback_interleaved_bounds (st : State) (events : list (Event T)) :
  consistent rpcProviders st ->
  consistent rpcProviders
    (shared (run rpcProviders {| shared := st; calls := [] |} events))
  /\ (forall id call,
        calls (run rpcProviders {| shared := st; calls := [] |} events) !! id
        = Some call ->
        (length (log call) <= length rpcProviders)%nat
        /\ (forall v, progress call = Finished (inr v) ->
              exists fails client,
                log call = fails ++ [(client, Some v)] /\ Forall rejected fails)
        /\ (forall e, progress call = Finished (inl e) ->
              e = AllProvidersFailed
              /\ length (log call) = length rpcProviders
              /\ Forall rejected (log call))
        /\ (forall attempt client, progress call = Awaiting attempt client ->
              attempt = length (log call)
              /\ (attempt < length rpcProviders)%nat
              /\ Forall rejected (log call)))
  /\ (forall earlier id attempt client l,
        events = earlier ++ [Settle id None] ->
        calls (run rpcProviders {| shared := st; calls := [] |} earlier) !! id
        = Some {| progress := Awaiting attempt client; log := l |} ->
        activeProviderIndex
          (shared (run rpcProviders {| shared := st; calls := [] |} events))
        = Nat.modulo
            (activeProviderIndex
               (shared (run rpcProviders {| shared := st; calls := [] |} earlier)) + 1)
            (length rpcProviders)
        /\ activeClient
             (shared (run rpcProviders {| shared := st; calls := [] |} events))
           = if (S attempt <? length rpcProviders)%nat
             then Some (clientAt rpcProviders
                          (activeProviderIndex
                             (shared (run rpcProviders {| shared := st; calls := [] |}
                                        events))))
             else None)
  /\ (forall earlier later,
        events = earlier ++ Enter :: later ->
        Forall (undisturbed
                  (length (calls (run rpcProviders {| shared := st; calls := [] |}
                                    earlier))))
               later ->
        exists call,
          calls (run rpcProviders {| shared := st; calls := [] |} events)
            !! length (calls (run rpcProviders {| shared := st; calls := [] |} earlier))
          = Some call
          /\ List.map fst (log call)
             = List.map
                 (fun k =>
                    clientAt rpcProviders
                      (rotated rpcProviders
                         (activeProviderIndex
                            (shared (run rpcProviders {| shared := st; calls := [] |}
                                       earlier))) k))
                 (seq 0 (length (log call)))
          /\ (progress call = Finished (inl AllProvidersFailed)
              <-> log call
                  = failedPass rpcProviders
                      (activeProviderIndex
                         (shared (run rpcProviders {| shared := st; calls := [] |}
                                    earlier)))
                      (length rpcProviders))
          /\ (progress call = Finished (inl AllProvidersFailed) ->
              forall p, In p rpcProviders ->
                        In (createBaseClient (url p), None) (log call))).
Proof.
  intros Hcons.
  pose proof (initial_sound (T:=T) rpcProviders st Hcons) as H0.
  set (sys0 := {| shared := st; calls := [] |}) in *.
  pose proof (run_sound rpcProviders events sys0 H0) as [Hfinal Hall].
  split; [exact Hfinal |]. split; [| split].
  - intros id call Hcall.
    pose proof (proj1 (Forall_lookup _ _) Hall _ _ Hcall) as Hwf.
    unfold wellFormed in Hwf.
    destruct (progress call) as [attempt client | [e | v]] eqn:Hprog.
    + destruct Hwf as (Hatt & Hlt & Hrej).
      split; [lia |]. split; [intros v [=] |]. split; [intros e [=] |].
      intros a c [= <- <-]. repeat split; assumption.
    + destruct Hwf as (-> & Hlen & Hrej).
      split; [lia |]. split; [intros v [=] |].
      split; [intros e [= <-]; repeat split; assumption | intros a c [=]].
    + destruct Hwf as (Hlen & fails & client & Hlog & Hrej).
      split; [exact Hlen |]. split.
      { intros v' [= <-]. exists fails, client. split; assumption. }
      split; [intros e [=] | intros a c [=]].
  - intros earlier id attempt client l -> Hcall.
    rewrite run_app.
    pose proof (run_sound rpcProviders earlier sys0 H0) as [Hmid Hmidall].
    set (mid := run rpcProviders sys0 earlier) in *.
    pose proof (proj1 (Forall_lookup _ _) Hmidall _ _ Hcall) as Hwf.
    unfold wellFormed in Hwf. cbn [progress log] in Hwf.
    destruct Hwf as (Hatt & Hlt & Hrej).
    change (run rpcProviders mid [Settle id None])
      with (step rpcProviders mid (Settle id None)).
    cbn [step]. rewrite Hcall. cbn [settle shared].
    assert (Hpos : (0 < length rpcProviders)%nat) by lia.
    pose proof (rotateProvider_consistent rpcProviders (shared mid) Hpos) as Hrot.
    destruct (length rpcProviders - S attempt)%nat as [| turns] eqn:Hturns.
    + rewrite resume_none. cbn [snd rotateProvider activeProviderIndex activeClient].
      split; [reflexivity |].
      destruct (Nat.ltb_spec (S attempt) (length rpcProviders)); [lia | reflexivity].
    + rewrite resume_some
        by (first [exact Hrot | apply consistent_in_range; assumption]).
      cbn [snd rotateProvider activeProviderIndex activeClient].
      split; [reflexivity |].
      destruct (Nat.ltb_spec (S attempt) (length rpcProviders)); [reflexivity | lia].
  - intros earlier later -> Hund.
    pose proof (run_sound rpcProviders earlier sys0 H0) as Hmid.
    set (mid := run rpcProviders sys0 earlier) in *.
    assert (Hrun : run rpcProviders sys0 (earlier ++ Enter :: later)
                   = run rpcProviders (step rpcProviders mid Enter) later).
    { rewrite run_app. reflexivity. }
    rewrite Hrun in *.
    pose proof (run_tracked rpcProviders _ _ later _
                  (step_sound rpcProviders mid Enter Hmid)
                  (enter_tracked rpcProviders mid Hmid) Hund)
      as (call & Hcall & Hlog & _).
    exists call. split; [exact Hcall |]. split; [exact Hlog |].
    pose proof (proj1 (Forall_lookup _ _) Hall _ _ Hcall) as Hwf.
    unfold wellFormed in Hwf.
    assert (Hiff : progress call = Finished (inl AllProvidersFailed)
                   <-> log call
                       = failedPass rpcProviders (activeProviderIndex (shared mid))
                           (length rpcProviders)).
    { split.
      - intros Hprog. rewrite Hprog in Hwf. destruct Hwf as (_ & Hlen & Hrej).
        rewrite <- Hlen. now apply failedPass_of_log.
      - intros Hpass.
        destruct (progress call) as [attempt client | [e | v]].
        + destruct Hwf as (Hatt & Hlt & _).
          rewrite Hpass, failedPass_length in Hatt. lia.
        + destruct Hwf as (-> & _). reflexivity.
        + destruct Hwf as (_ & fails & client & Hlog' & _).
          pose proof (failedPass_rejected (T:=T) rpcProviders
                        (activeProviderIndex (shared mid)) (length rpcProviders))
            as Hrej.
          rewrite <- Hpass, Hlog' in Hrej. apply Forall_app in Hrej as [_ Hlast].
          apply Forall_cons in Hlast as [Hlast _]. discriminate Hlast. }
    split; [exact Hiff |].
    intros Hprog p Hin. rewrite (proj1 Hiff Hprog).
    apply list_elem_of_In, list_elem_of_lookup in Hin. destruct Hin as [t Ht].
    pose proof (lookup_lt_Some _ _ _ Ht) as Htlt.
    rewrite <- (clientAt_lookup rpcProviders _ _ Ht).
    apply failedPass_covers; [| exact Htlt].
    apply consistent_in_range; [exact (proj1 Hmid) | lia].
Qed.

End RotationMore.

Section FallbackFetches.
Import RpcFallback RpcCalls DataFetcher.
Variable rpcProviders : list RpcProviderConfig.

(** X7.  [fetchBalanceWithFallback] resolves to a non-zero explorer balance
    as it is, with no RPC call and no change of the provider state.  On a
    zero explorer balance it starts one call of [withFallback].  While that
    call runs without a neighbour being rejected, the fetch resolves to the
    answer of the first provider, in rotation order from the index the call
    found, whose attempt resolves, and to the explorer's zero after one
    rejected attempt on each provider; it resolves to nothing else. *)
Theorem fetchBalanceWithFallback_cross_check
    (st : State) (earlier later : list (Event RpcValue)) (basescanBalance : Z) :
  consistent rpcProviders st ->
  Forall (undisturbed
            (length (calls (run rpcProviders {| shared := st; calls := [] |} earlier))))
         later ->
  (basescanBalance <> 0 ->
   fetchBalanceWithFallback rpcProviders basescanBalance
     (run rpcProviders {| shared := st; calls := [] |} earlier)
   = (Resolved (Wei basescanBalance),
      run rpcProviders {| shared := st; calls := [] |} earlier)
   /\ forall sys, balanceResolved basescanBalance (Resolved (Wei basescanBalance)) sys
                  = Some (Wei basescanBalance))
  /\ (basescanBalance = 0 ->
      fetchBalanceWithFallback rpcProviders basescanBalance
        (run rpcProviders {| shared := st; calls := [] |} earlier)
      = (ViaRpc (length (calls (run rpcProviders {| shared := st; calls := [] |}
                                  earlier))),
         run rpcProviders {| shared := st; calls := [] |} (earlier ++ [Enter]))
      /\ exists call,
           calls (run rpcProviders {| shared := st; calls := [] |}
                    (earlier ++ Enter :: later))
             !! length (calls (run rpcProviders {| shared := st; calls := [] |} earlier))
           = Some call
           /\ forall value,
                balanceResolved basescanBalance
                  (ViaRpc (length (calls (run rpcProviders
                                            {| shared := st; calls := [] |} earlier))))
                  (run rpcProviders {| shared := st; calls := [] |}
                     (earlier ++ Enter :: later))
                = Some value
                <-> (exists k, (k < length rpcProviders)%nat
                       /\ log call
                          = failedPass rpcProviders
                              (activeProviderIndex
                                 (shared (run rpcProviders
                                            {| shared := st; calls := [] |} earlier)))
                              k
                            ++ [(clientAt rpcProviders
                                   (rotated rpcProviders
                                      (activeProviderIndex
                                         (shared (run rpcProviders
                                                    {| shared := st; calls := [] |}
                                                    earlier)))
                                      k),
                                 Some value)])
                    \/ (value = Wei 0
                        /\ log call
                           = failedPass rpcProviders
                               (activeProviderIndex
                                  (shared (run rpcProviders
                                             {| shared := st; calls := [] |} earlier)))
                               (length rpcProviders))).
Proof.
  intros Hcons Hund.
  pose proof (initial_sound (T:=RpcValue) rpcProviders st Hcons) as H0.
  set (sys0 := {| shared := st; calls := [] |}) in *.
  pose proof (run_sound rpcProviders earlier sys0 H0) as Hmid.
  set (mid := run rpcProviders sys0 earlier) in *.
  unfold fetchBalanceWithFallback, getBalanceViaRpc.
  split.
  - intros Hnz. apply Z.eqb_neq in Hnz. rewrite Hnz. split; reflexivity.
  - intros ->. cbn [Z.eqb]. split.
    { rewrite run_app. reflexivity. }
    assert (Hrun : run rpcProviders sys0 (earlier ++ Enter :: later)
                   = run rpcProviders (step rpcProviders mid Enter) later).
    { rewrite run_app. reflexivity. }
    rewrite Hrun.
    pose proof (step_sound rpcProviders mid Enter Hmid) as Hentered.
    pose proof (run_tracked rpcProviders _ _ later _ Hentered
                  (enter_tracked rpcProviders mid Hmid) Hund)
      as (call & Hcall & Hlog & _).
    pose proof (run_sound rpcProviders later _ Hentered) as [_ Hall].
    pose proof (proj1 (Forall_lookup _ _) Hall _ _ Hcall) as Hwf.
    exists call. split; [exact Hcall |].
    intros value. unfold balanceResolved. rewrite Hcall. cbn [fmap option_fmap option_map].
    unfold wellFormed in Hwf.
    set (i := activeProviderIndex (shared mid)) in *.
    pose proof (failedPass_rejected (T:=RpcValue) rpcProviders i) as Hpass.
    destruct (progress call) as [attempt client | [e | v]].
    + (* still waiting *)
      destruct Hwf as (Hatt & Hlt & Hrej). split; [discriminate |].
      intros [(k & _ & Hk) | (_ & Hfull)].
      * rewrite Hk in Hrej. apply Forall_app in Hrej as [_ Hlast].
        apply Forall_cons in Hlast as [Hlast _]. discriminate Hlast.
      * rewrite Hfull, failedPass_length in Hatt. lia.
    + (* thrown: the explorer's zero *)
      destruct Hwf as (-> & Hlen & Hrej). split.
      * intros [= <-]. right. split; [reflexivity |].
        rewrite <- Hlen. now apply failedPass_of_log.
      * intros [(k & _ & Hk) | (-> & _)]; [| reflexivity].
        rewrite Hk in Hrej. apply Forall_app in Hrej as [_ Hlast].
        apply Forall_cons in Hlast as [Hlast _]. discriminate Hlast.
    + (* returned *)
      destruct Hwf as (Hlen & fails & client & Hlog' & Hrej). split.
      * intros [= <-]. left. exists (length fails).
        rewrite Hlog' in Hlen, Hlog. rewrite length_app in Hlen, Hlog.
        cbn [length] in Hlen, Hlog.
        split; [lia |].
        rewrite Nat.add_1_r, seq_S, !List.map_app in Hlog. cbn [List.map fst] in Hlog.
        apply app_inj_tail in Hlog as [Hfails Hclient].
        cbn [Nat.add] in Hclient. subst client. rewrite Hlog'. f_equal.
        now apply failedPass_of_log.
      * intros [(k & _ & Hk) | (_ & Hfull)].
        -- rewrite Hlog' in Hk. apply app_inj_tail in Hk as [_ [= _ ->]]. reflexivity.
        -- specialize (Hpass (length rpcProviders)).
           rewrite <- Hfull, Hlog' in Hpass. apply Forall_app in Hpass as [_ Hlast].
           apply Forall_cons in Hlast as [Hlast _]. discriminate Hlast.
Qed.

End FallbackFetches.

Section RotationMoreExamples.
Import JsString RpcFallback RpcCalls DataFetcher Samples FetchSamples.

Lemma withFallback_sticks_to_working_provider_witness :
  activeProviderIndex
    (shared (run sampleProviders atStartup
               [ Enter; Enter; Settle 1 (Some 7); Settle 0 (Some 9); Enter ]))
  = 0%nat
  /\ calls (run sampleProviders atStartup
              [ Enter; Enter; Settle 1 (Some 7); Settle 0 (Some 9); Enter ]) !! 1%nat
     = Some {| progress := Finished (inr 7); log := [(basePublic, Some 7)] |}.
Proof.
  assert (Hun : Forall (@unrejected Z)
                  [ Enter; Enter; Settle 1 (Some 7); Settle 0 (Some 9); Enter ]).
  { repeat constructor; discriminate. }
  destruct (withFallback_sticks_to_working_provider sampleProviders initialRpcState _
              (initial_state_consistent _) (Nat.lt_0_succ 2) Hun) as (Hidx & _).
  split; [exact Hidx | reflexivity].
Defined.

Lemma withFallback_interleaved_bounds_witness :
  consistent sampleProviders (shared (run sampleProviders atStartup ankrAnswers))
  /\ calls (run sampleProviders atStartup ankrAnswers)
     = [ {| progress := Finished (inr 2500000000000000000);
            log := [ (basePublic, None); (ankr, Some 2500000000000000000) ] |} ].
Proof.
  split; [| reflexivity].
  exact (proj1 (withFallback_interleaved_bounds sampleProviders initialRpcState
                  ankrAnswers (initial_state_consistent _))).
Defined.

(** The balance call on its own, Base Public and Ankr down: the fetch
    resolves to the 2.5 ETH that 1RPC reports. *)
Lemma fetchBalanceWithFallback_cross_check_witness :
  balanceResolved 0 (ViaRpc 0) (run sampleProviders atStartup (Enter :: balanceAlone))
  = Some (Wei 2500000000000000000)
  /\ exists k, (k < 3)%nat
       /\ List.map fst
            (default [] (log <$> calls (run sampleProviders atStartup
                                          (Enter :: balanceAlone)) !! 0%nat))
          = List.map (fun j => clientAt sampleProviders j) (seq 0 (S k)).
Proof.
  assert (Hund : Forall (undisturbed
                           (length (calls (run sampleProviders
                                             {| shared := initialRpcState; calls := [] |}
                                             (@nil (Event RpcValue))))))
                   balanceAlone).
  { repeat constructor. }
  destruct (fetchBalanceWithFallback_cross_check sampleProviders initialRpcState
              [] balanceAlone 0 (initial_state_consistent _) Hund)
    as (_ & Hzero).
  destruct (Hzero eq_refl) as (_ & call & Hcall & Hiff).
  vm_compute in Hcall. injection Hcall as <-.
  split.
  - apply (proj2 (Hiff (Wei 2500000000000000000))).
    left. exists 2%nat. split; [simpl length; lia | reflexivity].
  - exists 2%nat. split; [lia | reflexivity].
Defined.

(** The same wallet inside [fetchWalletData], where the contract check runs
    its own call at the same time: the balance call is handed Base Public,
    Ankr and Base Public again, throws, and the fetch resolves to the
    explorer's zero; 1RPC is asked for the code only. *)
Example fetchWalletData_overlapping_fallbacks :
  fst bothFetches = (ViaRpc 0%nat, ViaRpc 1%nat)
  /\ balanceResolved 0 (ViaRpc 0)
       (run sampleProviders (snd bothFetches) twoProvidersDown)
     = Some (Wei 0)
  /\ isContractResolved false (ViaRpc 1)
       (run sampleProviders (snd bothFetches) twoProvidersDown)
     = Some false
  /\ List.map log (calls (run sampleProviders (snd bothFetches) twoProvidersDown))
     = [ [ (basePublic, None); (ankr, None); (basePublic, None) ];
         [ (basePublic, None); (oneRpc, Some (Code None)) ] ].
Proof. vm_compute. repeat split. Qed.

End RotationMoreExamples.

(* ================================================================== *)
(** * Properties of the aggregator *)
(* ================================================================== *)

Section AggregatorFacts.
Import JsString DataFetcher.

Lemma distinctFrom_In (l : list (list Z)) :
  forall seen x, In x (distinctFrom seen l) <-> In x l /\ ~ In x seen.
Proof.
  induction l as [| y l IH]; intros seen x; cbn [distinctFrom].
  - simpl. tauto.
  - destruct (bool_decide_reflect (y ∈ seen)) as [Hin | Hout].
    + rewrite IH. rewrite list_elem_of_In in Hin. simpl.
      split; [tauto |]. intros [[-> | H] Hn]; [contradiction | tauto].
    + rewrite list_elem_of_In in Hout. simpl. rewrite IH. simpl.
      split.
      * intros [-> | [H Hn]]; [tauto |]. split; [tauto |]. tauto.
      * intros [[-> | H] Hn]; [tauto |].
        destruct (decide (y = x)) as [-> | Hne]; [tauto |]. right. tauto.
Qed.

Lemma distinctFrom_NoDup (l : list (list Z)) :
  forall seen, List.NoDup (distinctFrom seen l).
Proof.
  induction l as [| y l IH]; intros seen; cbn [distinctFrom]; [constructor |].
  destruct (bool_decide (y ∈ seen)); [apply IH |].
  constructor; [| apply IH]. rewrite distinctFrom_In. simpl. tauto.
Qed.

Lemma interactedAddresses_In txs tokenTxs addr :
  In addr (interactedAddresses txs tokenTxs)
  <-> In addr (counterparties txs tokenTxs) /\ addr <> [].
Proof.
  unfold interactedAddresses, distinct. rewrite distinctFrom_In, filter_In.
  unfold nonEmpty. destruct addr; simpl; intuition congruence.
Qed.

Lemma interactionFlags_In (localScamDb : gmap (list Z) ScamDb.LocalMatch)
    (addresses : list (list Z)) (f : ScamFlag.t) :
  In f (interactionFlags localScamDb addresses)
  <-> exists addr m,
        In addr addresses /\ KnownContracts.isWhitelisted addr = false
        /\ localScamDb !! toLowerCase addr = Some m
        /\ f = interactionFlag addr (ScamDb.localFlag m).
Proof.
  unfold interactionFlags. rewrite in_flat_map. split.
  - intros (addr & Hin & Hf). rewrite batchCheckLocal_lookup in Hf.
    destruct (bool_decide (addr ∈ addresses)); [| contradiction].
    destruct (KnownContracts.isWhitelisted addr) eqn:Hwl; [contradiction |].
    cbn [negb andb] in Hf.
    destruct (localScamDb !! toLowerCase addr) as [m |] eqn:Hm; [| contradiction].
    destruct Hf as [<- | []]. exists addr, m.
    split; [exact Hin |]. split; [exact Hwl |]. split; [exact Hm | reflexivity].
  - intros (addr & m & Hin & Hwl & Hm & ->). exists addr. split; [exact Hin |].
    rewrite batchCheckLocal_lookup, Hwl, Hm.
    rewrite bool_decide_eq_true_2 by (apply list_elem_of_In; exact Hin).
    left; reflexivity.
Qed.

Lemma flat_map_length_le {A B : Type} (f : A -> list B) (l : list A) :
  (forall x, length (f x) <= 1)%nat -> (length (flat_map f l) <= length l)%nat.
Proof.
  intros H. induction l as [| x l IH]; simpl; [lia |].
  rewrite length_app. specialize (H x). lia.
Qed.

(** X8.  The flags of the aggregated wallet are the flags the registry
    returned for the address itself followed by one synthesized flag per
    distinct non-empty counterparty that is not whitelisted and matches the
    local table; its description names the counterparty.  A whitelisted or
    unmatched counterparty adds nothing. *)
Theorem fetchWalletData_flags (nowMs : Z) (address : list Z)
    (localScamDb : gmap (list Z) ScamDb.LocalMatch) (settled : Settled) :
  WalletData.scamFlags (fetchWalletData nowMs address localScamDb settled)
    = default [] (scamFlags settled)
      ++ interactionFlags localScamDb
           (interactedAddresses (default [] (transactions settled))
                                (default [] (tokenTransfers settled)))
  /\ (forall f,
        In f (interactionFlags localScamDb
                (interactedAddresses (default [] (transactions settled))
                                     (default [] (tokenTransfers settled))))
        <-> exists addr m,
              In addr (counterparties (default [] (transactions settled))
                                      (default [] (tokenTransfers settled)))
              /\ addr <> []
              /\ KnownContracts.isWhitelisted addr = false
              /\ localScamDb !! toLowerCase addr = Some m
              /\ f = interactionFlag addr (ScamDb.localFlag m))
  /\ List.NoDup (interactedAddresses (default [] (transactions settled))
                                     (default [] (tokenTransfers settled)))
  /\ (length (interactionFlags localScamDb
                (interactedAddresses (default [] (transactions settled))
                                     (default [] (tokenTransfers settled))))
      <= length (interactedAddresses (default [] (transactions settled))
                                     (default [] (tokenTransfers settled))))%nat.
Proof.
  split; [reflexivity |]. split; [| split].
  - intros f. rewrite interactionFlags_In. split.
    + intros (addr & m & Hin & Hrest). apply interactedAddresses_In in Hin.
      exists addr, m. tauto.
    + intros (addr & m & Hin & Hne & Hrest). exists addr, m.
      split; [apply interactedAddresses_In; tauto | exact Hrest].
  - apply distinctFrom_NoDup.
  - apply flat_map_length_le. intros addr.
    destruct (ScamDb.batchCheckLocal _ _ !! addr); simpl; lia.
Qed.

(** X9.  When the transaction, internal-transaction, token-transfer, flag
    and first-transaction sources all fail or come back empty, the
    aggregation still yields a wallet, of unknown age, and the engine scores
    it 24, LOW, whatever the address, the time, the balance and the contract
    check. *)
Theorem fetchWalletData_outage_scores_low (nowMs : Z) (address : list Z)
    (localScamDb : gmap (list Z) ScamDb.LocalMatch) (settled : Settled) :
  default [] (transactions settled) = [] ->
  default [] (internalTransactions settled) = [] ->
  default [] (tokenTransfers settled) = [] ->
  default [] (scamFlags settled) = [] ->
  default None (firstTx settled) = None ->
  WalletData.accountAge (fetchWalletData nowMs address localScamDb settled) = None
  /\ WalletData.scamFlags (fetchWalletData nowMs address localScamDb settled) = []
  /\ RiskScorer.score
       (RiskScorer.computeRiskScore (fetchWalletData nowMs address localScamDb settled))
     = 24
  /\ RiskScorer.level
       (RiskScorer.computeRiskScore (fetchWalletData nowMs address localScamDb settled))
     = LOW.
Proof.
  intros Htx Hint Htok Hflags Hfirst.
  unfold fetchWalletData. rewrite Htx, Hint, Htok, Hflags, Hfirst.
  vm_compute. repeat split.
Qed.

(** X10.  The first-transaction timestamp is the one of the dedicated
    query when it is positive, whatever the batches hold; failing that it is
    the smallest positive timestamp of the transaction and internal
    batches; it is absent exactly when there is neither, and then the
    account age is unknown. *)
Theorem fetchWalletData_first_timestamp (nowMs : Z) (address : list Z)
    (localScamDb : gmap (list Z) ScamDb.LocalMatch) (settled : Settled) :
  (forall tx, firstTx settled = Some (Some tx) ->
     BasescanTransaction.timeStamp tx > 0 ->
     WalletData.firstTxTimestamp (fetchWalletData nowMs address localScamDb settled)
       = Some (BasescanTransaction.timeStamp tx)
     /\ WalletData.accountAge (fetchWalletData nowMs address localScamDb settled)
        = Some (JsNumber.ofZ (nowMs / 1000 - BasescanTransaction.timeStamp tx)))
  /\ (default None (firstTx settled) = None ->
        forall ts,
          WalletData.firstTxTimestamp (fetchWalletData nowMs address localScamDb settled)
            = Some ts
          <-> In ts (positiveTimestamps (default [] (transactions settled))
                                        (default [] (internalTransactions settled)))
              /\ forall t, In t (positiveTimestamps (default [] (transactions settled))
                                   (default [] (internalTransactions settled))) ->
                           ts <= t)
  /\ (WalletData.firstTxTimestamp (fetchWalletData nowMs address localScamDb settled) = None
        -> WalletData.accountAge (fetchWalletData nowMs address localScamDb settled) = None)
  /\ (forall ts,
        WalletData.firstTxTimestamp (fetchWalletData nowMs address localScamDb settled)
          = Some ts -> 0 < ts).
Proof.
  assert (Hmin : forall l ts,
            minimum l = Some ts <-> In ts l /\ forall t, In t l -> ts <= t).
  { intros l ts. destruct l as [| x l]; simpl.
    - split; [discriminate | tauto].
    - assert (Hfold : forall l x, (In (fold_right Z.min x l) (x :: l))
                                  /\ forall t, In t (x :: l) -> fold_right Z.min x l <= t).
      { clear. induction l as [| y l IH]; intros x; simpl.
        - split; [tauto | intros t [<- | []]; lia].
        - destruct (IH x) as [Hin Hle]. simpl in Hin, Hle. split.
          + destruct (Z.min_spec y (fold_right Z.min x l)) as [[_ ->] | [_ ->]]; tauto.
          + intros t [<- | [<- | Ht]].
            * pose proof (Hle x (or_introl eq_refl)). lia.
            * lia.
            * pose proof (Hle t (or_intror Ht)). lia. }
      destruct (Hfold l x) as [Hin Hle]. split.
      + intros [= <-]. split; assumption.
      + intros [Hts Hlow]. f_equal.
        pose proof (Hle ts Hts). pose proof (Hlow _ Hin). lia. }
  split; [| split; [| split]].
  - intros tx Hfirst Hpos. unfold fetchWalletData. cbn [WalletData.firstTxTimestamp
      WalletData.accountAge]. unfold firstTxTimestampOf. rewrite Hfirst. cbn [default from_option id].
    destruct (Z.gtb_spec (BasescanTransaction.timeStamp tx) 0); [| lia].
    split; [reflexivity |]. unfold accountAgeOf.
    destruct (Z.eqb_spec (BasescanTransaction.timeStamp tx) 0); [lia | reflexivity].
  - intros Hnone ts. unfold fetchWalletData. cbn [WalletData.firstTxTimestamp].
    unfold firstTxTimestampOf. rewrite Hnone. apply Hmin.
  - unfold fetchWalletData. cbn [WalletData.firstTxTimestamp WalletData.accountAge].
    now intros ->.
  - intros ts. unfold fetchWalletData. cbn [WalletData.firstTxTimestamp].
    unfold firstTxTimestampOf.
    destruct (default None (firstTx settled)) as [tx |].
    + destruct (Z.gtb_spec (BasescanTransaction.timeStamp tx) 0) as [Hpos | _].
      * intros [= <-]. lia.
      * intros H. apply Hmin in H. destruct H as [Hin _].
        unfold positiveTimestamps in Hin. apply filter_In in Hin. lia.
    + intros H. apply Hmin in H. destruct H as [Hin _].
      unfold positiveTimestamps in Hin. apply filter_In in Hin. lia.
Qed.

End AggregatorFacts.

Section AggregatorExamples.
Import JsString DataFetcher Samples.

(** A wallet that paid the Uniswap router (whitelisted, though the early
    seed list flags it) and a Tornado Cash pool, twice. *)
Lemma fetchWalletData_flags_witness :
  List.map ScamFlag.description
    (WalletData.scamFlags
       (fetchWalletData 1700000000000 walletAddress (ScamDb.seedLocalDb earlySeeds ∅)
          {| transactions :=
               Some [ makeTx 1690000000 walletAddress universalRouterUpper 1 (js "0x");
                      makeTx 1690000100 walletAddress tornadoPool 1 (js "0x");
                      makeTx 1690000200 walletAddress tornadoPool 1 (js "0x") ];
             internalTransactions := None; tokenTransfers := None;
             balance := Some 5; contractCheck := Some false;
             scamFlags := Some []; firstTx := None |}))
  = [ js "Interacted with flagged address " ++ tornadoPool
      ++ js ": Tornado Cash 1 ETH pool." ].
Proof.
  destruct (fetchWalletData_flags 1700000000000 walletAddress
              (ScamDb.seedLocalDb earlySeeds ∅)
              {| transactions :=
                   Some [ makeTx 1690000000 walletAddress universalRouterUpper 1 (js "0x");
                          makeTx 1690000100 walletAddress tornadoPool 1 (js "0x");
                          makeTx 1690000200 walletAddress tornadoPool 1 (js "0x") ];
                 internalTransactions := None; tokenTransfers := None;
                 balance := Some 5; contractCheck := Some false;
                 scamFlags := Some []; firstTx := None |}) as [-> _].
  vm_compute. reflexivity.
Defined.

Lemma fetchWalletData_outage_scores_low_witness :
  RiskScorer.score
    (RiskScorer.computeRiskScore
       (fetchWalletData 1700000000000 walletAddress ∅ allRejected)) = 24.
Proof.
  apply (fetchWalletData_outage_scores_low 1700000000000 walletAddress ∅ allRejected);
    reflexivity.
Defined.

(** The dedicated query answers 1600000000 although the newest batch only
    reaches back to 1690000000: the age is counted from 1600000000. *)
Lemma fetchWalletData_first_timestamp_witness :
  WalletData.firstTxTimestamp
    (fetchWalletData 1700000000000 walletAddress ∅
       {| transactions := Some [makeTx 1690000000 walletAddress tornadoPool 1 (js "0x")];
          internalTransactions := None; tokenTransfers := None;
          balance := None; contractCheck := None; scamFlags := None;
          firstTx := Some (Some (makeTx 1600000000 walletAddress tornadoPool 1 (js "0x"))) |})
  = Some 1600000000.
Proof.
  destruct (fetchWalletData_first_timestamp 1700000000000 walletAddress ∅
       {| transactions := Some [makeTx 1690000000 walletAddress tornadoPool 1 (js "0x")];
          internalTransactions := None; tokenTransfers := None;
          balance := None; contractCheck := None; scamFlags := None;
          firstTx := Some (Some (makeTx 1600000000 walletAddress tornadoPool 1 (js "0x"))) |})
    as (Hded & _).
  apply (Hded _ eq_refl). simpl. lia.
Defined.

End AggregatorExamples.
(* ================================================================== *)
(** * More properties of the scam registry *)
(* ================================================================== *)

Section SeedingFacts.
Import JsString ScamDb ScamDbRemote.
Implicit Types (db : gmap (list Z) LocalMatch) (entries : list ScamSeedEntry).

Lemma seedLocalDb_app entries1 entries2 db :
  seedLocalDb (entries1 ++ entries2) db = seedLocalDb entries2 (seedLocalDb entries1 db).
Proof. unfold seedLocalDb. apply foldl_app. Qed.

Lemma seedLocalDb_cons e entries db :
  seedLocalDb (e :: entries) db
  = seedLocalDb entries
      (<[ toLowerCase (address e) :=
            {| matchCategory := category e; matchDescription := description e |} ]> db).
Proof. reflexivity. Qed.

(** Entries written under other keys leave the key [k] alone. *)
Lemma seedLocalDb_lookup_other (k : list Z) entries :
  Forall (fun e => toLowerCase (address e) <> k) entries ->
  forall db, seedLocalDb entries db !! k = db !! k.
Proof.
  induction 1 as [| e rest Hne _ IH]; intros db; [reflexivity |].
  rewrite seedLocalDb_cons, IH. now apply lookup_insert_ne.
Qed.

Lemma seedLocalDb_lookup_last (k : list Z) before e after db :
  toLowerCase (address e) = k ->
  Forall (fun e' => toLowerCase (address e') <> k) after ->
  seedLocalDb (before ++ e :: after) db !! k
  = Some {| matchCategory := category e; matchDescription := description e |}.
Proof.
  intros Hk Hafter.
  rewrite seedLocalDb_app, seedLocalDb_cons, (seedLocalDb_lookup_other k after Hafter).
  rewrite Hk. apply lookup_insert_eq.
Qed.

(** Either no entry is written under [k], or there is a last one. *)
Lemma last_entry_for (k : list Z) entries :
  Forall (fun e => toLowerCase (address e) <> k) entries
  \/ exists before e after,
       entries = before ++ e :: after
       /\ toLowerCase (address e) = k
       /\ Forall (fun e' => toLowerCase (address e') <> k) after.
Proof.
  induction entries as [| e rest IH]; [left; constructor |].
  destruct IH as [Hnone | (before & e' & after & -> & Hk & Hafter)].
  - destruct (decide (toLowerCase (address e) = k)) as [Hk | Hne].
    + right. exists [], e, rest. split; [reflexivity |]. split; assumption.
    + left. constructor; assumption.
  - right. exists (e :: before), e', after. split; [reflexivity |]. split; assumption.
Qed.

Lemma seedLocalDb_dom entries :
  forall db,
    dom (seedLocalDb entries db)
    = dom db ∪ list_to_set (List.map (fun e => toLowerCase (address e)) entries).
Proof.
  induction entries as [| e rest IH]; intros db.
  - cbn [List.map list_to_set]. now rewrite union_empty_r_L.
  - rewrite seedLocalDb_cons, IH, dom_insert_L. cbn [List.map list_to_set].
    rewrite (comm_L (∪) {[ toLowerCase (address e) ]} (dom db)).
    now rewrite (assoc_L (∪)).
Qed.

(** X11.  Checking an address after seeding: when the list holds an entry
    for the address (compared in lower case) and no later entry for it,
    the first flag is the local one with that entry's category and
    description, whether or not the address is a whitelisted contract;
    when no entry and no earlier content matches, there is no local flag.
    In both cases the remote flags follow, and a failed remote request adds
    nothing. *)
Theorem checkAddress_after_seeding db (address : list Z) (remote : option (list Report)) :
  (forall before e after,
      toLowerCase (ScamDb.address e) = toLowerCase address ->
      Forall (fun e' => toLowerCase (ScamDb.address e') <> toLowerCase address) after ->
      checkAddress (seedLocalDb (before ++ e :: after) db) address remote
      = {| ScamFlag.source := js "local";
           ScamFlag.category := category e;
           ScamFlag.description := description e;
           ScamFlag.reportedAt := None |} :: checkChainAbuse remote)
  /\ (forall entries,
        Forall (fun e' => toLowerCase (ScamDb.address e') <> toLowerCase address) entries ->
        db !! toLowerCase address = None ->
        checkAddress (seedLocalDb entries db) address remote = checkChainAbuse remote)
  /\ checkChainAbuse None = [].
Proof.
  split; [| split].
  - intros before e after Hk Hafter. unfold checkAddress.
    rewrite (seedLocalDb_lookup_last _ before e after db Hk Hafter). reflexivity.
  - intros entries Hnone Hdb. unfold checkAddress.
    rewrite (seedLocalDb_lookup_other _ entries Hnone), Hdb. reflexivity.
  - reflexivity.
Qed.

(** X12.  Seeding the same list twice changes nothing the second time, and
    the size of the registry grows by at most the number of entries and
    never shrinks; its keys are the old keys and the lower-cased addresses
    of the entries. *)
Theorem seedLocalDb_idempotent_and_size entries db :
  seedLocalDb entries (seedLocalDb entries db) = seedLocalDb entries db
  /\ getLocalDbSize db <= getLocalDbSize (seedLocalDb entries db)
     <= getLocalDbSize db + Z.of_nat (length entries)
  /\ forall k, is_Some (seedLocalDb entries db !! k)
               <-> is_Some (db !! k)
                   \/ exists e, In e entries /\ toLowerCase (ScamDb.address e) = k.
Proof.
  split; [| split].
  - apply map_eq. intros k.
    destruct (last_entry_for k entries)
      as [Hnone | (before & e & after & -> & Hk & Hafter)].
    + now rewrite (seedLocalDb_lookup_other k entries Hnone).
    + now rewrite !(seedLocalDb_lookup_last k before e after _ Hk Hafter).
  - unfold getLocalDbSize. rewrite <- !size_dom, seedLocalDb_dom.
    set (keys := List.map (fun e => toLowerCase (ScamDb.address e)) entries).
    assert (Hkeys : (size (list_to_set keys : gset (list Z)) <= length entries)%nat).
    { replace (length entries) with (length keys) by apply length_map.
      clear. induction keys as [| x keys IH]; cbn [list_to_set length].
      - rewrite size_empty. lia.
      - pose proof (size_union_alt ({[ x ]} : gset (list Z)) (list_to_set keys)) as Hu.
        pose proof (subseteq_size (list_to_set keys ∖ {[ x ]} : gset (list Z))
                      (list_to_set keys)) as Hd.
        rewrite size_singleton in Hu.
        assert ((list_to_set keys ∖ {[ x ]} : gset (list Z)) ⊆ list_to_set keys)
          by (intros y Hy; apply elem_of_difference in Hy; tauto).
        specialize (Hd ltac:(assumption)). lia. }
    pose proof (subseteq_size (dom db) (dom db ∪ list_to_set keys)) as Hlow.
    pose proof (size_union_alt (dom db) (list_to_set keys : gset (list Z))) as Hup.
    pose proof (subseteq_size (list_to_set keys ∖ dom db : gset (list Z))
                  (list_to_set keys)) as Hdiff.
    assert (dom db ⊆ dom db ∪ (list_to_set keys : gset (list Z)))
      by (intros y Hy; apply elem_of_union; now left).
    assert ((list_to_set keys ∖ dom db : gset (list Z)) ⊆ list_to_set keys)
      by (intros y Hy; apply elem_of_difference in Hy; tauto).
    specialize (Hlow ltac:(assumption)). specialize (Hdiff ltac:(assumption)). lia.
  - intros k. rewrite <- !elem_of_dom, seedLocalDb_dom, elem_of_union.
    rewrite elem_of_list_to_set, list_elem_of_In, in_map_iff.
    split; (intros [H | (e & H1 & H2)]; [left; exact H | right; exists e; tauto]).
Qed.

End SeedingFacts.

(* ================================================================== *)
(** * Properties of the contract labels *)
(* ================================================================== *)

Section LabelFacts.
Import JsString KnownContracts ContractLabels.

Lemma mapOfPairs_fold (pairs : list (list Z * list Z)) :
  forall (m : gmap (list Z) (list Z)) k v,
    List.NoDup (List.map fst pairs) ->
    foldl (fun m kv => <[ fst kv := snd kv ]> m) m pairs !! k = Some v
    <-> In (k, v) pairs \/ (~ In k (List.map fst pairs) /\ m !! k = Some v).
Proof.
  induction pairs as [| [k0 v0] rest IH]; intros m k v Hnd.
  - simpl. tauto.
  - inversion Hnd as [| ? ? Hout Hrest]; subst. cbn [foldl fst snd].
    rewrite (IH _ _ _ Hrest). cbn [List.map fst In].
    destruct (decide (k0 = k)) as [-> | Hne].
    + rewrite lookup_insert_eq. split.
      * intros [Hin | [_ [= <-]]]; [| left; left; reflexivity].
        exfalso. apply Hout. apply in_map_iff. exists (k, v). tauto.
      * intros [[[= <-] | Hin] | [Hn _]].
        -- right. tauto.
        -- exfalso. apply Hout. apply in_map_iff. exists (k, v). tauto.
        -- tauto.
    + rewrite lookup_insert_ne by exact Hne. split.
      * intros [Hin | [Hn Hm]]; [tauto |]. right. split; [| exact Hm].
        intros [-> | H]; tauto.
      * intros [[[= -> _] | Hin] | [Hn Hm]]; [congruence | tauto | tauto].
Qed.

Lemma knownContracts_distinct :
  List.NoDup (List.map fst
                (List.map (fun c => (toLowerCase (address c), label c)) knownContracts)).
Proof.
  apply NoDup_ListNoDup. apply (bool_decide_unpack _). vm_compute. exact I.
Qed.

Lemma getContractLabel_In (a l : list Z) :
  getContractLabel a = Some l
  <-> exists c, In c knownContracts
                /\ toLowerCase (address c) = toLowerCase a /\ label c = l.
Proof.
  unfold getContractLabel, contractLabels, mapOfPairs.
  rewrite (mapOfPairs_fold _ _ _ _ knownContracts_distinct), lookup_empty, in_map_iff.
  split.
  - intros [(c & [= Hk Hl] & Hin) | [_ [=]]]. exists c. tauto.
  - intros (c & Hin & Hk & Hl). left. exists c. split; [congruence | exact Hin].
Qed.

(** X13.  A label is found exactly for the whitelisted addresses, in any
    letter case, and it is the label of the table row with that address. *)
Theorem getContractLabel_iff_whitelisted (a : list Z) :
  (isWhitelisted a = true <-> exists l, getContractLabel a = Some l)
  /\ (forall l, getContractLabel a = Some l
                <-> exists c, In c knownContracts
                              /\ toLowerCase (address c) = toLowerCase a /\ label c = l)
  /\ getContractLabel (toLowerCase a) = getContractLabel a.
Proof.
  split; [| split].
  - unfold isWhitelisted, whitelistedAddresses.
    rewrite bool_decide_eq_true, elem_of_list_to_set, list_elem_of_In, in_map_iff.
    split.
    + intros (c & Hk & Hin). exists (label c). apply getContractLabel_In.
      exists c. tauto.
    + intros (l & Hl). apply getContractLabel_In in Hl.
      destruct Hl as (c & Hin & Hk & _). exists c. tauto.
  - intros l. apply getContractLabel_In.
  - unfold getContractLabel. f_equal. unfold toLowerCase. rewrite List.map_map.
    apply List.map_ext. intros c. unfold toLowerCaseUnit.
    destruct ((65 <=? c) && (c <=? 90)) eqn:Hup; [| now rewrite Hup].
    apply andb_prop in Hup.
    destruct (Z.leb_spec 65 (c + 32)); destruct (Z.leb_spec (c + 32) 90);
      cbn [andb]; lia.
Qed.

End LabelFacts.

(* ================================================================== *)
(** * Properties of the address utilities *)
(* ================================================================== *)

Section AddressFacts.
Import JsString Address AddressShape.

Lemma startsWith_0x (s : list Z) :
  startsWith s (js "0x") = true <-> exists rest, s = 48 :: 120 :: rest.
Proof.
  split.
  - destruct s as [| a [| b rest]]; cbn; try discriminate.
    + rewrite andb_false_r. discriminate.
    + intros H. apply andb_prop in H as [Ha H]. apply andb_prop in H as [Hb _].
      apply Z.eqb_eq in Ha, Hb. subst. now exists rest.
  - intros (rest & ->). reflexivity.
Qed.

Lemma matchesHere_shape (text : list Z) :
  matchesHere text = true <-> addressShape (take 42 text) = true.
Proof.
  unfold matchesHere, addressShape. split; intros H.
  - apply andb_prop in H as [H Hlen]. apply andb_prop in H as [Hpre Hhex].
    apply startsWith_0x in Hpre as (rest & ->). cbn [skipn] in *.
    rewrite drop_0 in Hlen, Hhex.
    apply Nat.eqb_eq in Hlen. rewrite length_take in Hlen.
    change (take 42 (48 :: 120 :: rest)) with (48 :: 120 :: take 40 rest).
    cbn [length skipn]. rewrite length_take, drop_0.
    replace (S (S (40 `min` length rest)) =? 42)%nat with true
      by (symmetry; apply Nat.eqb_eq; lia).
    rewrite Hhex. reflexivity.
  - apply andb_prop in H as [H Hhex]. apply andb_prop in H as [Hlen Hpre].
    apply Nat.eqb_eq in Hlen.
    apply startsWith_0x in Hpre as (rest & Hrest).
    destruct text as [| a [| b text]]; try discriminate.
    change (take 42 (a :: b :: text)) with (a :: b :: take 40 text) in *.
    injection Hrest as -> -> _. cbn [length skipn] in *. rewrite ?drop_0 in *.
    rewrite Hhex. cbn. apply Nat.eqb_eq. lia.
Qed.

Lemma shape_prefix (raw post : list Z) :
  addressShape raw = true -> take 42 (raw ++ post) = raw.
Proof.
  unfold addressShape. intros H.
  apply andb_prop in H as [H _]. apply andb_prop in H as [Hlen _].
  apply Nat.eqb_eq in Hlen. rewrite take_app_le by lia. apply take_ge. lia.
Qed.

Lemma matchAddress_cons (c : Z) (rest : list Z) :
  matchAddress (c :: rest)
  = if matchesHere (c :: rest) then Some (take 42 (c :: rest)) else matchAddress rest.
Proof. reflexivity. Qed.

Lemma matchAddress_found (text raw : list Z) :
  matchAddress text = Some raw ->
  exists pre post,
    text = pre ++ raw ++ post /\ addressShape raw = true
    /\ forall pre' raw' post',
         text = pre' ++ raw' ++ post' -> addressShape raw' = true ->
         (length pre <= length pre')%nat.
Proof.
  revert raw. induction text as [| c rest IH]; intros raw; [discriminate |].
  rewrite matchAddress_cons. destruct (matchesHere (c :: rest)) eqn:Hhere.
  - intros Heq. assert (Hraw : raw = take 42 (c :: rest)) by congruence.
    subst raw. clear Heq. exists [], (drop 42 (c :: rest)).
    split; [now rewrite app_nil_l, take_drop |].
    split; [now apply matchesHere_shape |]. intros; simpl; lia.
  - intros Hrest. destruct (IH _ Hrest) as (pre & post & -> & Hshape & Hleft).
    exists (c :: pre), post. split; [reflexivity |]. split; [exact Hshape |].
    intros pre' raw' post' Heq Hshape'. destruct pre' as [| c' pre'].
    + exfalso. cbn [app] in Heq.
      assert (Htrue : matchesHere (c :: pre ++ raw ++ post) = true).
      { apply matchesHere_shape. rewrite Heq. now rewrite shape_prefix. }
      congruence.
    + injection Heq as _ Heq. specialize (Hleft _ _ _ Heq Hshape'). simpl. lia.
Qed.

Lemma matchAddress_none (text : list Z) :
  matchAddress text = None
  <-> forall pre raw post, text = pre ++ raw ++ post -> addressShape raw = false.
Proof.
  induction text as [| c rest IH].
  - split; [| reflexivity]. intros _ pre raw post Heq.
    destruct pre; [| discriminate]. destruct raw; [reflexivity | discriminate].
  - rewrite matchAddress_cons. destruct (matchesHere (c :: rest)) eqn:Hhere.
    + split; [discriminate |]. intros Hnone. exfalso.
      apply matchesHere_shape in Hhere.
      rewrite (Hnone [] (take 42 (c :: rest)) (drop 42 (c :: rest))) in Hhere;
        [discriminate | now rewrite app_nil_l, take_drop].
    + rewrite IH. split.
      * intros Hnone pre raw post Heq. destruct pre as [| c' pre].
        -- destruct (addressShape raw) eqn:Hshape; [| reflexivity].
           cbn [app] in Heq.
           assert (Htrue : matchesHere (c :: rest) = true).
           { apply matchesHere_shape. rewrite Heq. now rewrite shape_prefix. }
           congruence.
        -- injection Heq as _ Heq. exact (Hnone _ _ _ Heq).
      * intros Hnone pre raw post Heq. apply (Hnone (c :: pre) raw post).
        now rewrite Heq.
Qed.

(** X14.  [extractAddress] hands the checksum encoder the leftmost piece of
    the text that is [0x] followed by forty hexadecimal digits: the piece
    has that shape, no piece of that shape starts earlier, and when the text
    has no such piece the result is null without the encoder being asked. *)
Theorem extractAddress_leftmost_match (getAddress : list Z -> option (list Z))
    (text : list Z) :
  (forall address, extractAddress getAddress text = Some address ->
     exists pre raw post,
       text = pre ++ raw ++ post /\ addressShape raw = true
       /\ getAddress raw = Some address
       /\ forall pre' raw' post',
            text = pre' ++ raw' ++ post' -> addressShape raw' = true ->
            (length pre <= length pre')%nat)
  /\ ((forall pre raw post, text = pre ++ raw ++ post -> addressShape raw = false)
      -> containsAddress getAddress text = false)
  /\ (forall pre raw post,
        text = pre ++ raw ++ post -> addressShape raw = true ->
        (forall raw', addressShape raw' = true -> is_Some (getAddress raw')) ->
        containsAddress getAddress text = true).
Proof.
  split; [| split].
  - unfold extractAddress. intros address Hex.
    destruct (matchAddress text) as [raw |] eqn:Hm; [| discriminate].
    destruct (matchAddress_found _ _ Hm) as (pre & post & Heq & Hshape & Hleft).
    exists pre, raw, post. repeat split; assumption.
  - intros Hnone. apply matchAddress_none in Hnone.
    unfold containsAddress, extractAddress. now rewrite Hnone.
  - intros pre raw post Heq Hshape Htotal.
    unfold containsAddress, extractAddress.
    destruct (matchAddress text) as [found |] eqn:Hm.
    + destruct (matchAddress_found _ _ Hm) as (_ & _ & _ & Hfound & _).
      destruct (Htotal _ Hfound) as [address ->]. reflexivity.
    + rewrite matchAddress_none in Hm. rewrite (Hm _ _ _ Heq) in Hshape. discriminate.
Qed.

(** X15.  [shortenAddress] keeps the first [chars + 2] and the last [chars]
    units around three dots, [2 * chars + 5] units in all, when the address
    is long enough; with [chars = 0] the tail [slice(-0)] is the whole
    address, so the result is longer than its input. *)
Theorem shortenAddress_shape (address : list Z) (chars : Z) :
  (0 < chars -> chars + 2 <= Z.of_nat (length address) ->
     shortenAddress address chars
     = take (Z.to_nat (chars + 2)) address ++ js "..."
       ++ drop (length address - Z.to_nat chars) address
     /\ Z.of_nat (length (shortenAddress address chars)) = 2 * chars + 5)
  /\ shortenAddress address 0 = take 2 address ++ js "..." ++ address.
Proof.
  unfold shortenAddress, sliceFrom, slice. split.
  - intros Hpos Hlen.
    set (len := Z.of_nat (length address)) in *.
    destruct (Z.ltb_spec 0 0); [lia |].
    destruct (Z.ltb_spec (chars + 2) 0); [lia |].
    destruct (Z.ltb_spec (- chars) 0); [| lia].
    destruct (Z.ltb_spec len 0); [lia |].
    rewrite (Z.min_l 0 len), (Z.min_l (chars + 2) len), (Z.max_l (len + - chars) 0),
      (Z.min_l len len) by lia.
    replace (Z.to_nat 0) with 0%nat by reflexivity. rewrite drop_0.
    replace (Z.to_nat (chars + 2 - 0)) with (Z.to_nat (chars + 2)) by (f_equal; lia).
    replace (Z.to_nat (len + - chars)) with (length address - Z.to_nat chars)%nat
      by (unfold len; lia).
    replace (Z.to_nat (len - (len + - chars))) with (Z.to_nat chars) by (f_equal; lia).
    rewrite (take_ge (drop _ _)) by (rewrite length_drop; unfold len in *; lia).
    split; [reflexivity |].
    rewrite !length_app, length_take, length_drop. cbn [js length List.map
      list_ascii_of_string]. unfold len in *. lia.
  - set (len := Z.of_nat (length address)).
    assert (0 <= len) by (unfold len; lia).
    change (- 0) with 0. change (0 + 2) with 2.
    destruct (Z.ltb_spec 0 0); [lia |].
    destruct (Z.ltb_spec 2 0); [lia |].
    destruct (Z.ltb_spec len 0); [lia |].
    rewrite (Z.min_l 0 len), (Z.min_l len len) by lia.
    replace (Z.to_nat 0) with 0%nat by reflexivity. rewrite drop_0.
    rewrite !Z.sub_0_r.
    rewrite (take_ge address (Z.to_nat len)) by (unfold len; lia).
    f_equal. destruct (Z.min_spec 2 len) as [[_ ->] | [Hle ->]]; [reflexivity |].
    rewrite !take_ge by (unfold len in *; lia). reflexivity.
Qed.

End AddressFacts.

Section RegistryMoreExamples.
Import JsString ScamDb ScamDbRemote Address AddressShape Samples.

(** The early seed list names the Uniswap router, which is whitelisted: the
    direct check flags it all the same, here asked in upper case. *)
Lemma checkAddress_after_seeding_witness :
  checkAddress (seedLocalDb earlySeeds ∅) universalRouterUpper None
  = [ {| ScamFlag.source := js "local";
         ScamFlag.category := js "drainer";
         ScamFlag.description := js "Pink Drainer associated address";
         ScamFlag.reportedAt := None |} ].
Proof.
  destruct (checkAddress_after_seeding ∅ universalRouterUpper None) as (Hhit & _ & _).
  apply (Hhit [] {| ScamDb.address := js "0x3fc91a3afd70395cd496c647d5a6cc9d4b2b7fad";
                    ScamDb.category := js "drainer";
                    ScamDb.description := js "Pink Drainer associated address" |}
              [ {| ScamDb.address := js "0x47ce0c6ed5b0ce3d3a51fdb1c52dc66a7c3c2936";
                   ScamDb.category := js "mixer";
                   ScamDb.description := js "Tornado Cash 1 ETH pool." |} ]).
  - vm_compute. reflexivity.
  - constructor; [| constructor]. vm_compute. discriminate.
Defined.

(** A forty-digit address in the middle of a message. *)
Lemma extractAddress_leftmost_match_witness :
  containsAddress (fun raw => Some raw) (js "check " ++ cleanAddress ++ js " please") = true.
Proof.
  destruct (extractAddress_leftmost_match (fun raw => Some raw)
              (js "check " ++ cleanAddress ++ js " please")) as (_ & _ & Hsome).
  apply (Hsome (js "check ") cleanAddress (js " please")).
  - reflexivity.
  - vm_compute. reflexivity.
  - intros raw' _. now exists raw'.
Defined.

(** The default of four characters on a forty-two unit address. *)
Lemma shortenAddress_shape_witness :
  shortenAddress cleanAddress 4 = js "0x1234...7890".
Proof.
  destruct (shortenAddress_shape cleanAddress 4) as (Hlong & _).
  destruct Hlong as [-> _]; [lia | vm_compute; discriminate | reflexivity].
Defined.

End RegistryMoreExamples.
(* ================================================================== *)
(** * More properties of the scorer *)
(* ================================================================== *)

Section ScoreOrderFacts.
Import JsString RiskScorer ScoreTable ScoreOrder.

Lemma unflagged_table :
  forallb (unflaggedBetween 6 51) (outcomes ageScores [noFlag]) = true.
Proof. vm_compute. reflexivity. Qed.

Lemma two_or_more_flags_table :
  forallb (scoreBetween 41 100) (outcomes ageScores [twoFlags; manyFlags]) = true.
Proof. vm_compute. reflexivity. Qed.

Lemma rises_table : forallb risesAt bases = true.
Proof. vm_compute. reflexivity. Qed.

Lemma bases_intro a v t p k :
  In a ageScores -> In v volumeScores -> In t transferScores ->
  In p approvalScores -> In k tokenScores -> In (a, v, t, p, k) bases.
Proof.
  intros Ha Hv Ht Hp Hk. unfold bases.
  apply in_flat_map; exists a; split; [exact Ha |].
  apply in_flat_map; exists v; split; [exact Hv |].
  apply in_flat_map; exists t; split; [exact Ht |].
  apply in_flat_map; exists p; split; [exact Hp |].
  apply in_map_iff; exists k; split; [reflexivity | exact Hk].
Qed.

Lemma risesWithFlags_spec (g : nat -> Z -> Z) :
  risesWithFlags g = true ->
  (forall n f, g (S (S (S n))) f = g 3%nat f) ->
  forall n n' f f',
    (n <= n')%nat -> In f fundingScores -> f' = f \/ (f = 10 /\ f' = 90) ->
    g n f <= g n' f'.
Proof.
  unfold risesWithFlags. intros H Hcap.
  repeat match goal with
         | Hc : _ && _ = true |- _ => apply andb_prop in Hc; destruct Hc
         end.
  repeat match goal with Hle : (_ <=? _) = true |- _ => apply Z.leb_le in Hle end.
  intros n n' f f' Hn Hf Hff'.
  assert (Hthree : forall m, g m f = g (Nat.min m 3) f /\ g m f' = g (Nat.min m 3) f').
  { intros [| [| [| m]]]; try (split; reflexivity).
    replace (Nat.min (S (S (S m))) 3) with 3%nat by lia. split; apply Hcap. }
  destruct (Hthree n) as [-> _]. destruct (Hthree n') as [_ ->].
  assert (Hmin : (Nat.min n 3 <= Nat.min n' 3)%nat) by lia.
  assert (Hb : (Nat.min n 3 <= 3)%nat) by lia.
  assert (Hb' : (Nat.min n' 3 <= 3)%nat) by lia.
  revert Hmin Hb Hb'. generalize (Nat.min n 3) (Nat.min n' 3). clear Hn Hthree n n'.
  intros n n' Hmin Hb Hb'.
  unfold fundingScores in Hf. simpl in Hf.
  destruct Hf as [<- | [<- | [<- | []]]];
    destruct Hff' as [-> | [Hten ->]]; try lia;
    destruct n as [| [| [| [| n]]]]; try lia;
    destruct n' as [| [| [| [| n']]]]; try lia.
Qed.

(** The five signals that do not read the flags, and the final score as a
    row of the table. *)
Lemma score_as_row (data : WalletData.t) :
  exists a v t p k,
    In (a, v, t, p, k) bases
    /\ scoreAccountAge data = signal "Account Age" 0.1 a
    /\ scoreTransactionVolume data = signal "Transaction Volume" 0.15 v
    /\ scoreLargeTransfers data = signal "Large Transfers" 0.15 t
    /\ scoreContractApprovals data = signal "Contract Approvals" 0.15 p
    /\ scoreTokenDiversity data = signal "Token Diversity" 0.1 k.
Proof.
  destruct (scoreAccountAge_cases data) as (a & Ha & Hage).
  destruct (scoreTransactionVolume_cases data) as (v & Hv & Hvol).
  destruct (scoreLargeTransfers_cases data) as (t & Ht & Htr).
  destruct (scoreContractApprovals_cases data) as (p & Hp & Hap).
  destruct (scoreTokenDiversity_cases data) as (k & Hk & Htok).
  exists a, v, t, p, k. split; [now apply bases_intro |]. repeat split; assumption.
Qed.

Lemma scam_case_by_count (data : WalletData.t) :
  scoreScamInteractions data
  = signal "Scam Database" 0.25 (fst (scamCaseOf (length (WalletData.scamFlags data))))
  /\ scamBoost (Z.of_nat (length (WalletData.scamFlags data)))
     = snd (scamCaseOf (length (WalletData.scamFlags data))).
Proof. exact (scam_case_of_count data). Qed.

Lemma filter_length_mono {A : Type} (P Q : A -> bool) (l : list A) :
  (forall x, P x = true -> Q x = true) ->
  (length (List.filter P l) <= length (List.filter Q l))%nat.
Proof.
  intros Himp. induction l as [| x l IH]; [simpl; lia |]. cbn [List.filter].
  destruct (P x) eqn:HP.
  - rewrite (Himp x HP). simpl. lia.
  - destruct (Q x); simpl; lia.
Qed.

(** More flags can only move the Funding Source score from 10 to 90. *)
Lemma funding_with_more_flags (data : WalletData.t) (extra : list ScamFlag.t) :
  exists f f',
    scoreFundingSource data = signal "Funding Source" 0.1 f
    /\ scoreFundingSource (withFlags data (WalletData.scamFlags data ++ extra))
       = signal "Funding Source" 0.1 f'
    /\ In f fundingScores /\ (f' = f \/ (f = 10 /\ f' = 90)).
Proof.
  unfold scoreFundingSource, withFlags.
  cbn [WalletData.transactions WalletData.address WalletData.scamFlags].
  set (incoming := List.filter _ (WalletData.transactions data)).
  destruct (Z.of_nat (length incoming) =? 0).
  - exists 40, 40. repeat split; [simpl; tauto | now left].
  - set (P := fun tx => existsb _ (WalletData.scamFlags data)).
    set (Q := fun tx => existsb _ (WalletData.scamFlags data ++ extra)).
    assert (Hmono : (length (List.filter P incoming)
                     <= length (List.filter Q incoming))%nat).
    { apply filter_length_mono. intros tx. unfold P, Q.
      rewrite existsb_app. intros ->. reflexivity. }
    destruct (Z.gtb_spec (Z.of_nat (length (List.filter P incoming))) 0) as [Hpos | Hzero].
    + destruct (Z.gtb_spec (Z.of_nat (length (List.filter Q incoming))) 0); [| lia].
      exists 90, 90. repeat split; [simpl; tauto | now left].
    + destruct (Z.gtb_spec (Z.of_nat (length (List.filter Q incoming))) 0).
      * exists 10, 90. repeat split; [simpl; tauto | right; split; reflexivity].
      * exists 10, 10. repeat split; [simpl; tauto | now left].
Qed.

Lemma score_unfolded (data : WalletData.t) a v t p k f :
  scoreAccountAge data = signal "Account Age" 0.1 a ->
  scoreTransactionVolume data = signal "Transaction Volume" 0.15 v ->
  scoreLargeTransfers data = signal "Large Transfers" 0.15 t ->
  scoreContractApprovals data = signal "Contract Approvals" 0.15 p ->
  scoreTokenDiversity data = signal "Token Diversity" 0.1 k ->
  scoreFundingSource data = signal "Funding Source" 0.1 f ->
  score (computeRiskScore data)
  = rowScore a v t p k (length (WalletData.scamFlags data)) f.
Proof.
  intros Hage Hvol Htr Hap Htok Hfu.
  destruct (scam_case_by_count data) as [Hscam Hboost].
  unfold computeRiskScore, collectSignals.
  rewrite Hage, Hvol, Hscam, Htr, Hap, Hfu, Htok, Hboost. reflexivity.
Qed.

(** X16.  A wallet without scam flags scores between 6 and 51 and is
    never rated HIGH, whatever its age, volume, transfers, approvals and
    tokens are. *)
Theorem no_flags_never_high (data : WalletData.t) :
  WalletData.scamFlags data = [] ->
  6 <= score (computeRiskScore data) <= 51
  /\ (level (computeRiskScore data) = LOW \/ level (computeRiskScore data) = MEDIUM).
Proof.
  intros Hflags.
  assert (Hcase : exists sc, In sc [noFlag]
            /\ scoreScamInteractions data = signal "Scam Database" 0.25 (fst sc)
            /\ scamBoost (Z.of_nat (length (WalletData.scamFlags data))) = snd sc).
  { pose proof (scam_case_of_count data) as H. cbv zeta in H.
    rewrite Hflags in *. exists noFlag. split; [now left | exact H]. }
  pose proof (table_check (unflaggedBetween 6 51) _ _ _ unflagged_table
                (inputs_in_table data ageScores [noFlag]
                   (scoreAccountAge_cases data) Hcase)) as Hrow.
  unfold unflaggedBetween in Hrow.
  assert (Hfunding : (fundingOf (collectSignals data,
                        scamBoost (Z.of_nat (length (WalletData.scamFlags data))))
                      =? 90) = false).
  { change (fundingOf _) with (RiskSignal.score (scoreFundingSource data)).
    unfold scoreFundingSource. rewrite Hflags.
    destruct (_ =? 0); [reflexivity |]. cbn [existsb].
    assert (Hnone : forall l : list BasescanTransaction.t,
               List.filter (fun _ => false) l = []).
    { induction l as [| x l IH]; [reflexivity | exact IH]. }
    rewrite Hnone. reflexivity. }
  rewrite Hfunding in Hrow. cbn [orb] in Hrow.
  apply scoreBetween_spec in Hrow.
  unfold scoreOf in Hrow. cbn [fst snd] in Hrow.
  fold (computeRiskScore data) in Hrow.
  split; [exact Hrow |].
  unfold computeRiskScore. rewrite !level_conclude.
  fold (computeRiskScore data).
  destruct (classify_spec (score (computeRiskScore data))) as (Hlow & Hmed & _).
  destruct (Z.le_gt_cases (score (computeRiskScore data)) 30).
  - left. apply Hlow. lia.
  - right. apply Hmed. lia.
Qed.

(** X17.  With two or more scam flags the score is at least 41, so the
    rating is MEDIUM or HIGH and never LOW. *)
Theorem two_flags_never_low (data : WalletData.t) :
  (2 <= length (WalletData.scamFlags data))%nat ->
  41 <= score (computeRiskScore data) <= 100
  /\ (level (computeRiskScore data) = MEDIUM \/ level (computeRiskScore data) = HIGH).
Proof.
  intros Hflags.
  assert (Hcase : exists sc, In sc [twoFlags; manyFlags]
            /\ scoreScamInteractions data = signal "Scam Database" 0.25 (fst sc)
            /\ scamBoost (Z.of_nat (length (WalletData.scamFlags data))) = snd sc).
  { pose proof (scam_case_of_count data) as H. cbv zeta in H.
    destruct (length (WalletData.scamFlags data)) as [| [| [| n]]]; try lia.
    - exists twoFlags. split; [now left | exact H].
    - exists manyFlags. split; [right; now left | exact H]. }
  pose proof (scoreBetween_spec _ _ _
                (table_check (scoreBetween 41 100) _ _ _ two_or_more_flags_table
                   (inputs_in_table data ageScores [twoFlags; manyFlags]
                      (scoreAccountAge_cases data) Hcase))) as Hrange.
  unfold scoreOf in Hrange. cbn [fst snd] in Hrange.
  fold (computeRiskScore data) in Hrange.
  split; [exact Hrange |].
  unfold computeRiskScore. rewrite !level_conclude.
  fold (computeRiskScore data).
  destruct (classify_spec (score (computeRiskScore data))) as (_ & Hmed & Hhigh).
  destruct (Z.le_gt_cases (score (computeRiskScore data)) 60).
  - left. apply Hmed. lia.
  - right. apply Hhigh. lia.
Qed.

(** X18.  Adding scam flags to a wallet, everything else unchanged, never
    lowers its score. *)
Theorem more_flags_never_lower_score (data : WalletData.t) (extra : list ScamFlag.t) :
  score (computeRiskScore data)
  <= score (computeRiskScore (withFlags data (WalletData.scamFlags data ++ extra))).
Proof.
  destruct (score_as_row data) as (a & v & t & p & k & Hbase & Hage & Hvol & Htr & Hap & Htok).
  destruct (funding_with_more_flags data extra) as (f & f' & Hf & Hf' & Hin & Hrel).
  rewrite (score_unfolded data a v t p k f Hage Hvol Htr Hap Htok Hf).
  rewrite (score_unfolded (withFlags data (WalletData.scamFlags data ++ extra))
             a v t p k f' Hage Hvol Htr Hap Htok Hf').
  cbn [withFlags WalletData.scamFlags].
  pose proof rises_table as Htable. rewrite forallb_forall in Htable.
  specialize (Htable _ Hbase). cbn [risesAt] in Htable.
  apply (risesWithFlags_spec _ Htable); [reflexivity | | exact Hin | exact Hrel].
  rewrite length_app. lia.
Qed.

End ScoreOrderFacts.

Section BurstFacts.
Import JsString RiskScorer ScoreOrder.

Lemma insertAscending_perm (x : Z) (l : list Z) : insertAscending x l ≡ₚ x :: l.
Proof.
  induction l as [| y l IH]; cbn [insertAscending]; [reflexivity |].
  destruct (x <=? y); [reflexivity |]. rewrite IH. apply perm_swap.
Qed.

Lemma sortAscending_perm (l : list Z) : sortAscending l ≡ₚ l.
Proof.
  induction l as [| x l IH]; [reflexivity |].
  cbn [sortAscending fold_right]. fold (sortAscending l).
  rewrite insertAscending_perm. now rewrite IH.
Qed.

Lemma insertAscending_sorted (x : Z) (l : list Z) :
  StronglySorted Z.le l -> StronglySorted Z.le (insertAscending x l).
Proof.
  induction 1 as [| y l Hsorted IH Hall]; cbn [insertAscending].
  - constructor; constructor.
  - destruct (Z.leb_spec x y) as [Hle | Hgt].
    + constructor; [now constructor |]. constructor; [exact Hle |].
      eapply Forall_impl; [exact Hall |]. intros z Hz. simpl in Hz. lia.
    + constructor; [exact IH |].
      rewrite Forall_forall. intros z Hz. apply list_elem_of_In in Hz.
      apply (Permutation_in _ (insertAscending_perm x l)) in Hz.
      destruct Hz as [<- | Hz]; [lia |].
      rewrite Forall_forall in Hall. apply Hall. now apply list_elem_of_In.
Qed.

Lemma sortAscending_sorted (l : list Z) : StronglySorted Z.le (sortAscending l).
Proof.
  induction l as [| x l IH]; [constructor |].
  cbn [sortAscending fold_right]. now apply insertAscending_sorted.
Qed.

Lemma withinAnHour_perm (l l' : list Z) : l ≡ₚ l' -> withinAnHour l -> withinAnHour l'.
Proof.
  intros Hperm (l1 & x & l2 & y & l3 & -> & Hclose).
  assert (Hx : l' ≡ₚ x :: y :: (l1 ++ l2 ++ l3)).
  { rewrite <- Hperm. rewrite <- Permutation_middle. constructor.
    rewrite app_assoc, <- Permutation_middle, <- app_assoc. reflexivity. }
  apply Permutation_cons_inv_r in Hx as (k1 & k2 & -> & Hy).
  assert (Hin : y ∈ k1 ++ k2) by (rewrite <- Hy; left).
  apply elem_of_app in Hin as [Hin | Hin];
    apply list_elem_of_split in Hin as (a & b & ->).
  - exists a, y, b, x, k2. split; [now rewrite <- app_assoc |]. lia.
  - exists k1, x, a, y, b. split; [reflexivity | exact Hclose].
Qed.

Lemma clusterAfter_spec (rest : list Z) :
  forall previous,
    StronglySorted Z.le (previous :: rest) ->
    clusterAfter previous rest = true <-> withinAnHour (previous :: rest).
Proof.
  induction rest as [| current rest IH]; intros previous Hsorted; cbn [clusterAfter].
  - split; [discriminate |]. intros (l1 & x & l2 & y & l3 & Heq & _).
    apply (f_equal (@length Z)) in Heq. rewrite !length_app in Heq.
    simpl in Heq. rewrite length_app in Heq. simpl in Heq. lia.
  - apply StronglySorted_inv in Hsorted as [Hrest Hall].
    inversion Hall as [| ? ? Hle Hall']; subst.
    destruct (Z.ltb_spec (current - previous) 3600) as [Hnear | Hfar].
    + split; [intros _ | reflexivity].
      exists [], previous, [], current, rest. split; [reflexivity | lia].
    + rewrite (IH current Hrest). split.
      * intros (l1 & x & l2 & y & l3 & Heq & Hclose).
        exists (previous :: l1), x, l2, y, l3. split; [now rewrite Heq | exact Hclose].
      * intros (l1 & x & l2 & y & l3 & Heq & Hclose). destruct l1 as [| p l1].
        -- exfalso. injection Heq as <- Heq.
           assert (Hy : In y (current :: rest)).
           { rewrite Heq. apply in_or_app. right. now left. }
           apply StronglySorted_inv in Hrest as [_ Hlow].
           destruct Hy as [<- | Hy]; [lia |].
           rewrite Forall_forall in Hlow. apply list_elem_of_In in Hy.
           specialize (Hlow _ Hy). simpl in Hlow. lia.
        -- injection Heq as _ Heq. exists l1, x, l2, y, l3. split; assumption.
Qed.

Lemma hasCluster_sorted (l : list Z) :
  hasCluster (sortAscending l) = true <-> withinAnHour l.
Proof.
  pose proof (sortAscending_sorted l) as Hsorted.
  pose proof (sortAscending_perm l) as Hperm.
  destruct (sortAscending l) as [| first rest] eqn:Hs.
  - split; [discriminate |]. intros Hclose.
    apply (withinAnHour_perm _ _ (symmetry Hperm)) in Hclose.
    destruct Hclose as (l1 & x & l2 & y & l3 & Heq & _). now destruct l1.
  - cbn [hasCluster]. rewrite (clusterAfter_spec rest first Hsorted).
    split; apply withinAnHour_perm; [exact Hperm | now symmetry].
Qed.

(** The transfers the signal counts as large: a value of [10^18 + 112] wei
    is the least that [parseFloat] reads as more than [1]. *)
Lemma valueEthAboveOne_threshold (value : Z) :
  valueEthAboveOne value = true <-> 10 ^ 18 + 112 <= value.
Proof.
  unfold valueEthAboveOne. rewrite Z.ltb_lt.
  change (10 ^ 18) with 1000000000000000000.
  change (2 ^ 53) with 9007199254740992. lia.
Qed.

(** X19.  The Large Transfers signal takes its top score, 80, exactly when
    two of the large outgoing transfers lie less than an hour apart, in
    whatever order the explorer listed them.  The large outgoing transfers
    are the listed transactions sent from the wallet's address, compared in
    lower case, whose value is at least 1 ETH and 112 wei: what
    [parseFloat(formatEther(value)) > 1] lets through, a value from 1 ETH to
    1 ETH and 111 wei being read as the double 1. *)
Theorem large_transfers_burst_iff (data : WalletData.t) :
  (RiskSignal.score (scoreLargeTransfers data) = 80
   <-> withinAnHour (List.map BasescanTransaction.timeStamp (largeOutgoing data)))
  /\ (forall tx,
        In tx (largeOutgoing data)
        <-> In tx (WalletData.transactions data)
            /\ toLowerCase (BasescanTransaction.from tx)
               = toLowerCase (WalletData.address data)
            /\ 10 ^ 18 + 112 <= BasescanTransaction.value tx).
Proof.
  split.
  - unfold scoreLargeTransfers.
    destruct (Z.eqb_spec (Z.of_nat (length (WalletData.transactions data))) 0)
      as [Hempty | _].
    + split; [discriminate |]. intros (l1 & x & l2 & y & l3 & Heq & _). exfalso.
      unfold largeOutgoing in Heq.
      destruct (WalletData.transactions data); [| simpl in Hempty; lia].
      now destruct l1.
    + rewrite <- hasCluster_sorted.
      destruct (hasCluster _); [split; reflexivity |].
      destruct (_ >? 5); [split; discriminate |].
      destruct (_ >? 0); split; discriminate.
  - intros tx. unfold largeOutgoing. rewrite !filter_In.
    rewrite valueEthAboveOne_threshold. unfold strictEq.
    rewrite bool_decide_eq_true. tauto.
Qed.

End BurstFacts.

Section BurstExamples.
Import JsString RiskScorer Samples.

(** Two transfers of 1 ETH and 100 wei, ten minutes apart, are not large:
    the signal stays at 5.  With 1 ETH and 112 wei each it is 80. *)
Example large_transfers_threshold :
  RiskSignal.score
    (scoreLargeTransfers
       (makeWalletData 2 None [] 
          [ makeTx 1700000000 (toLowerCase walletAddress) (js "0x" ++ List.repeat 98 40)
                   1000000000000000100 (js "0x");
            makeTx 1700000600 (toLowerCase walletAddress) (js "0x" ++ List.repeat 98 40)
                   1000000000000000100 (js "0x") ] [])) = 5
  /\ RiskSignal.score
       (scoreLargeTransfers
          (makeWalletData 2 None []
             [ makeTx 1700000000 (toLowerCase walletAddress) (js "0x" ++ List.repeat 98 40)
                      1000000000000000112 (js "0x");
               makeTx 1700000600 (toLowerCase walletAddress) (js "0x" ++ List.repeat 98 40)
                      1000000000000000112 (js "0x") ] [])) = 80.
Proof. vm_compute. split; reflexivity. Qed.

End BurstExamples.

Section ScoreOrderExamples.
Import JsString RiskScorer ScoreOrder Samples.

(** The default test wallet without flags. *)
Lemma no_flags_never_high_witness :
  6 <= score (computeRiskScore (makeWalletData 50 (Some (180 * 86400)%float) [] [] [])) <= 51
  /\ (level (computeRiskScore (makeWalletData 50 (Some (180 * 86400)%float) [] [] [])) = LOW
      \/ level (computeRiskScore (makeWalletData 50 (Some (180 * 86400)%float) [] [] []))
         = MEDIUM).
Proof.
  apply (no_flags_never_high (makeWalletData 50 (Some (180 * 86400)%float) [] [] [])).
  reflexivity.
Defined.

(** The old wallet with three flags. *)
Lemma two_flags_never_low_witness :
  41 <= score (computeRiskScore flaggedOldWallet) <= 100
  /\ (level (computeRiskScore flaggedOldWallet) = MEDIUM
      \/ level (computeRiskScore flaggedOldWallet) = HIGH).
Proof. apply (two_flags_never_low flaggedOldWallet). simpl. lia. Defined.

End ScoreOrderExamples.
(* ================================================================== *)
(** * Properties of the report data *)
(* ================================================================== *)

Section ConfidenceFacts.
Import JsString ReportData DataFetcher.

(** X20.  The confidence is between 35 and 100, so the floor of 10 in the
    final clamp is never reached; it is 100 exactly for a wallet with ten
    or more transactions, a known age, token transfers and internal
    transactions, and 35 exactly for one with no transaction, no age, no
    token transfer and no internal transaction, which is what the
    aggregator returns when its sources give nothing. *)
Theorem calculateConfidence_range (data : WalletData.t) :
  35 <= calculateConfidence data <= 100
  /\ (calculateConfidence data = 100
      <-> (WalletData.transactionCount data < 0 \/ 10 <= WalletData.transactionCount data)
          /\ WalletData.accountAge data <> None
          /\ WalletData.tokenTransfers data <> []
          /\ WalletData.internalTransactions data <> [])
  /\ (calculateConfidence data = 35
      <-> WalletData.transactionCount data = 0
          /\ WalletData.accountAge data = None
          /\ WalletData.tokenTransfers data = []
          /\ WalletData.internalTransactions data = [])
  /\ (forall nowMs address localScamDb settled,
        data = fetchWalletData nowMs address localScamDb settled ->
        default [] (transactions settled) = [] ->
        default [] (internalTransactions settled) = [] ->
        default [] (tokenTransfers settled) = [] ->
        default None (firstTx settled) = None ->
        calculateConfidence data = 35).
Proof.
  assert (Hmain :
    35 <= calculateConfidence data <= 100
    /\ (calculateConfidence data = 100
        <-> (WalletData.transactionCount data < 0 \/ 10 <= WalletData.transactionCount data)
            /\ WalletData.accountAge data <> None
            /\ WalletData.tokenTransfers data <> []
            /\ WalletData.internalTransactions data <> [])
    /\ (calculateConfidence data = 35
        <-> WalletData.transactionCount data = 0
            /\ WalletData.accountAge data = None
            /\ WalletData.tokenTransfers data = []
            /\ WalletData.internalTransactions data = [])).
  { unfold calculateConfidence.
    destruct (Z.eqb_spec (WalletData.transactionCount data) 0) as [Hzero | Hnz];
      destruct (Z.gtb_spec (WalletData.transactionCount data) 0);
      destruct (Z.ltb_spec (WalletData.transactionCount data) 10);
      try lia;
      destruct (WalletData.accountAge data) as [age |];
      destruct (WalletData.tokenTransfers data) as [| tt tts];
      destruct (WalletData.internalTransactions data) as [| it its];
      cbn [length Z.of_nat andb];
      repeat match goal with
             | |- context [Z.of_nat (S ?n) =? 0] =>
                 replace (Z.of_nat (S n) =? 0) with false by (symmetry; apply Z.eqb_neq; lia)
             | |- context [Z.of_nat 0 =? 0] => change (Z.of_nat 0 =? 0) with true
             | |- context [0 =? 0] => change (0 =? 0) with true
             end;
      cbv beta iota zeta;
      (split; [lia |]);
      (split; (split; [intros Heq; try lia; repeat split; try congruence; lia
                      | intros (H1 & H2 & H3 & H4); try congruence; try lia])). }
  destruct Hmain as (Hrange & Hfull & Hlow).
  split; [exact Hrange |]. split; [exact Hfull |]. split; [exact Hlow |].
  intros nowMs address localScamDb settled -> Htx Hint Htok Hfirst.
  apply Hlow. unfold fetchWalletData.
  cbn [WalletData.transactionCount WalletData.accountAge WalletData.tokenTransfers
       WalletData.internalTransactions].
  rewrite Htx, Hint, Htok, Hfirst. repeat split.
Qed.

End ConfidenceFacts.

Section TopInteractionFacts.
Import JsString ReportData.

Abbreviation byCount := (fun x y : list Z * Z => snd y <= snd x).

Lemma bump_keys (key : list Z) (m : list (list Z * Z)) (k : list Z) :
  In k (List.map fst (bump key m)) <-> k = key \/ In k (List.map fst m).
Proof.
  induction m as [| [k0 n0] m IH]; cbn [bump List.map fst In].
  - intuition congruence.
  - destruct (bool_decide_reflect (k0 = key)) as [-> | Hne]; cbn [List.map fst In].
    + intuition congruence.
    + rewrite IH. intuition congruence.
Qed.

Lemma bump_NoDup (key : list Z) (m : list (list Z * Z)) :
  List.NoDup (List.map fst m) -> List.NoDup (List.map fst (bump key m)).
Proof.
  induction m as [| [k0 n0] m IH]; cbn [bump List.map fst]; intros Hnd.
  - constructor; [intros [] | constructor].
  - inversion Hnd as [| ? ? Hout Hrest]; subst.
    destruct (bool_decide_reflect (k0 = key)) as [-> | Hne]; cbn [List.map fst].
    + constructor; assumption.
    + constructor; [| now apply IH]. rewrite bump_keys. intuition congruence.
Qed.

Lemma bump_In (key : list Z) (m : list (list Z * Z)) :
  List.NoDup (List.map fst m) ->
  forall k n,
    In (k, n) (bump key m)
    <-> (k <> key /\ In (k, n) m)
        \/ (k = key /\ ((exists n0, In (key, n0) m /\ n = n0 + 1)
                        \/ (~ In key (List.map fst m) /\ n = 1))).
Proof.
  induction m as [| [k0 n0] m IH]; cbn [bump List.map fst In]; intros Hnd k n.
  - split.
    + intros [[= <- <-] | []]. right. split; [reflexivity |]. right. tauto.
    + intros [[_ []] | [-> [(n0 & [] & _) | [_ ->]]]]. now left.
  - inversion Hnd as [| ? ? Hout Hrest]; subst.
    assert (Hkey : forall x, In (k0, x) m -> False).
    { intros x Hx. apply Hout. apply in_map_iff. now exists (k0, x). }
    assert (Hplus : (if n0 =? 0 then 0 else n0) + 1 = n0 + 1).
    { destruct (Z.eqb_spec n0 0); lia. }
    destruct (bool_decide_reflect (k0 = key)) as [-> | Hne]; cbn [In].
    + rewrite Hplus. split.
      * intros [[= <- <-] | Hin].
        -- right. split; [reflexivity |]. left. exists n0. split; [now left | reflexivity].
        -- destruct (decide (k = key)) as [-> | Hk]; [now apply Hkey in Hin |].
           left. split; [exact Hk | now right].
      * intros [[Hk [[= -> _] | Hin]] | [-> [(x & [[= ->] | Hx] & ->) | [Hn _]]]].
        -- congruence.
        -- now right.
        -- now left.
        -- now apply Hkey in Hx.
        -- exfalso. apply Hn. now left.
    + rewrite (IH Hrest). split.
      * intros [[= <- <-] | [[Hk Hin] | [-> Hcase]]].
        -- left. split; [exact Hne | now left].
        -- left. split; [exact Hk | now right].
        -- right. split; [reflexivity |].
           destruct Hcase as [(x & Hx & ->) | [Hn ->]].
           ++ left. exists x. split; [now right | reflexivity].
           ++ right. split; [| reflexivity]. intros [Heq | Hin]; [congruence | tauto].
      * intros [[Hk [[= <- <-] | Hin]] | [-> Hcase]].
        -- now left.
        -- right. left. tauto.
        -- right. right. split; [reflexivity |].
           destruct Hcase as [(x & [[= Heq _] | Hx] & ->) | [Hn ->]].
           ++ congruence.
           ++ left. now exists x.
           ++ right. split; [| reflexivity]. intros Hin. apply Hn. now right.
Qed.

(** What the counting loop has stored once it has gone through [txs]. *)
Lemma counted (myAddr : list Z) (txs : list BasescanTransaction.t) :
  List.NoDup (List.map fst (foldl (countStep myAddr) [] txs))
  /\ forall k n,
       In (k, n) (foldl (countStep myAddr) [] txs)
       <-> n = interactionsWith myAddr txs k /\ 1 <= n.
Proof.
  induction txs as [| tx txs IH] using rev_ind.
  - split; [constructor |]. intros k n.
    change (interactionsWith myAddr [] k) with 0. cbn [foldl In]. split; [tauto | lia].
  - destruct IH as [Hnd Hin]. rewrite foldl_app. cbn [foldl].
    set (m := foldl (countStep myAddr) [] txs) in *.
    assert (Hcount : forall k,
               interactionsWith myAddr (txs ++ [tx]) k
               = interactionsWith myAddr txs k
                 + match otherParty myAddr tx with
                   | [] => 0
                   | c :: other => if strictEq (toLowerCase (c :: other)) k then 1 else 0
                   end).
    { intros k. unfold interactionsWith. rewrite List.filter_app, length_app.
      cbn [List.filter]. destruct (otherParty myAddr tx) as [| c other]; cbn [length].
      - lia.
      - destruct (strictEq _ k); cbn [length]; lia. }
    assert (Hnonneg : forall k, 0 <= interactionsWith myAddr txs k).
    { intros k. unfold interactionsWith. lia. }
    unfold countStep. destruct (otherParty myAddr tx) as [| c other] eqn:Hother.
    + split; [exact Hnd |]. intros k n. rewrite Hin, Hcount. now rewrite Z.add_0_r.
    + set (key := toLowerCase (c :: other)) in *.
      split; [now apply bump_NoDup |]. intros k n.
      rewrite (bump_In key m Hnd), Hcount. unfold strictEq.
      assert (Habsent : ~ In key (List.map fst m) <-> interactionsWith myAddr txs key = 0).
      { split.
        - intros Hn. destruct (Z.eq_dec (interactionsWith myAddr txs key) 0) as [| Hpos];
            [assumption |]. exfalso. apply Hn. apply in_map_iff.
          exists (key, interactionsWith myAddr txs key). split; [reflexivity |].
          apply Hin. specialize (Hnonneg key). lia.
        - intros Hz Hk. apply in_map_iff in Hk as ([k' n'] & Hfst & Hk).
          cbn [fst] in Hfst. rewrite Hfst in Hk. apply Hin in Hk. lia. }
      destruct (bool_decide_reflect (key = k)) as [<- | Hne].
      * split.
        -- intros [[Hk _] | [_ [(n0 & Hn0 & ->) | [Hn ->]]]]; [congruence | |].
           ++ apply Hin in Hn0. lia.
           ++ apply Habsent in Hn. lia.
        -- intros [-> _]. right. split; [reflexivity |].
           destruct (Z.eq_dec (interactionsWith myAddr txs key) 0) as [Hz | Hpos].
           ++ right. split; [now apply Habsent | lia].
           ++ left. exists (interactionsWith myAddr txs key). split; [| reflexivity].
              apply Hin. specialize (Hnonneg key). lia.
      * rewrite Z.add_0_r. split.
        -- intros [[_ Hk] | [-> _]]; [now apply Hin | congruence].
        -- intros Hk. left. split; [congruence | now apply Hin].
Qed.

Lemma insertDescending_perm (e : list Z * Z) (l : list (list Z * Z)) :
  insertDescending e l ≡ₚ e :: l.
Proof.
  induction l as [| y l IH]; cbn [insertDescending]; [reflexivity |].
  destruct (snd y <=? snd e); [reflexivity |]. rewrite IH. apply perm_swap.
Qed.

Lemma sortDescending_perm (l : list (list Z * Z)) : sortDescending l ≡ₚ l.
Proof.
  induction l as [| x l IH]; [reflexivity |].
  cbn [sortDescending fold_right]. fold (sortDescending l).
  rewrite insertDescending_perm. now rewrite IH.
Qed.

Lemma insertDescending_sorted (e : list Z * Z) (l : list (list Z * Z)) :
  StronglySorted byCount l -> StronglySorted byCount (insertDescending e l).
Proof.
  induction 1 as [| y l Hsorted IH Hall]; cbn [insertDescending].
  - constructor; constructor.
  - destruct (Z.leb_spec (snd y) (snd e)) as [Hle | Hgt].
    + constructor; [now constructor |]. constructor; [exact Hle |].
      eapply Forall_impl; [exact Hall |]. intros z Hz. simpl in Hz. lia.
    + constructor; [exact IH |].
      rewrite Forall_forall. intros z Hz. apply list_elem_of_In in Hz.
      apply (Permutation_in _ (insertDescending_perm e l)) in Hz.
      destruct Hz as [<- | Hz]; [lia |].
      rewrite Forall_forall in Hall. apply Hall. now apply list_elem_of_In.
Qed.

Lemma sortDescending_sorted (l : list (list Z * Z)) :
  StronglySorted byCount (sortDescending l).
Proof.
  induction l as [| x l IH]; [constructor |].
  cbn [sortDescending fold_right]. now apply insertDescending_sorted.
Qed.

Lemma sorted_app_inv {A : Type} (R : A -> A -> Prop) (a b : list A) :
  StronglySorted R (a ++ b) ->
  StronglySorted R a /\ forall x y, In x a -> In y b -> R x y.
Proof.
  induction a as [| h a IH]; cbn [app]; intros Hs.
  - split; [constructor | intros x y []].
  - apply StronglySorted_inv in Hs as [Hrest Hall].
    destruct (IH Hrest) as [Ha Hcross]. split.
    + constructor; [exact Ha |]. rewrite Forall_forall in Hall |- *.
      intros x Hx. apply Hall. apply elem_of_app. now left.
    + intros x y [<- | Hx] Hy; [| now apply Hcross].
      rewrite Forall_forall in Hall. apply Hall. apply elem_of_app. right.
      now apply list_elem_of_In.
Qed.

Lemma slice_first_five {A : Type} (l : list A) : slice l 0 5 = take 5 l.
Proof.
  unfold slice. change (0 <? 0) with false. change (5 <? 0) with false. cbv iota.
  rewrite (Z.min_l 0) by lia. change (Z.to_nat 0) with 0%nat. rewrite drop_0, Z.sub_0_r.
  destruct (Z.min_spec 5 (Z.of_nat (length l))) as [[_ ->] | [Hle ->]]; [reflexivity |].
  rewrite Nat2Z.id. rewrite !take_ge by lia. reflexivity.
Qed.

(** X21.  The top interactions: at most five entries, one per counterparty
    (counterparties are compared in lower case), in descending order of
    count; every entry carries the exact number of the wallet's
    transactions with that counterparty and never a label; a counterparty
    that is left out has no more transactions than any entry that is
    listed, and is left out only when five are listed. *)
Theorem computeTopInteractions_spec (data : WalletData.t) :
  let count := interactionsWith (toLowerCase (WalletData.address data))
                                (WalletData.transactions data) in
  let top := computeTopInteractions data in
  (length top <= 5)%nat
  /\ List.NoDup (List.map TopInteraction.address top)
  /\ StronglySorted (fun i j => TopInteraction.txCount j <= TopInteraction.txCount i) top
  /\ (forall i, In i top ->
        TopInteraction.label i = None
        /\ 1 <= TopInteraction.txCount i
        /\ TopInteraction.txCount i = count (TopInteraction.address i))
  /\ (forall key, 1 <= count key ->
        (exists i, In i top /\ TopInteraction.address i = key)
        \/ (length top = 5%nat
            /\ forall i, In i top -> count key <= TopInteraction.txCount i)).
Proof.
  intros count top. subst top. unfold computeTopInteractions.
  destruct (counted (toLowerCase (WalletData.address data))
                    (WalletData.transactions data)) as [Hnd Hin].
  fold count in Hin.
  set (m := foldl _ [] (WalletData.transactions data)) in *.
  pose proof (sortDescending_perm m) as Hperm.
  pose proof (sortDescending_sorted m) as Hsorted.
  set (s := sortDescending m) in *.
  rewrite slice_first_five.
  rewrite <- (take_drop 5 s) in Hsorted.
  apply sorted_app_inv in Hsorted as [Hhead Hcross].
  assert (Hkeys : List.NoDup (List.map fst (take 5 s))).
  { assert (Hall : List.NoDup (List.map fst s)).
    { eapply Permutation_NoDup; [| exact Hnd].
      apply Permutation_map. now symmetry. }
    rewrite <- (take_drop 5 s), List.map_app in Hall.
    now apply NoDup_app_remove_r in Hall. }
  assert (Hsub : forall e, In e (take 5 s) -> In e m).
  { intros e He. apply (Permutation_in _ Hperm).
    rewrite <- (take_drop 5 s). apply in_or_app. now left. }
  split; [| split; [| split; [| split]]].
  - rewrite length_map, length_take. lia.
  - rewrite List.map_map. cbn [TopInteraction.address]. exact Hkeys.
  - clear -Hhead. induction Hhead as [| e l Hl IH Hall]; cbn [List.map];
      constructor; [exact IH |].
    apply List.Forall_map. exact Hall.
  - intros i Hi. apply in_map_iff in Hi as ([k n] & <- & He).
    cbn [TopInteraction.label TopInteraction.txCount TopInteraction.address fst snd].
    apply Hsub, Hin in He. split; [reflexivity |]. split; [lia | tauto].
  - intros key Hpos.
    assert (Hm : In (key, count key) s).
    { apply (Permutation_in _ (symmetry Hperm)). apply Hin. split; [reflexivity | exact Hpos]. }
    rewrite <- (take_drop 5 s) in Hm. apply in_app_or in Hm as [Hm | Hm].
    + left. eexists. split; [apply in_map_iff; eexists; split; [reflexivity | exact Hm] |].
      reflexivity.
    + right. split.
      * rewrite length_map, length_take.
        assert (5 < length s)%nat; [| lia].
        destruct (Nat.lt_ge_cases 5 (length s)) as [| Hshort]; [assumption |].
        rewrite drop_ge in Hm by lia. destruct Hm.
      * intros i Hi. apply in_map_iff in Hi as (e & <- & He).
        cbn [TopInteraction.txCount]. exact (Hcross e (key, count key) He Hm).
Qed.

End TopInteractionFacts.
(* ================================================================== *)
(** * Properties of the summary validation *)
(* ================================================================== *)

Section ValidationFacts.
Import JsString Address AddressShape ReportData.

Lemma startsWith_iff (s p : list Z) :
  startsWith s p = true <-> exists post, s = p ++ post.
Proof.
  split.
  - revert s. induction p as [| c p IH]; intros s H.
    + now exists s.
    + destruct s as [| d s]; [discriminate |]. cbn [startsWith] in H.
      apply andb_prop in H as [Hc Hp]. apply Z.eqb_eq in Hc. subst d.
      destruct (IH _ Hp) as [post ->]. now exists post.
  - intros [post ->]. apply startsWith_app.
Qed.

Lemma includes_middle (a d b : list Z) : includes (a ++ d ++ b) d = true.
Proof.
  induction a as [| c a IH].
  - cbn [app]. destruct (d ++ b) eqn:Heq; cbn [includes];
      rewrite <- Heq, startsWith_app; reflexivity.
  - cbn [app includes]. rewrite IH. apply orb_true_r.
Qed.

Lemma replaceFirst_unfold (text pattern replacement : list Z) :
  replaceFirst text pattern replacement
  = if startsWith text pattern then replacement ++ drop (length pattern) text
    else match text with
         | [] => []
         | c :: rest => c :: replaceFirst rest pattern replacement
         end.
Proof. destruct text; reflexivity. Qed.

(** The first occurrence of the pattern is the one replaced. *)
Lemma replaceFirst_spec (pattern replacement : list Z) (text : list Z) :
  forall pre post,
    text = pre ++ pattern ++ post ->
    exists pre' post',
      text = pre' ++ pattern ++ post'
      /\ replaceFirst text pattern replacement = pre' ++ replacement ++ post'
      /\ (length pre' <= length pre)%nat.
Proof.
  induction text as [| c rest IH]; intros pre post Heq; rewrite replaceFirst_unfold.
  - destruct pre; [| discriminate]. destruct pattern; [| discriminate].
    exists [], []. split; [reflexivity |]. split; [reflexivity | simpl; lia].
  - destruct (startsWith (c :: rest) pattern) eqn:Hhere.
    + apply startsWith_iff in Hhere as [post' Hpost]. exists [], post'.
      split; [exact Hpost |]. split; [| simpl; lia].
      rewrite Hpost at 1. rewrite drop_app_length. reflexivity.
    + destruct pre as [| c' pre].
      * exfalso. cbn [app] in Heq. rewrite Heq, startsWith_app in Hhere. discriminate.
      * injection Heq as <- Heq.
        destruct (IH _ _ Heq) as (pre' & post' & Hrest & Hrep & Hlen).
        exists (c :: pre'), post'. split; [now rewrite Hrest at 1 |].
        split; [now rewrite Hrep | simpl; lia].
Qed.

Lemma mentionsFrom_skip (n : nat) :
  forall text, mentionsFrom n text = mentionsFrom 0 (drop n text).
Proof.
  induction n as [| n IH]; intros text.
  - now rewrite drop_0.
  - destruct text as [| c rest]; [reflexivity |]. cbn [mentionsFrom]. apply IH.
Qed.

Lemma mentionsFrom_cons (c : Z) (rest : list Z) :
  mentionsFrom 0 (c :: rest)
  = if matchesHere (c :: rest)
    then take 42 (c :: rest) :: mentionsFrom 0 (drop 42 (c :: rest))
    else mentionsFrom 0 rest.
Proof.
  cbn [mentionsFrom]. destruct (matchesHere (c :: rest)); [| reflexivity].
  now rewrite (mentionsFrom_skip 41).
Qed.

(** The first match, and where the search resumes. *)
Lemma mentionsFrom_head (text : list Z) :
  forall m later,
    mentionsFrom 0 text = m :: later ->
    exists pre post,
      text = pre ++ m ++ post /\ mentionsFrom 0 post = later
      /\ addressShape m = true.
Proof.
  induction text as [| c rest IH]; intros m later Hm; [discriminate |].
  rewrite mentionsFrom_cons in Hm. destruct (matchesHere (c :: rest)) eqn:Hhere.
  - assert (Hhead : m = take 42 (c :: rest)) by congruence.
    assert (Htail : later = mentionsFrom 0 (drop 42 (c :: rest))) by congruence.
    subst m later. exists [], (drop 42 (c :: rest)).
    split; [now rewrite app_nil_l, take_drop |]. split; [reflexivity |].
    now apply matchesHere_shape.
  - destruct (IH _ _ Hm) as (pre & post & -> & Hlater & Hshape).
    exists (c :: pre), post. repeat split; assumption.
Qed.

Lemma mentionsFrom_split (ks : list (list Z)) :
  forall text m later,
    mentionsFrom 0 text = ks ++ m :: later ->
    exists pre post, text = pre ++ m ++ post /\ mentionsFrom 0 post = later.
Proof.
  induction ks as [| k ks IH]; intros text m later Hm.
  - destruct (mentionsFrom_head _ _ _ Hm) as (pre & post & Heq & Hlater & _).
    now exists pre, post.
  - cbn [app] in Hm.
    destruct (mentionsFrom_head _ _ _ Hm) as (pre0 & post0 & -> & Hrest & _).
    destruct (IH _ _ _ Hrest) as (pre1 & post & -> & Hlater).
    exists (pre0 ++ k ++ pre1), post. split; [| exact Hlater].
    now rewrite <- !app_assoc.
Qed.

Lemma mentionsFrom_included (text m : list Z) :
  In m (mentionsFrom 0 text) -> exists a b, text = a ++ m ++ b.
Proof.
  intros Hin. apply in_split in Hin as (ks & later & Hsplit).
  destruct (mentionsFrom_split _ _ _ _ Hsplit) as (a & b & Heq & _). now exists a, b.
Qed.

Lemma validateLoop_all_known (known : gset (list Z)) (text : list Z)
    (mentions : list (list Z)) :
  Forall (fun m => toLowerCase m ∈ known) mentions ->
  validateLoop known text mentions = text.
Proof.
  induction 1 as [| m rest Hm _ IH]; [reflexivity |]. cbn [validateLoop].
  rewrite (bool_decide_eq_true_2 _ Hm). exact IH.
Qed.

Lemma validateLoop_first_unknown (known : gset (list Z)) (text : list Z)
    (ks : list (list Z)) (m : list Z) (later : list (list Z)) :
  Forall (fun m => toLowerCase m ∈ known) ks ->
  toLowerCase m ∉ known ->
  validateLoop known text (ks ++ m :: later) = replaceFirst text m addressRemoved.
Proof.
  intros Hks Hm. induction Hks as [| k ks Hk _ IH]; cbn [app validateLoop].
  - now rewrite (bool_decide_eq_false_2 _ Hm).
  - rewrite (bool_decide_eq_true_2 _ Hk). exact IH.
Qed.

(** X22.  The validation of the generated summary leaves the text alone
    when every address it mentions is the wallet's or a party of one of its
    transactions.  Otherwise it replaces one occurrence of the first
    mention that is not, and returns at once: every address mentioned
    later, known or not, is still in the result. *)
Theorem validateAiOutput_removes_first_unknown_only (text : list Z) (data : WalletData.t) :
  (Forall (fun m => toLowerCase m ∈ knownAddresses data) (mentionsFrom 0 text) ->
     validateAiOutput text data = text)
  /\ (forall ks m later,
        mentionsFrom 0 text = ks ++ m :: later ->
        Forall (fun k => toLowerCase k ∈ knownAddresses data) ks ->
        toLowerCase m ∉ knownAddresses data ->
        exists pre post,
          text = pre ++ m ++ post
          /\ validateAiOutput text data = pre ++ addressRemoved ++ post
          /\ forall m', In m' later -> includes (validateAiOutput text data) m' = true).
Proof.
  split.
  - apply validateLoop_all_known.
  - intros ks m later Hsplit Hks Hm. unfold validateAiOutput.
    rewrite Hsplit, (validateLoop_first_unknown _ _ _ _ _ Hks Hm).
    destruct (mentionsFrom_split _ _ _ _ Hsplit) as (pre & post & Htext & Hlater).
    destruct (replaceFirst_spec m addressRemoved text pre post Htext)
      as (pre' & post' & Htext' & Hrep & Hlen).
    exists pre', post'. split; [exact Htext' |]. split; [exact Hrep |].
    intros m' Hm'. rewrite Hrep. rewrite <- Hlater in Hm'.
    destruct (mentionsFrom_included _ _ Hm') as (a & b & Hpost).
    assert (Htail : post' = take (length pre - length pre') post' ++ post).
    { assert (Hdrop : post = drop (length pre - length pre') post').
      { assert (H1 : drop (length pre + length m) text = post).
        { rewrite Htext, app_assoc, drop_app_length'; [reflexivity |].
          now rewrite length_app. }
        assert (H2 : drop (length pre' + length m) text = post').
        { rewrite Htext', app_assoc, drop_app_length'; [reflexivity |].
          now rewrite length_app. }
        rewrite <- H1, <- H2, drop_drop. f_equal. lia. }
      rewrite Hdrop. now rewrite take_drop. }
    rewrite Htail, Hpost.
    replace (pre' ++ addressRemoved ++ take (length pre - length pre') post'
             ++ a ++ m' ++ b)
      with ((pre' ++ addressRemoved ++ take (length pre - length pre') post' ++ a)
            ++ m' ++ b)
      by (now rewrite <- !app_assoc).
    apply includes_middle.
Qed.

End ValidationFacts.

Section SpinFacts.
Import JsString TextEncoder ReportGenerator.

(** X23.  When the configured ceiling is below the reservation (blank line,
    disclaimer, ellipsis), the trimming loop of an over-long cast can never
    stop: there is no room even for the empty string, whatever the number of
    turns. *)
Theorem formatForCast_spins_without_room (config : Config.t) (report : WalletReport.t) :
  Config.maxReportLength config < byteLength ([10; 10] ++ Config.disclaimer config) + 3 ->
  byteLength (assemble report) > Config.maxReportLength config ->
  formatForCast config report = None
  /\ forall fuel,
       trimLoop fuel
         (Config.maxReportLength config
          - byteLength ([10; 10] ++ Config.disclaimer config) - 3)
         (assemble report) = None.
Proof.
  intros Hroom Hover. split.
  - unfold formatForCast.
    destruct (Z.gtb_spec (byteLength (assemble report)) (Config.maxReportLength config));
      [| lia].
    unfold truncateToByteLimit. rewrite trimLoop_spins by lia. reflexivity.
  - intros fuel. apply trimLoop_spins. lia.
Qed.

End SpinFacts.

Section ReportDataExamples.
Import JsString TextEncoder ReportGenerator ReportData Samples.

(** A ceiling of 50 bytes, below the 104 reserved, and the short report of
    the formatter's tests. *)
Lemma formatForCast_spins_without_room_witness :
  formatForCast {| Config.cacheTtlSeconds := 300; Config.maxReportLength := 50;
                   Config.disclaimer := Config.disclaimer Config.config |}
                shortReport = None.
Proof.
  refine (proj1 (formatForCast_spins_without_room
                   {| Config.cacheTtlSeconds := 300; Config.maxReportLength := 50;
                      Config.disclaimer := Config.disclaimer Config.config |}
                   shortReport _ _)).
  - vm_compute. reflexivity.
  - vm_compute. reflexivity.
Defined.

End ReportDataExamples.
(* ================================================================== *)
(** * Properties of the endpoints *)
(* ================================================================== *)

Section ShippedFormatter.
Import JsString TextEncoder ReportGenerator.

(** With room for the reservation, the formatter returns, within the
    ceiling. *)
Lemma formatForCast_returns (config : Config.t) (report : WalletReport.t) :
  byteLength ([10; 10] ++ Config.disclaimer config) + 3 <= Config.maxReportLength config ->
  exists cast,
    formatForCast config report = Some cast
    /\ byteLength cast <= Config.maxReportLength config.
Proof.
  intros Hroom. unfold formatForCast.
  destruct (Z.gtb_spec (byteLength (assemble report)) (Config.maxReportLength config))
    as [Hover | Hfits].
  - destruct (truncateToByteLimit_fits config (assemble report) _ Hroom)
      as (body & Hcut & Hlen).
    eexists. split; [exact Hcut | exact Hlen].
  - eexists. split; [reflexivity | exact Hfits].
Qed.

Lemma shipped_ceiling_leaves_room :
  byteLength ([10; 10] ++ Config.disclaimer Config.config) + 3
  <= Config.maxReportLength Config.config.
Proof. vm_compute. discriminate. Qed.

Lemma formatForCast_shipped (report : WalletReport.t) :
  exists cast,
    formatForCast Config.config report = Some cast /\ byteLength cast <= 1024.
Proof. exact (formatForCast_returns Config.config report shipped_ceiling_leaves_room). Qed.

End ShippedFormatter.

Section EndpointFacts.
Import JsString Index.
Variable fetchWalletData : list Z -> option WalletData.t.
Variable generateReport :
  WalletData.t -> Z -> RiskLevel -> list RiskSignal.t -> option WalletReport.t.
Variable getAddress : list Z -> option (list Z).

Lemma runAnalysis_failure now address cache cache' :
  runAnalysis fetchWalletData generateReport now address cache = (None, cache') ->
  cache' = cache.
Proof.
  unfold runAnalysis.
  destruct (fetchWalletData address) as [walletData |]; [| now intros [= <-]].
  destruct (generateReport _ _ _ _) as [r |]; [discriminate | now intros [= <-]].
Qed.

(** X24.  The manual endpoint: it answers "invalid" exactly when no address
    can be extracted, and then leaves the cache alone; a live entry under
    the extracted address is returned without the pipeline being consulted
    and without the cache changing; with no live entry the outcome is the
    pipeline's, a failed analysis stores nothing, and either way an expired
    entry is gone. *)
Theorem analyzeEndpoint_outcomes (now : Z) (param : list Z)
    (cache : gmap (list Z) (TtlCache.CacheEntry WalletReport.t)) :
  (fst (analyzeEndpoint fetchWalletData generateReport getAddress now param cache)
   = InvalidAddress
   <-> Address.extractAddress getAddress param = None)
  /\ (Address.extractAddress getAddress param = None ->
      snd (analyzeEndpoint fetchWalletData generateReport getAddress now param cache)
      = cache)
  /\ (forall address entry,
        Address.extractAddress getAddress param = Some address ->
        cache !! address = Some entry -> now <= TtlCache.expiresAt entry ->
        forall fetch' generate',
          analyzeEndpoint fetch' generate' getAddress now param cache
          = (FromCache (TtlCache.value entry), cache))
  /\ (forall address,
        Address.extractAddress getAddress param = Some address ->
        (forall entry, cache !! address = Some entry -> TtlCache.expiresAt entry < now) ->
        match runAnalysis fetchWalletData generateReport now address
                (delete address cache) with
        | (Some report, stored) =>
            analyzeEndpoint fetchWalletData generateReport getAddress now param cache
            = (Analyzed report, stored)
            /\ stored !! address
               = Some {| TtlCache.value := report;
                         TtlCache.expiresAt := now + reportCacheTtlMs |}
        | (None, _) =>
            analyzeEndpoint fetchWalletData generateReport getAddress now param cache
            = (AnalysisFailed, delete address cache)
        end).
Proof.
  split; [| split; [| split]].
  - unfold analyzeEndpoint.
    destruct (Address.extractAddress getAddress param) as [address |]; cbn [fst].
    + split; [| discriminate].
      destruct (TtlCache.get now address cache) as [[cached |] cache1];
        [discriminate |].
      destruct (runAnalysis _ _ now address cache1) as [[report |] cache2]; discriminate.
    + split; reflexivity.
  - intros Hnone. unfold analyzeEndpoint. now rewrite Hnone.
  - intros address entry Haddr Hentry Hlive fetch' generate'.
    unfold analyzeEndpoint. rewrite Haddr.
    rewrite (get_fresh now address cache entry Hentry Hlive). reflexivity.
  - intros address Haddr Hstale.
    assert (Hget : TtlCache.get now address cache = (None, delete address cache)).
    { destruct (cache !! address) as [entry |] eqn:Hentry.
      - apply (get_expired now address cache entry Hentry). specialize (Hstale _ eq_refl). lia.
      - rewrite (get_absent now address cache Hentry). f_equal. symmetry.
        now apply delete_id. }
    destruct (runAnalysis fetchWalletData generateReport now address (delete address cache))
      as [[report |] stored] eqn:Hrun.
    + split.
      * unfold analyzeEndpoint. now rewrite Haddr, Hget, Hrun.
      * apply runAnalysis_success in Hrun. subst stored. apply set_lookup.
    + pose proof (runAnalysis_failure _ _ _ _ Hrun) as ->.
      unfold analyzeEndpoint. now rewrite Haddr, Hget, Hrun.
Qed.

End EndpointFacts.

Section WebhookFacts.
Import JsString TextEncoder Webhook.
Variable botFid : Z.
Variable webhookSecret : list Z.
Variable hmacSha512Hex : list Z -> list Z -> list Z.
Variable fetchWalletData : list Z -> option WalletData.t.
Variable generateReport :
  WalletData.t -> Z -> RiskLevel -> list RiskSignal.t -> option WalletReport.t.
Variable getAddress : list Z -> option (list Z).
Variable postReply : list Z -> list Z -> bool.

Abbreviation handler :=
  (handle botFid webhookSecret hmacSha512Hex fetchWalletData generateReport
          getAddress postReply).
Abbreviation analysis := (analyzeAndReply fetchWalletData generateReport postReply).

(** [analyzeAndReply] returns, having posted one reply or two. *)
Lemma analyzeAndReply_returns (storedAt : Z) (address castHash : list Z)
    (cache : gmap (list Z) (TtlCache.CacheEntry WalletReport.t)) :
  exists posted cache',
    analysis storedAt address castHash cache = Some (posted, cache')
    /\ (1 <= length posted <= 2)%nat.
Proof.
  unfold analyzeAndReply.
  destruct (Index.runAnalysis fetchWalletData generateReport storedAt address cache)
    as [[report |] stored].
  - destruct (formatForCast_shipped report) as (cast & -> & _).
    destruct (postReply cast castHash); eexists _, _; (split; [reflexivity | simpl; lia]).
  - eexists _, _. split; [reflexivity | simpl; lia].
Qed.







(** X27.  A processed mention is charged to the author's quota before the
    text is looked at: the limiter is left as [checkAndRecord] leaves it
    whether or not an address is found.  A caller over the limit gets the
    limit notice and nothing else happens; a message without an address gets
    the notice for that, with the call recorded.  Every processed mention is
    answered with one reply, or two when posting the report fails. *)
Theorem handle_charges_quota_first (checkedAt lookedUpAt storedAt : Z) (req : Request)
    (st : Store) (out : Outcome) :
  handler checkedAt lookedUpAt storedAt req st = Some out ->
  status out = Processing ->
  eventType (body req) = js "cast.created" ->
  isMentioned botFid (body req) = true ->
  let checked :=
    UserRateLimiter.checkAndRecord userLimit userWindowMs checkedAt
      (authorFid (body req)) (queries st) in
  queries (state out) = snd checked
  /\ (fst checked = false ->
      replies out = [(limitMessage, hash (body req))] /\ state out = st)
  /\ (fst checked = true ->
      Address.extractAddress getAddress (text (body req)) = None ->
      replies out = [(noAddressMessage, hash (body req))]
      /\ reportCache (state out) = reportCache st
      /\ exists earlier,
           UserRateLimiter.recorded (authorFid (body req)) (queries (state out))
           = earlier ++ [checkedAt])
  /\ (1 <= length (replies out) <= 2)%nat.
Proof.
  intros Hout Hstatus Htype Hmention checked. unfold handle in Hout.
  destruct (signatureGate _ _ req);
    [| injection Hout as <-; discriminate | injection Hout as <-; discriminate].
  unfold strictEq in Hout. rewrite (bool_decide_eq_true_2 _ Htype), Hmention in Hout.
  cbn [negb] in Hout. fold checked in Hout.
  destruct (fst checked) eqn:Hverdict; cbn [negb] in Hout.
  - destruct (Address.extractAddress getAddress (text (body req))) as [address |] eqn:Haddr.
    + assert (Hq : queries (state out) = snd checked
                   /\ (1 <= length (replies out) <= 2)%nat).
      { destruct (TtlCache.get lookedUpAt address (reportCache st)) as [[cached |] cache1].
        - destruct (ReportGenerator.formatForCast Config.config cached);
            [| discriminate]. injection Hout as <-. split; [reflexivity | simpl; lia].
        - destruct (analyzeAndReply_returns storedAt address (hash (body req)) cache1)
            as (posted & cache' & Hrun & Hposted).
          rewrite Hrun in Hout. injection Hout as <-. split; [reflexivity |].
          cbn [replies]. exact Hposted. }
      destruct Hq as [Hq Hlen]. split; [exact Hq |].
      split; [discriminate |]. split; [discriminate | exact Hlen].
    + injection Hout as <-. split; [reflexivity |]. split; [discriminate |].
      split; [| simpl; lia]. intros _ _. split; [reflexivity |]. split; [reflexivity |].
      cbn [state queries]. subst checked.
      unfold UserRateLimiter.checkAndRecord in *.
      destruct (_ >=? userLimit); [discriminate |]. cbn [snd].
      unfold UserRateLimiter.recorded. rewrite lookup_insert_eq. cbn [default].
      eexists. reflexivity.
  - injection Hout as <-. split; [reflexivity |].
    split; [| split; [discriminate | simpl; lia]].
    intros _. split; [reflexivity |]. cbn [state].
    assert (Hsame : snd checked = queries st).
    { subst checked. unfold UserRateLimiter.checkAndRecord in *.
      destruct (_ >=? userLimit); [reflexivity | discriminate]. }
    rewrite Hsame. now destruct st.
Qed.

(** X28.  A mention that passes the signature check and whose address has a
    live entry in the cache is answered from the cache: the reply is the
    entry's cast, of at most 1024 bytes, the cache is unchanged, and neither
    the aggregator, nor the report generator, nor the outcome of the post
    has any part in the result. *)
Theorem handle_answers_from_cache (checkedAt lookedUpAt storedAt : Z) (req : Request)
    (st : Store) (address : list Z) (entry : TtlCache.CacheEntry WalletReport.t) :
  signatureGate webhookSecret hmacSha512Hex req = Pass ->
  eventType (body req) = js "cast.created" ->
  isMentioned botFid (body req) = true ->
  fst (UserRateLimiter.checkAndRecord userLimit userWindowMs checkedAt
         (authorFid (body req)) (queries st)) = true ->
  Address.extractAddress getAddress (text (body req)) = Some address ->
  reportCache st !! address = Some entry ->
  lookedUpAt <= TtlCache.expiresAt entry ->
  exists cast,
    ReportGenerator.formatForCast Config.config (TtlCache.value entry) = Some cast
    /\ byteLength cast <= 1024
    /\ forall fetch' generate' postReply',
         handle botFid webhookSecret hmacSha512Hex fetch' generate' getAddress postReply'
                checkedAt lookedUpAt storedAt req st
         = Some {| status := Processing;
                   replies := [(cast, hash (body req))];
                   state :=
                     {| queries :=
                          snd (UserRateLimiter.checkAndRecord userLimit userWindowMs
                                 checkedAt (authorFid (body req)) (queries st));
                        reportCache := reportCache st |} |}.
Proof.
  intros Hsig Htype Hmention Hallowed Haddr Hentry Hlive.
  destruct (formatForCast_shipped (TtlCache.value entry)) as (cast & Hcast & Hlen).
  exists cast. split; [exact Hcast |]. split; [exact Hlen |].
  intros fetch' generate' postReply'. unfold handle.
  rewrite Hsig. unfold strictEq.
  rewrite (bool_decide_eq_true_2 _ Htype), Hmention, Hallowed, Haddr. cbn [negb].
  rewrite (get_fresh lookedUpAt address _ entry Hentry Hlive), Hcast. reflexivity.
Qed.

End WebhookFacts.

Section WebhookExamples.
Import JsString TextEncoder Webhook Samples WebhookSamples.

(** A greeting without an address, at 1000: the call is recorded. *)
Lemma handle_charges_quota_first_witness :
  queries (state noAddressOutcome)
  = snd (UserRateLimiter.checkAndRecord userLimit userWindowMs 1000 42 ∅).
Proof.
  refine (proj1 (handle_charges_quota_first 777 [] noHmac sampleFetch sampleGenerate
                   asGiven posted 1000 1000 1000 (mention (js "gm")) freshState
                   noAddressOutcome _ _ _ _)).
  - vm_compute. reflexivity.
  - reflexivity.
  - reflexivity.
  - reflexivity.
Defined.

(** A signed mention of the clean address at 4000, while its entry lives
    until 5000.  The header carries the digest in upper case and a line
    feed after it. *)
Lemma handle_answers_from_cache_witness :
  exists cast,
    ReportGenerator.formatForCast Config.config shortReport = Some cast
    /\ byteLength cast <= 1024
    /\ forall fetch' generate' postReply',
         handle 777 (js "s3cret") fixedHmac fetch' generate' asGiven postReply'
                1000 4000 4000
                (signedMention shoutedDigest (js "check " ++ cleanAddress)) cachedState
         = Some {| status := Processing;
                   replies := [(cast, js "0xcast")];
                   state :=
                     {| queries :=
                          snd (UserRateLimiter.checkAndRecord userLimit userWindowMs
                                 1000 42 ∅);
                        reportCache := reportCache cachedState |} |}.
Proof.
  refine (handle_answers_from_cache 777 (js "s3cret") fixedHmac asGiven
            1000 4000 4000
            (signedMention shoutedDigest (js "check " ++ cleanAddress)) cachedState
            cleanAddress {| TtlCache.value := shortReport; TtlCache.expiresAt := 5000 |}
            _ _ _ _ _ _ _).
  - vm_compute. reflexivity.
  - reflexivity.
  - reflexivity.
  - reflexivity.
  - vm_compute. reflexivity.
  - vm_compute. reflexivity.
  - vm_compute. discriminate.
Defined.

(** The three answers of the gate, with the secret set: a header one digit
    short makes the check throw, a header of the right length with another
    first digit is refused, the digest itself goes on. *)
Example handle_signature_gate_cases :
  status <$> handle 777 (js "s3cret") fixedHmac sampleFetch sampleGenerate asGiven posted
               1000 1000 1000 (signedMention (List.tail fixedDigest) (js "gm")) freshState
  = Some Uncaught
  /\ status <$> handle 777 (js "s3cret") fixedHmac sampleFetch sampleGenerate asGiven
                  posted 1000 1000 1000
                  (signedMention (js "f" ++ List.tail fixedDigest) (js "gm")) freshState
     = Some Unauthorized
  /\ status <$> handle 777 (js "s3cret") fixedHmac sampleFetch sampleGenerate asGiven
                  posted 1000 1000 1000 (signedMention fixedDigest (js "gm")) freshState
     = Some Processing.
Proof. vm_compute. repeat split. Qed.

End WebhookExamples.
(* ================================================================== *)
(** * Properties of the shipped seed list *)
(* ================================================================== *)

Section ShippedSeedFacts.
Import JsString ScamDb ScamDbRemote ScamSeeds KnownContracts.

Lemma shipped_registry_disjoint :
  dom (seedLocalDb scamSeedData ∅) ## whitelistedAddresses.
Proof. apply (bool_decide_unpack _). vm_compute. exact I. Qed.

(** X29.  The shipped seed list and the whitelist do not meet: seeded from
    the list, the registry holds one entry per seed, every seed address has
    the shape of an address and is not whitelisted, and the batch check
    reports an interacted address exactly when the registry knows it, with
    the registry's flag, so the whitelist hides none of the seeds. *)
Theorem shipped_seeds_not_masked :
  getLocalDbSize (seedLocalDb scamSeedData ∅) = Z.of_nat (length scamSeedData)
  /\ Forall (fun e => AddressShape.addressShape (ScamDb.address e) = true
                      /\ isWhitelisted (ScamDb.address e) = false) scamSeedData
  /\ forall addresses addr,
       In addr addresses ->
       batchCheckLocal (seedLocalDb scamSeedData ∅) addresses !! addr
       = localFlag <$> seedLocalDb scamSeedData ∅ !! toLowerCase addr.
Proof.
  split; [vm_compute; reflexivity |]. split.
  - assert (Hall : forallb (fun e => AddressShape.addressShape (ScamDb.address e)
                                      && negb (isWhitelisted (ScamDb.address e)))
                           scamSeedData = true) by (vm_compute; reflexivity).
    rewrite forallb_forall in Hall. apply List.Forall_forall. intros e He.
    specialize (Hall e He). apply andb_prop in Hall as [Hshape Hwl].
    split; [exact Hshape | now apply negb_true_iff].
  - intros addresses addr Hin. rewrite batchCheckLocal_lookup.
    rewrite bool_decide_eq_true_2 by (now apply list_elem_of_In). cbn [andb].
    destruct (isWhitelisted addr) eqn:Hwl; [| reflexivity]. cbn [negb].
    unfold isWhitelisted in Hwl. apply bool_decide_eq_true in Hwl.
    destruct (seedLocalDb scamSeedData ∅ !! toLowerCase addr) as [m |] eqn:Hm;
      [| reflexivity].
    exfalso. apply (shipped_registry_disjoint (toLowerCase addr)); [| exact Hwl].
    apply elem_of_dom. now exists m.
Qed.

End ShippedSeedFacts.
